(** * Multi-Resolution Filtering (mrf): a shallow embedding of [mrf/task.py]

    The development follows the layout of the source file:
    - [Py]        : the few Python / NumPy primitives the code relies on
                    (exceptions, [int()], [np.ceil], [str.lower], [range]);
    - [WideAssert]: the run-entry assertion of [MrfTask.run];
    - [Tile]      : the grid, the boxes and the tile/not-tile decision of
                    [MrfTileMode.run];
    - [TileRun]   : the tile-mode driver as a state machine over the files
                    it writes, with its loops and exceptions;
    - [FVal]      : pixel values (finite, infinite, NaN);
    - [Stack], [ColorCorrect], [Halo], [Residual], [Hybrid]: the stages of
                    [MrfTask.run] and [MrfTask._subtract_widePSF];
    - [Stitch]    : [MrfTileMode._stitch] and the final combination.
    The second half states and proves the properties, module by module.

    Pixel values are exact rationals: rounding and overflow of IEEE doubles
    are abstracted away, NaN and the infinities are explicit constructors
    where the code tests for them. *)

From Stdlib Require Import String Ascii.
From stdpp Require Import base list gmap strings sorting.
From Stdlib Require Import ZArith QArith Qround Lia Lqa.

Local Open Scope Z_scope.

(* ===================================================================== *)
(** ** Python and NumPy primitives *)
(* ===================================================================== *)

Module Py.

(** The exceptions that [task.py] raises, catches or lets escape. *)
Inductive exn : Type :=
  | AssertionError (msg : string)
  | ValueError (msg : string)
  | IndexError
  | FileNotFoundError
  | NoOverlapError
  | GalSimValueError
  | AttributeError
  | HTTPError
  | OtherError (msg : string).

(** [np.ceil] on a finite value. *)
Definition np_ceil (q : Q) : Z := Qceiling q.

(** [int(q)]: truncation toward zero. *)
Definition int (q : Q) : Z := if Qle_bool 0 q then Qfloor q else Qceiling q.

(** [range(0, n)] as a list of integers. *)
Definition range (n : Z) : list Z := List.map Z.of_nat (seq 0 (Z.to_nat n)).

(** [c.lower()] for one character: the ASCII letters A-Z are shifted. *)
Definition lower_ascii (c : ascii) : ascii :=
  let n := nat_of_ascii c in
  if (65 <=? n)%nat && (n <=? 90)%nat then ascii_of_nat (n + 32) else c.

(** [s.lower()] on a byte string. *)
Fixpoint lower (s : string) : string :=
  match s with
  | EmptyString => EmptyString
  | String c s' => String (lower_ascii c) (lower s')
  end.

(** [assert cond, msg] *)
Definition assert_ (cond : bool) (msg : string) : exn + unit :=
  if cond then inr tt else inl (AssertionError msg).

End Py.

(* ===================================================================== *)
(** ** The run-entry assertion of [MrfTask.run] (task.py, lines 231-233) *)
(* ===================================================================== *)

Module WideAssert.

Import Py.

Definition msg : string :=
  "Wide PSF subtraction is only available for Dragonfly data. Check your low-resolution images!".

(** The asserted condition, as written:
    [((ds.lower() != 'df' or ds.lower() != 'dragonfly') and wide_psf == True)
       or wide_psf == False]. *)
Definition wide_psf_condition (dataset : string) (wide_psf : bool) : bool :=
  ((negb (String.eqb (lower dataset) "df")
    || negb (String.eqb (lower dataset) "dragonfly"))
   && Bool.eqb wide_psf true)
  || Bool.eqb wide_psf false.

Definition run_entry_assert (dataset : string) (wide_psf : bool) : exn + unit :=
  assert_ (wide_psf_condition dataset wide_psf) msg.

End WideAssert.

(* ===================================================================== *)
(** ** Tile scheduler geometry ([MrfTileMode.run], lines 1127-1251) *)
(* ===================================================================== *)

Module Tile.

Import Py.

(** [highres_x >= 1.5 * max_size or highres_y >= 1.5 * max_size] *)
Definition tilemode (highres_x highres_y max_size : Z) : bool :=
  Qle_bool ((15 # 10) * inject_Z max_size) (inject_Z highres_x)
  || Qle_bool ((15 # 10) * inject_Z max_size) (inject_Z highres_y).

Inductive band := G | R.

(** The choice of the band whose frame defines the tiles, with the frame
    size that goes with it (lines 1141-1176). *)
Definition master_band (highres_x highres_y highres_x_r highres_y_r : Z)
  : band * (Z * Z) :=
  if (highres_x_r =? highres_x) && (highres_y_r =? highres_y) then
    (G, (highres_x, highres_y))
  else if (highres_x_r <? highres_x) && (highres_y_r <? highres_y) then
    (R, (highres_x_r, highres_y_r))
  else if (highres_x_r >? highres_x) && (highres_y_r >? highres_y) then
    (G, (highres_x, highres_y))
  else if highres_x_r * highres_y_r <? highres_x * highres_y then
    (R, (highres_x_r, highres_y_r))
  else if highres_x_r * highres_y_r >? highres_x * highres_y then
    (G, (highres_x, highres_y))
  else
    (G, (highres_x, highres_y)).

Record grid : Type := MkGrid {
  N_x : Z;
  N_y : Z;
  N_tiles : Z;
  len_x : Z;
  len_y : Z
}.

(** Lines 1189-1196. *)
Definition tile_grid (highres_x highres_y max_size : Z) (overlap : Q) : grid :=
  let N_x := np_ceil ((1 + 2 * overlap) * inject_Z highres_x / inject_Z max_size) in
  let N_y := np_ceil ((1 + 2 * overlap) * inject_Z highres_y / inject_Z max_size) in
  let N_tiles := int (inject_Z (N_x * N_y)) in
  let len_x := np_ceil (inject_Z highres_x / inject_Z N_x) in
  let len_y := np_ceil (inject_Z highres_y / inject_Z N_y) in
  MkGrid N_x N_y N_tiles len_x len_y.

Record box : Type := MkBox {
  xmin : Z;
  xmax : Z;
  ymin : Z;
  ymax : Z
}.

(** [int(i % N_x)] and [int(i / N_x)]. *)
Definition x_index (g : grid) (i : Z) : Z := i mod N_x g.
Definition y_index (g : grid) (i : Z) : Z := Z.quot i (N_x g).

(** The box of tile [i] before the overlap is introduced (lines 1229-1235). *)
Definition nonoverlap_box (highres_x highres_y : Z) (g : grid) (i : Z) : box :=
  let xmin := x_index g i * len_x g in
  let ymin := y_index g i * len_y g in
  let xmax := xmin + len_x g in
  let ymax := ymin + len_y g in
  let xmax := Z.min (highres_x - 1) xmax in
  let ymax := Z.min (highres_y - 1) ymax in
  MkBox xmin xmax ymin ymax.

(** The box after the overlap is introduced (lines 1243-1246). *)
Definition overlap_box (highres_x highres_y : Z) (overlap : Q) (g : grid) (i : Z)
  : box :=
  let b := nonoverlap_box highres_x highres_y g i in
  let xmin := Z.max 0 (xmin b - int (overlap * inject_Z (len_x g))) in
  let ymin := Z.max 0 (ymin b - int (overlap * inject_Z (len_y g))) in
  let xmax := Z.min (highres_x - 1) (xmax b + int (overlap * inject_Z (len_x g))) in
  let ymax := Z.min (highres_y - 1) (ymax b + int (overlap * inject_Z (len_y g))) in
  MkBox xmin xmax ymin ymax.

(** Centre and size of a box, as the loop computes them. *)
Definition x_center (b : box) : Q := (1 # 2) * inject_Z (xmin b + xmax b).
Definition y_center (b : box) : Q := (1 # 2) * inject_Z (ymin b + ymax b).
Definition x_size (b : box) : Z := xmax b - xmin b.
Definition y_size (b : box) : Z := ymax b - ymin b.

(** Pixel [(x, y)] lies in the box, both ends included. *)
Definition covers (b : box) (x y : Z) : bool :=
  (xmin b <=? x) && (x <=? xmax b) && (ymin b <=? y) && (y <=? ymax b).

(** The same box read with its upper ends excluded. *)
Definition covers_halfopen (b : box) (x y : Z) : bool :=
  (xmin b <=? x) && (x <? xmax b) && (ymin b <=? y) && (y <? ymax b).

(** All non-overlap boxes of a frame, in loop order. *)
Definition nonoverlap_boxes (highres_x highres_y max_size : Z) (overlap : Q)
  : list box :=
  let g := tile_grid highres_x highres_y max_size overlap in
  List.map (nonoverlap_box highres_x highres_y g) (range (N_tiles g)).

(** How many non-overlap boxes contain a pixel. *)
Definition coverage (highres_x highres_y max_size : Z) (overlap : Q) (x y : Z)
  : nat :=
  length (List.filter (fun b => covers b x y)
            (nonoverlap_boxes highres_x highres_y max_size overlap)).

End Tile.

(* ===================================================================== *)
(** ** The tile-mode driver ([MrfTileMode.run], lines 1127-1502) *)
(* ===================================================================== *)

Module TileRun.

Import Py Tile.

(** The files the driver writes and reads, named by their role and tile
    number (the f-strings of the source all embed the same target and band). *)
Inductive file : Type :=
  | LowresTile (j : Z)            (* {target}-lowres-{band}-tile-{j}.fits *)
  | HiresTile (b : band) (j : Z)  (* {target}-{source}-{b}-tile-{j}.fits *)
  | BinnedTile (b : band) (i : Z) (* {target}-{source}-binned-{b}-tile-{i}.fits *)
  | Halosub (i : Z)               (* {target}-{band}-tile-{i}_halosub.fits *)
  | TileMask (i : Z)              (* {target}-{band}-tile-{i}_mask.fits *)
  | FinalTile (i : Z)             (* {target}_{band}_final_tile_{i}.fits *)
  | FinalTileMask (i : Z)         (* {target}_{band}_final_tile_{i}_mask.fits *)
  | StitchImage                   (* {target}-stitch_{band}.fits *)
  | StitchMask                    (* {target}-stitch-mask_{band}.fits *)
  | FinalImage.                   (* {target}-final-{band}.fits *)

#[global] Instance band_eq_dec : EqDecision band.
Proof. solve_decision. Defined.

#[global] Instance file_eq_dec : EqDecision file.
Proof. solve_decision. Defined.

Definition exists_file (f : file) (fs : list file) : bool := bool_decide (f ∈ fs).

(** The arguments of [run] and the frame sizes read from the two
    high-resolution headers. *)
Record config : Type := MkConfig {
  highres_x_g : Z;
  highres_y_g : Z;
  highres_x_r : Z;
  highres_y_r : Z;
  max_size : Z;
  overlap : Q;
  skip_cut_tile : bool;
  skip_rebin : bool;
  skip_mrf : bool;
  skip_trim : bool;
  stitch_method : string
}.

(** How far [MrfTask.run] has got with the two files the driver reads
    back when it raises: the halo-subtracted image is saved at the end of
    step 11 (task.py lines 713 and 910), the mask in step 12 (line 633),
    and statements after each of them can still raise (line 645, for one). *)
Inductive progress : Type :=
  | NothingWritten
  | HalosubWritten
  | MaskWritten.

(** What the driver cannot decide by itself: the sky geometry behind
    [Cutout2D], the outcome of [MrfTask.run] on a tile, and the files that
    are on disk when the run starts. *)
Record world : Type := MkWorld {
  pix_scale_hires : Q;
  (* Cutout2D on the low-resolution frame raises NoOverlapError *)
  lowres_no_overlap : Q -> Q -> Q -> Q -> bool;
  (* Cutout2D on the g or r high-resolution frame raises NoOverlapError *)
  hires_no_overlap : band -> Q -> Q -> Q -> Q -> bool;
  (* MrfTask.run on tile i: None when it returns, Some e when it raises e *)
  mrf_run : Z -> option exn;
  (* when MrfTask.run raises on tile i: what it has saved by then *)
  mrf_progress : Z -> progress;
  (* Cutout2D on an MRF-ed tile image or mask raises NoOverlapError *)
  trim_no_overlap : file -> Q -> Q -> Q -> Q -> bool;
  files0 : list file
}.

Record state : Type := MkState {
  files : list file;
  j : Z;
  skipped : Z;
  tiles_xcen : list Q;
  tiles_ycen : list Q;
  tiles_xlen : list Q;
  tiles_ylen : list Q;
  bad_tiles : list Z;
  mrf_calls : list Z     (* the tiles MrfTask.run was invoked on, in order *)
}.

Definition init_state (w : world) : state :=
  MkState (files0 w) 0 0 [] [] [] [] [] [].

Definition write (f : file) (s : state) : state :=
  MkState (f :: files s) (j s) (skipped s) (tiles_xcen s) (tiles_ycen s)
          (tiles_xlen s) (tiles_ylen s) (bad_tiles s) (mrf_calls s).

(** A statement either completes or raises, in both cases in some state. *)
Inductive result : Type :=
  | Done (s : state)
  | Raised (e : exn) (s : state).

Definition bind (r : result) (k : state -> result) : result :=
  match r with
  | Done s => k s
  | Raised e s => Raised e s
  end.

Notation "r >>= k" := (bind r k) (at level 50, left associativity).

(** The statement did not complete. *)
Definition is_raised (r : result) : Prop :=
  match r with Raised _ _ => True | Done _ => False end.

(** [for i in l: body]; [continue] is [Done]. *)
Fixpoint for_each (l : list Z) (body : Z -> state -> result) (s : state) : result :=
  match l with
  | [] => Done s
  | i :: l' => body i s >>= for_each l' body
  end.

Section Driver.

Variable w : world.
Variable c : config.

(** Body of the loop that cuts the tiles (lines 1222-1329), for the frame
    [highres_x] x [highres_y] of the master band. *)
Definition cut_tile (highres_x highres_y : Z) (g : grid) (i : Z) (s : state)
  : result :=
  let b := overlap_box highres_x highres_y (overlap c) g i in
  let xc := x_center b in
  let yc := y_center b in
  let xs := (inject_Z (x_size b) * pix_scale_hires w)%Q in
  let ys := (inject_Z (y_size b) * pix_scale_hires w)%Q in
  let append (s : state) : state :=
    MkState (files s) (j s + 1) (skipped s)
            (tiles_xcen s ++ [xc]) (tiles_ycen s ++ [yc])
            (tiles_xlen s ++ [xs]) (tiles_ylen s ++ [ys])
            (bad_tiles s) (mrf_calls s) in
  if skip_cut_tile c then Done (append s)
  else if lowres_no_overlap w xc yc xs ys then
    (* except NoOverlapError: skipped += 1; continue *)
    Done (MkState (files s) (j s) (skipped s + 1)
                  (tiles_xcen s) (tiles_ycen s) (tiles_xlen s) (tiles_ylen s)
                  (bad_tiles s) (mrf_calls s))
  else
    let s := write (LowresTile (j s)) s in
    (* the g and r cutouts are made outside the try *)
    if hires_no_overlap w G xc yc xs ys then Raised NoOverlapError s
    else if hires_no_overlap w R xc yc xs ys then Raised NoOverlapError s
    else
      let s := write (HiresTile G (j s)) s in
      let s := write (HiresTile R (j s)) s in
      Done (append s).

(** Body of the binning loop (lines 1338-1360). *)
Definition rebin_tile (i : Z) (s : state) : result :=
  if negb (exists_file (HiresTile G i) (files s)) then Raised FileNotFoundError s
  else
    let s := write (BinnedTile G i) s in
    if negb (exists_file (HiresTile R i) (files s)) then Raised FileNotFoundError s
    else Done (write (BinnedTile R i) s).

(** Body of the MRF loop (lines 1370-1399). *)
Definition mrf_tile (i : Z) (s : state) : result :=
  let s := MkState (files s) (j s) (skipped s) (tiles_xcen s) (tiles_ycen s)
                   (tiles_xlen s) (tiles_ylen s) (bad_tiles s)
                   (mrf_calls s ++ [i]) in
  let bad (s : state) : state :=
    MkState (files s) (j s) (skipped s) (tiles_xcen s) (tiles_ycen s)
            (tiles_xlen s) (tiles_ylen s) (bad_tiles s ++ [i]) (mrf_calls s) in
  match mrf_run w i with
  | None => Done (write (TileMask i) (write (Halosub i) s))
  | Some e =>
      (* what the task saved before it raised stays on disk *)
      let s := match mrf_progress w i with
               | NothingWritten => s
               | HalosubWritten => write (Halosub i) s
               | MaskWritten => write (TileMask i) (write (Halosub i) s)
               end in
      match e with
      | GalSimValueError => Done (bad s)
      | AttributeError => Done (bad s)
      | HTTPError => Done (bad s)
      | e => Raised e s
      end
  end.

(** Body of the trimming loop (lines 1408-1471). *)
Definition trim_tile (i : Z) (s : state) : result :=
  match tiles_xcen s !! Z.to_nat i, tiles_ycen s !! Z.to_nat i,
        tiles_xlen s !! Z.to_nat i, tiles_ylen s !! Z.to_nat i with
  | Some xc, Some yc, Some xs, Some ys =>
      if negb (exists_file (Halosub i) (files s)) then Raised FileNotFoundError s
      else if trim_no_overlap w (Halosub i) xc yc xs ys then Done s
      else
        let s := write (FinalTile i) s in
        if negb (exists_file (TileMask i) (files s)) then Raised FileNotFoundError s
        else if trim_no_overlap w (TileMask i) xc yc xs ys then Done s
        else Done (write (FinalTileMask i) s)
  | _, _, _, _ => Raised IndexError s
  end.

(** The low-resolution cutout of grid tile [i] has no overlap with the
    low-resolution image: the condition of the [except NoOverlapError]
    branch of [cut_tile]. *)
Definition tile_off_image (highres_x highres_y : Z) (g : grid) (i : Z) : bool :=
  let b := overlap_box highres_x highres_y (overlap c) g i in
  lowres_no_overlap w (x_center b) (y_center b)
    (inject_Z (x_size b) * pix_scale_hires w)%Q
    (inject_Z (y_size b) * pix_scale_hires w)%Q.

(** The g or the r cutout of grid tile [i] has no overlap with its
    high-resolution frame: the condition under which the cutouts made
    outside the [try] raise. *)
Definition tile_off_hires (highres_x highres_y : Z) (g : grid) (i : Z) : bool :=
  let b := overlap_box highres_x highres_y (overlap c) g i in
  let xc := x_center b in
  let yc := y_center b in
  let xs := (inject_Z (x_size b) * pix_scale_hires w)%Q in
  let ys := (inject_Z (y_size b) * pix_scale_hires w)%Q in
  hires_no_overlap w G xc yc xs ys || hires_no_overlap w R xc yc xs ys.

Definition when (b : bool) (k : state -> result) (s : state) : result :=
  if b then k s else Done s.

(** The stitching and the final combination (lines 1476-1502); SWarp and
    reproject are taken to succeed on the files they are given. *)
Definition stitch_stage (s : state) : result :=
  if negb (String.eqb (stitch_method c) "swarp"
           || String.eqb (stitch_method c) "reproject")
  then Raised (ValueError "'stitch_method' must be 'swarp' or 'reproject'! ") s
  else Done (write FinalImage (write StitchMask (write StitchImage s))).

(** Everything after the tile/not-tile decision. *)
Definition run_tiled (s : state) : result :=
  let '(_, (highres_x, highres_y)) :=
    master_band (highres_x_g c) (highres_y_g c) (highres_x_r c) (highres_y_r c) in
  let g := tile_grid highres_x highres_y (max_size c) (overlap c) in
  for_each (range (N_tiles g)) (cut_tile highres_x highres_y g) s >>= fun s =>
  when (negb (skip_rebin c))
    (fun s => for_each (range (N_tiles g - skipped s)) rebin_tile s) s >>= fun s =>
  when (negb (skip_mrf c))
    (fun s => for_each (range (N_tiles g - skipped s)) mrf_tile s) s >>= fun s =>
  when (negb (skip_trim c))
    (for_each (range (N_tiles g)) trim_tile) s >>= fun s =>
  stitch_stage s.

Definition not_required : string :=
  "Tile mode MRF not required. The size of high-res image is smaller than 1.5 * max_size.".

(** [MrfTileMode.run] from the size assessment on (line 1127). *)
Definition run : result :=
  let s := init_state w in
  if tilemode (highres_x_g c) (highres_y_g c) (max_size c) then run_tiled s
  else
    (* tilemode = False; assert tilemode, "..." *)
    match assert_ false not_required with
    | inl e => Raised e s
    | inr _ => Done s
    end.

End Driver.

(** [run]'s keyword defaults ([max_size=8000], [overlap=0.05], nothing
    skipped, [stitch_method='swarp']) on two bands of the same frame size. *)
Definition default_config (highres_x highres_y : Z) : config :=
  MkConfig highres_x highres_y highres_x highres_y 8000 (5 # 100)
           false false false false "swarp".

(** A low-resolution image that covers the whole high-resolution frame, and
    an MRF task that succeeds on every tile. *)
Definition full_coverage_world : world :=
  MkWorld (1 # 3600) (fun _ _ _ _ => false) (fun _ _ _ _ _ => false)
          (fun _ => None) (fun _ => NothingWritten)
          (fun _ _ _ _ _ => false) [].

(** A low-resolution image that misses the far corner of the frame: a
    cutout centred beyond pixel (12000, 12000) has no overlap with it. *)
Definition corner_missing_world : world :=
  MkWorld (1 # 3600)
          (fun xc yc _ _ => Qle_bool 12000 xc && Qle_bool 12000 yc)
          (fun _ _ _ _ _ => false)
          (fun _ => None) (fun _ => NothingWritten)
          (fun _ _ _ _ _ => false) [].

End TileRun.

(* ===================================================================== *)
(** ** Pixel values *)
(* ===================================================================== *)

Module FVal.

(** A double as the code sees it: a finite number, an infinity or NaN.
    Finite arithmetic is exact (no rounding, no overflow) and the sign of a
    zero is not tracked: dividing a non-zero number by zero gives the
    infinity of the numerator's sign. *)
Inductive fval : Type :=
  | Fin (q : Q)
  | PInf
  | NInf
  | NaN.

Definition isnan (x : fval) : bool :=
  match x with NaN => true | _ => false end.

Definition isinf (x : fval) : bool :=
  match x with PInf | NInf => true | _ => false end.

Definition isfinite (x : fval) : bool :=
  match x with Fin _ => true | _ => false end.

Definition Qlt_bool (a b : Q) : bool := negb (Qle_bool b a).

Definition Qsign (q : Q) : comparison := (q ?= 0)%Q.

Definition fneg (x : fval) : fval :=
  match x with
  | Fin q => Fin (- q)
  | PInf => NInf
  | NInf => PInf
  | NaN => NaN
  end.

(** An infinity times a value of the given sign. *)
Definition inf_times (inf : fval) (s : comparison) : fval :=
  match s with
  | Gt => inf
  | Lt => fneg inf
  | Eq => NaN
  end.

Definition fadd (x y : fval) : fval :=
  match x, y with
  | NaN, _ | _, NaN => NaN
  | Fin a, Fin b => Fin (a + b)
  | PInf, NInf | NInf, PInf => NaN
  | PInf, _ | _, PInf => PInf
  | NInf, _ | _, NInf => NInf
  end.

Definition fmul (x y : fval) : fval :=
  match x, y with
  | NaN, _ | _, NaN => NaN
  | Fin a, Fin b => Fin (a * b)
  | Fin a, PInf | PInf, Fin a => inf_times PInf (Qsign a)
  | Fin a, NInf | NInf, Fin a => inf_times NInf (Qsign a)
  | PInf, PInf | NInf, NInf => PInf
  | PInf, NInf | NInf, PInf => NInf
  end.

Definition fdiv (x y : fval) : fval :=
  match x, y with
  | NaN, _ | _, NaN => NaN
  | Fin a, Fin b =>
      if Qeq_bool b 0 then inf_times PInf (Qsign a) else Fin (a / b)
  | Fin _, PInf | Fin _, NInf => Fin 0
  | PInf, Fin b => match Qsign b with Lt => NInf | _ => PInf end
  | NInf, Fin b => match Qsign b with Lt => PInf | _ => NInf end
  | _, _ => NaN
  end.

(** [x < y]; every comparison with NaN is false. *)
Definition flt (x y : fval) : bool :=
  match x, y with
  | NaN, _ | _, NaN => false
  | Fin a, Fin b => Qlt_bool a b
  | NInf, NInf => false
  | NInf, _ => true
  | _, PInf => match x with PInf => false | _ => true end
  | _, _ => false
  end.

Definition fle (x y : fval) : bool :=
  match x, y with
  | NaN, _ | _, NaN => false
  | _, _ => negb (flt y x)
  end.

(** [x != 0] *)
Definition nonzero (x : fval) : bool :=
  match x with
  | Fin q => negb (Qeq_bool q 0)
  | _ => true
  end.

(** [b * x] for a boolean [b]. *)
Definition bmul (b : bool) (x : fval) : fval :=
  fmul (Fin (if b then 1 else 0)) x.

(** Sorting, for the medians. *)
Fixpoint insert_sorted (x : fval) (l : list fval) : list fval :=
  match l with
  | [] => [x]
  | y :: l' => if fle x y then x :: l else y :: insert_sorted x l'
  end.

Definition sort (l : list fval) : list fval :=
  fold_right insert_sorted [] l.

(** [np.nanmedian] of a flat collection: NaNs are dropped, the middle value
    (or the mean of the two middle values) of the rest is returned, NaN when
    nothing is left. *)
Definition nanmedian (l : list fval) : fval :=
  let xs := sort (List.filter (fun x => negb (isnan x)) l) in
  let n := length xs in
  match n with
  | O => NaN
  | _ =>
      if Nat.even n
      then fdiv (fadd (nth (n / 2 - 1) xs NaN) (nth (n / 2) xs NaN)) (Fin 2)
      else nth (n / 2) xs NaN
  end.

End FVal.

(* ===================================================================== *)
(** ** PSF stacking ([MrfTask.run], lines 553-587) *)
(* ===================================================================== *)

Module Stack.

Import Py FVal.

(** A star cutout, flattened: [size * size] pixels. *)
Definition patch : Type := list fval.

(** [sub in s] *)
Fixpoint contains (sub s : string) : bool :=
  if String.prefix sub s then true
  else match s with
       | EmptyString => false
       | String _ s' => contains sub s'
       end.

(** [config.starhalo.cval]: a string or a number. *)
Inductive cval_cfg : Type :=
  | CvalStr (s : string)
  | CvalNum (q : Q).

Record starhalo_cfg : Type := MkStarhalo {
  halosize : nat;
  cval : cval_cfg;
  mask_contam : bool;
  norm : string
}.

Section Stacking.

(** A row of [psf_cat] and the [Star] object of [mrf.celestial]; the class
    lives outside [task.py], so its methods are taken as they come: each
    may return or raise. *)
Variable starobj : Type.
Variable Star : Type.
Variable Star_init : starobj -> exn + Star.
Variable centralize : Star -> exn + Star.
Variable mask_out_contam : Star -> exn + Star.
Variable get_masked_image : Star -> fval -> exn + patch.
(** The attributes [sstar.fluxann] and [sstar.flux]. *)
Variable fluxann : Star -> exn + fval.
Variable flux : Star -> exn + fval.
(** [float(s)] on a string *)
Variable float_of_string : string -> exn + fval.

Variable cfg : starhalo_cfg.

Definition size : nat := 2 * halosize cfg + 1.

Definition bind {A B : Type} (r : exn + A) (k : A -> exn + B) : exn + B :=
  match r with
  | inl e => inl e
  | inr a => k a
  end.

Notation "'try' x <- r ; k" := (bind r (fun x => k))
  (at level 10, x name, r at level 100, k at level 200).

(** The body of the [try] block for one star (lines 559-577). *)
Definition process_star (obj : starobj) : exn + patch :=
  try sstar <- Star_init obj;
  try cval <- match cval cfg with
              | CvalStr s => if contains "nan" (lower s) then inr NaN
                             else float_of_string s
              | CvalNum q => inr (Fin q)
              end;
  try sstar <- centralize sstar;
  try sstar <- (if mask_contam cfg then mask_out_contam sstar else inr sstar);
  try img <- get_masked_image sstar cval;
  try d <- (if String.eqb (norm cfg) "flux_ann" then fluxann sstar else flux sstar);
  let p := List.map (fun x => fdiv x d) img in
  (* stack_set[i, :, :] = p needs p to have the shape of a slot *)
  if Nat.eqb (length p) (size * size) then inr p
  else inl (ValueError "could not broadcast input array").

(** [np.ones((size, size)) * 1e9] *)
Definition sentinel : patch := repeat (Fin 1000000000) (size * size).

(** [np.zeros((n, size, size))] *)
Definition zeros (n : nat) : list patch := repeat (repeat (Fin 0) (size * size)) n.

(** The loop over [enumerate(psf_cat)], from index [i] on. *)
Fixpoint stack_loop (i : nat) (cat : list starobj)
    (stack_set : list patch) (bad_indices : list nat) : list patch * list nat :=
  match cat with
  | [] => (stack_set, bad_indices)
  | obj :: cat' =>
      match process_star obj with
      | inr p => stack_loop (S i) cat' (<[i := p]> stack_set) bad_indices
      | inl _ =>
          (* except Exception: the slot gets the sentinel, i is recorded *)
          stack_loop (S i) cat' (<[i := sentinel]> stack_set) (bad_indices ++ [i])
      end
  end.

(** [np.delete(l, idx, axis=0)] for indices within range. *)
Fixpoint delete_from (k : nat) (l : list patch) (idx : list nat) : list patch :=
  match l with
  | [] => []
  | x :: l' =>
      if bool_decide (k ∈ idx) then delete_from (S k) l' idx
      else x :: delete_from (S k) l' idx
  end.

Definition np_delete (l : list patch) (idx : list nat) : list patch :=
  delete_from 0 l idx.

(** [np.nanmedian(stack_set, axis=0)] *)
Definition nanmedian_axis0 (stack_set : list patch) : patch :=
  List.map (fun k => nanmedian (List.map (fun p => nth k p NaN) stack_set))
           (seq 0 (size * size)).

Record stacked : Type := MkStacked {
  raw_stack : list patch;      (* stack_set when the loop ends *)
  bad_indices : list nat;
  stack_set : list patch;      (* after np.delete *)
  median_psf : patch           (* before background subtraction and smoothing *)
}.

Definition stack_stars (psf_cat : list starobj) : stacked :=
  let '(raw, bad) := stack_loop 0 psf_cat (zeros (length psf_cat)) [] in
  let kept := np_delete raw bad in
  MkStacked raw bad kept (nanmedian_axis0 kept).

(** What a star leaves in its slot, and the stars that survive. *)
Definition slot_of (obj : starobj) : patch :=
  match process_star obj with
  | inr p => p
  | inl _ => sentinel
  end.

(** The indices, counted from [k], of the stars whose processing raises. *)
Fixpoint failing_from (k : nat) (cat : list starobj) : list nat :=
  match cat with
  | [] => []
  | obj :: cat' =>
      match process_star obj with
      | inl _ => k :: failing_from (S k) cat'
      | inr _ => failing_from (S k) cat'
      end
  end.

Definition survivor (obj : starobj) : option patch :=
  match process_star obj with
  | inr p => Some p
  | inl _ => None
  end.

End Stacking.

(** A small catalog for the examples: a star is its peak value, a cutout
    has one pixel, and building the [Star] of a negative entry fails. *)
Definition sample_cfg : starhalo_cfg := MkStarhalo 0 (CvalStr "nan") true "flux".

Definition sample_Star_init (obj : Z) : exn + Z :=
  if (obj <? 0)%Z then inl (ValueError "empty patch") else inr obj.

Definition sample_stack_stars (psf_cat : list Z) : stacked :=
  stack_stars Z Z sample_Star_init inr inr
    (fun s _ => inr [Fin (inject_Z s)])
    (fun _ => inr (Fin 1)) (fun _ => inr (Fin 2))
    (fun _ => inl (ValueError "could not convert string to float"))
    sample_cfg psf_cat.

End Stack.

(* ===================================================================== *)
(** ** Colour correction and flux model ([MrfTask.run], lines 337-358 and
       401-412) *)
(* ===================================================================== *)

Module ColorCorrect.

Import Py FVal.

(** A frame, flattened; all frames of one run have the same shape. *)
Definition image : Type := list fval.

(** [10 ** -1] and [10] as the thresholds of the clamp. *)
Definition ratio_min : fval := Fin (1 # 10).
Definition ratio_max : fval := Fin 10.

(** [col_ratio = b_imflux / r_imflux] followed by
    [col_ratio[np.isnan(col_ratio) | np.isinf(col_ratio)] = 0]. *)
Definition remove_artifact (x : fval) : fval :=
  if isnan x || isinf x then Fin 0 else x.

Definition col_ratio (b_imflux r_imflux : image) : image :=
  List.map remove_artifact (zip_with fdiv b_imflux r_imflux).

(** [np.nanmedian(col_ratio[col_ratio != 0])] *)
Definition median_col (col_ratio : image) : fval :=
  nanmedian (List.filter nonzero col_ratio).

(** [fluxratio[(fluxratio < 0.1) | (fluxratio > 10)] = 1] *)
Definition remove_extreme (x : fval) : fval :=
  if flt x ratio_min || flt ratio_max x then Fin 1 else x.


Definition fluxratio (col_ratio : image) : image :=
  List.map (fun x => remove_extreme (fdiv x (median_col col_ratio))) col_ratio.

(** [x ** n] for a natural exponent, by repeated multiplication; it agrees
    with [np.power] there ([nan ** 0] is 1). *)
Definition power_nat (x : fval) (n : nat) : fval := Nat.iter n (fmul x) (Fin 1).

(** [np.power(x, c)] when the colour term [c] is a natural number. *)
Definition np_power_natural (x : fval) (c : Q) : fval :=
  power_nat x (Z.to_nat (Qfloor c)).

Section FluxModel.

(** [np.power(x, color_term)]: the power function of NumPy, for a real
    exponent. *)
Variable np_power : fval -> Q -> fval.
Variable color_term : Q.

Definition col_correct (col_ratio : image) : image :=
  List.map (fun x => np_power x color_term) (fluxratio col_ratio).

(** Lines 353-358: the band of the low-resolution data picks the frame the
    correction is applied to. *)
Definition hires_3 (band : string) (hires_b hires_r col_correct : image)
  : exn + image :=
  if String.eqb band "r" then inr (zip_with fmul hires_r col_correct)
  else if String.eqb band "g" then inr (zip_with fmul hires_b col_correct)
  else inl (ValueError "config.lowres.band must be 'g' or 'r'!").

(** Lines 411-412: [seg_mask * hires_3.image], then NaN pixels set to 0. *)
Definition nan_to_zero (x : fval) : fval := if isnan x then Fin 0 else x.

Definition hires_fluxmod (seg_mask : list bool) (hires_3 : image) : image :=
  List.map nan_to_zero (zip_with bmul seg_mask hires_3).

(** From the two flux images to the flux model. [seg_mask] is the grown
    segmentation mask of line 409, whatever the detection made of it. *)
Definition flux_model (band : string) (b_imflux r_imflux hires_b hires_r : image)
    (seg_mask : list bool) : exn + image :=
  let cr := col_ratio b_imflux r_imflux in
  match hires_3 band hires_b hires_r (col_correct cr) with
  | inl e => inl e
  | inr h3 => inr (hires_fluxmod seg_mask h3)
  end.

End FluxModel.

End ColorCorrect.

(* ===================================================================== *)
(** ** Flux scaling of the halos ([MrfTask._subtract_widePSF], lines
       850-892) *)
(* ===================================================================== *)

Module Halo.

Import Py FVal.

Local Open Scope Q_scope.

(** A row of [bright_star_cat] after the join with the Pan-STARRS catalog.
    [MeanPSFMag] is the column [config.lowres.band + 'MeanPSFMag']; [None]
    is a masked entry: the star has no Pan-STARRS match within 5 arcsec. *)
Record star : Type := MkStar {
  mag : Q;
  flux : Q;
  MeanPSFMag : option Q
}.

(** The rows the relation is fitted on:
    [(MeanPSFMag < 16) & (MeanPSFMag > 0) & ~mask]. When the column is not
    masked (line 856) every entry is present and the test is the same. *)
Definition fit_flag (s : star) : bool :=
  match MeanPSFMag s with
  | Some m => Qlt_bool m 16 && Qlt_bool 0 m
  | None => false
  end.

(** The truth value of [obj[band + 'MeanPSFMag']] in an [if]: a masked
    entry is false, a number is true unless it is zero. *)
Definition truthy (o : option Q) : bool :=
  match o with
  | Some m => negb (Qeq_bool m 0)
  | None => false
  end.

(** [np.poly1d(pfit)(v)], coefficients from the highest degree down. *)
Definition poly1d (pfit : list Q) (v : Q) : Q :=
  fold_left (fun acc c => acc * v + c) pfit 0.

(** Sums of powers, for the exact least-squares fit below. *)
Definition sum_Q (l : list Q) : Q := fold_right Qplus 0 l.

Definition det3 (a b c d e f g h i : Q) : Q :=
  a * (e * i - f * h) - b * (d * i - f * g) + c * (d * h - e * g).

(** The least-squares parabola through the points, by the normal equations
    and Cramer's rule in exact arithmetic: what [np.polyfit(x, y, 2)]
    computes when the points determine the parabola. *)
Definition polyfit2_exact (x y : list Q) : list Q :=
  let s k := sum_Q (List.map (fun v => Qpower v k) x) in
  let t k := sum_Q (zip_with (fun v u => Qpower v k * u) x y) in
  let d := det3 (s 4%Z) (s 3%Z) (s 2%Z) (s 3%Z) (s 2%Z) (s 1%Z) (s 2%Z) (s 1%Z) (s 0%Z) in
  [ det3 (t 2%Z) (s 3%Z) (s 2%Z) (t 1%Z) (s 2%Z) (s 1%Z) (t 0%Z) (s 1%Z) (s 0%Z) / d;
    det3 (s 4%Z) (t 2%Z) (s 2%Z) (s 3%Z) (t 1%Z) (s 1%Z) (s 2%Z) (t 0%Z) (s 0%Z) / d;
    det3 (s 4%Z) (s 3%Z) (t 2%Z) (s 3%Z) (s 2%Z) (t 1%Z) (s 2%Z) (s 1%Z) (t 0%Z) / d ].

(** [10 ** v] for an integral [v], and [log10] of an exact power of ten. *)
Definition pow10_integral (v : Q) : Q := Qpower 10 (Qfloor v).

Fixpoint log10_digits (fuel : nat) (z : Z) : Z :=
  match fuel with
  | O => 0
  | S fuel' => if (z <? 10)%Z then 0 else (1 + log10_digits fuel' (z / 10))%Z
  end.

Definition log10_power_of_ten (q : Q) : Q :=
  inject_Z (log10_digits (Z.to_nat (Qfloor q)) (Qfloor q)).

Section Norm.

(** NumPy's [polyfit(x, y, deg)], [log10] and [10 ** v]. *)
Variable polyfit : list Q -> list Q -> nat -> list Q.
Variable log10 : Q -> Q.
Variable pow10 : Q -> Q.

(** Lines 857-859: the relation between Pan-STARRS magnitude and measured
    flux, fitted once on the whole catalog. *)
Definition fit_relation (cat : list star) : list Q :=
  let sample := List.filter fit_flag cat in
  let x := List.map (fun s => match MeanPSFMag s with Some m => m | None => 0 end) sample in
  let y := List.map (fun s => - (25 # 10) * log10 (flux s)) sample in
  polyfit x y 2%nat.

(** Lines 886-892: the factor the PSF copy of one star is multiplied by. *)
Definition norm (pfit : list Q) (obj : star) : Q :=
  if Qlt_bool (mag obj) (155 # 10) then
    if truthy (MeanPSFMag obj) then
      match MeanPSFMag obj with
      | Some m => pow10 ((- poly1d pfit m) / (25 # 10))
      | None => flux obj
      end
    else flux obj
  else flux obj.

(** The factors of all stars of the catalog, in loop order. *)
Definition halo_norms (cat : list star) : list Q :=
  let pfit := fit_relation cat in
  List.map (norm pfit) cat.

End Norm.

(** Three well-measured stars that fix a flat relation, and a fourth,
    bright one whose Pan-STARRS magnitude is exactly zero. *)
Definition zero_mag_catalog : list star :=
  [ MkStar 14 10000 (Some 10); MkStar 14 10000 (Some 12);
    MkStar 14 10000 (Some 14); MkStar 15 500 (Some 0) ].

End Halo.

(* ===================================================================== *)
(** ** Stitching ([MrfTileMode.run], lines 1476-1500, and
       [MrfTileMode._stitch], lines 1505-1616) *)
(* ===================================================================== *)

Module Stitch.

Import Py FVal TileRun.

(** A mosaic, flattened. *)
Definition image : Type := list fval.

(** The lists of line 1483 and line 1488: the tile numbers are those of
    [range(16)]. *)
Definition filename_list (mask : bool) : list file :=
  List.map (fun i => if mask then FinalTileMask i else FinalTile i) (range 16).

(** The combination rule and the switch that goes with it: SWarp's
    [COMBINE_TYPE] and [RESAMPLE], or reproject's [combine_function] and
    [match_background]. *)
Definition swarp_options (imgtype : string) : string * string :=
  if String.eqb imgtype "mask" then ("SUM", "N")%string else ("MEDIAN", "Y")%string.

Definition reproject_options (imgtype : string) : string * string :=
  if String.eqb imgtype "mask" then ("sum", "False")%string
  else ("mean", "True")%string.

(** [(hdu.data > 0).astype(float)] *)
Definition positive_flag (x : fval) : fval :=
  Fin (if flt (Fin 0) x then 1 else 0).

(** [.astype(bool)]: anything but zero is true. *)
Definition astype_bool (x : fval) : bool := nonzero x.

(** [img * (~msk)] *)
Definition blank (img : image) (msk : list bool) : image :=
  zip_with (fun x m => bmul (negb m) x) img msk.

Section Stitching.

(** The two co-addition tools, as they are called: SWarp run on a list of
    files with a [COMBINE_TYPE] and a [RESAMPLE] switch, and
    [reproject_and_coadd] with a [combine_function] and
    [match_background]. Each gives the mosaic it writes. *)
Variable swarp : string -> string -> list file -> image.
Variable reproject_and_coadd : list file -> string -> string -> image.

(** [_stitch]: the mosaic saved under [filename], [None] when the method
    is neither of the two and nothing is written. *)
Definition _stitch (method imgtype : string) (filename_list : list file)
  : option image :=
  if String.eqb (lower method) "swarp" then
    let '(combine_type, resample) := swarp_options imgtype in
    let data := swarp combine_type resample filename_list in
    if String.eqb imgtype "mask" then Some (List.map positive_flag data)
    else Some data
  else if String.eqb method "reproject" then
    let '(combine_type, match_background) := reproject_options imgtype in
    Some (reproject_and_coadd filename_list combine_type match_background)
  else None.

(** Lines 1476-1500: the two mosaics and their combination. *)
Definition stitch_and_combine (stitch_method : string) : exn + image :=
  if negb (String.eqb stitch_method "swarp" || String.eqb stitch_method "reproject")
  then inl (ValueError "'stitch_method' must be 'swarp' or 'reproject'! ")
  else
    match _stitch stitch_method "image" (filename_list false),
          _stitch stitch_method "mask" (filename_list true) with
    | Some img, Some msk => inr (blank img (List.map astype_bool msk))
    | _, _ => inl FileNotFoundError
    end.

End Stitching.

(** A plain mean of pixel values, to compare with the median. *)
Definition mean (l : list fval) : fval :=
  fdiv (fold_right fadd (Fin 0) l) (Fin (inject_Z (Z.of_nat (length l)))).

(** Three one-pixel tiles over the same sky pixel, with values 1, 2 and 9,
    and the two tools on them: each combines the stack by the rule it is
    asked for. *)
Definition sample_stack : list fval := [Fin 1; Fin 2; Fin 9].

Definition sample_swarp (combine_type resample : string) (files : list file)
  : image :=
  if String.eqb combine_type "MEDIAN" then [nanmedian sample_stack]
  else if String.eqb combine_type "AVERAGE" then [mean sample_stack]
  else if String.eqb combine_type "SUM" then [fold_right fadd (Fin 0) sample_stack]
  else [].

Definition sample_reproject (files : list file)
    (combine_function match_background : string) : image :=
  if String.eqb combine_function "median" then [nanmedian sample_stack]
  else if String.eqb combine_function "mean" then [mean sample_stack]
  else if String.eqb combine_function "sum" then [fold_right fadd (Fin 0) sample_stack]
  else [].

(** A frame of [5 x 4] tiles under the defaults of [run]. *)
Definition twenty_tile_config : config :=
  MkConfig 40000 32000 40000 32000 8000 0 false false false false "swarp".

End Stitch.

(* ===================================================================== *)
(** ** Residual ([MrfTask.run], lines 438-469) *)
(* ===================================================================== *)

Module Residual.

Import Py.

Local Open Scope Q_scope.

(** A frame whose pixels are numbers or NaN ([None]), and a kernel. *)
Abbreviation frame := (list (list (option Q))).
Abbreviation kernel := (list (list Q)).
Abbreviation model := (list (list Q)).

Definition sum_Q (l : list Q) : Q := fold_right Qplus 0 l.

(** [kernel.sum()] *)
Definition kernel_sum (K : kernel) : Q := sum_Q (List.map sum_Q K).

Definition scale_kernel (c : Q) (K : kernel) : kernel :=
  List.map (List.map (fun k => c * k)) K.

Definition normalize (K : kernel) : kernel :=
  List.map (List.map (fun k => / kernel_sum K * k)) K.

(** The pixel [(i, j)] of [array] as the convolution reads it under
    [boundary='fill'] and [nan_treatment='fill']: [fill_value] outside the
    frame and in place of a NaN. *)
Definition filled (fill_value : Q) (array : frame) (i j : Z) : Q :=
  if (i <? 0)%Z || (j <? 0)%Z then fill_value
  else match array !! Z.to_nat i with
       | Some row => match row !! Z.to_nat j with
                     | Some (Some v) => v
                     | Some None => fill_value
                     | None => fill_value
                     end
       | None => fill_value
       end.

(** The sum of [K[a][b] * f a b] over the kernel, row [a] starting at
    column [b]. *)
Fixpoint row_sum (f : Z -> Q) (b : Z) (row : list Q) : Q :=
  match row with
  | [] => 0
  | k :: row' => k * f b + row_sum f (b + 1)%Z row'
  end.

Fixpoint weighted_sum (f : Z -> Z -> Q) (a : Z) (K : kernel) : Q :=
  match K with
  | [] => 0
  | row :: K' => row_sum (f a) 0%Z row + weighted_sum f (a + 1)%Z K'
  end.

(** One pixel of the convolution of [array] with [K], the kernel centred
    on the pixel. *)
Definition conv_pixel (fill_value : Q) (array : frame) (K : kernel) (i j : Z) : Q :=
  let cy := (Z.of_nat (length K) / 2)%Z in
  let cx := (Z.of_nat (length (hd [] K)) / 2)%Z in
  weighted_sum (fun a b => filled fill_value array (i + cy - a) (j + cx - b)) 0%Z K.

(** The convolved frame, of the shape of [array]. *)
Definition conv_image (fill_value : Q) (array : frame) (K : kernel) : model :=
  imap (fun i row =>
          imap (fun j _ => conv_pixel fill_value array K (Z.of_nat i) (Z.of_nat j)) row)
       array.

(** The size of a frame or kernel in bytes, 8 per pixel. *)
Definition nbytes {A : Type} (a : list (list A)) : Z :=
  (8 * Z.of_nat (length a) * Z.of_nat (length (hd [] a)))%Z.

(** Modelled from the spec: [astropy.convolution.convolve_fft] is a library
    function, not code of [task.py]; this is the convolution the
    specification describes for the options the call passes
    ([boundary='fill'], [nan_treatment='fill']): a sum over the kernel with
    the frame read through [filled], the kernel divided by its sum first
    only when [normalize_kernel] is set, and arrays above 1 GB refused
    unless [allow_huge] is set. The FFT and its rounding are not modelled:
    the sum is exact. *)
Definition convolve_fft (array : frame) (K : kernel) (fill_value : Q)
    (normalize_kernel allow_huge : bool) : exn + model :=
  if negb allow_huge && ((10 ^ 9 <? nbytes array)%Z || (10 ^ 9 <? nbytes K)%Z)
  then inl (ValueError "Size Error: Arrays will be huge")
  else if normalize_kernel then
    if Qeq_bool (kernel_sum K) 0
    then inl (ValueError "The kernel can't be normalized, because its sum is close to zero")
    else inr (conv_image fill_value array (normalize K))
  else inr (conv_image fill_value array K).

(** [lowres.image - lowres_model.image]; NaN stays NaN. *)
Definition subtract (image : frame) (m : model) : frame :=
  zip_with (zip_with (fun x y => match x with Some v => Some (v - y) | None => None end))
           image m.

Section ResidualStage.

(** [mrf.utils.remove_lowsb]: the flux model with the low surface
    brightness objects stripped. *)
Variable remove_lowsb : frame -> model -> kernel -> frame.

(** Lines 441-468: the model at low resolution and the residual, both still
    on the magnified grid. *)
Definition residual_stage (unmask_lowsb : bool)
    (hires_fluxmod : frame) (kernel_med : kernel) (lowres_image : frame)
  : exn + (model * frame) :=
  match convolve_fft hires_fluxmod kernel_med 0 false true with
  | inl e => inl e
  | inr conv_model =>
      let second :=
        if unmask_lowsb then
          convolve_fft (remove_lowsb hires_fluxmod conv_model kernel_med)
                       kernel_med 0 false true
        else inr conv_model in
      match second with
      | inl e => inl e
      | inr conv_model => inr (conv_model, subtract lowres_image conv_model)
      end
  end.

End ResidualStage.

End Residual.

(* ===================================================================== *)
(** ** Hybrid PSF ([MrfTask._subtract_widePSF], lines 762-797) *)
(* ===================================================================== *)

Module Hybrid.

Local Open Scope Q_scope.

(** A 2-D array read by row and column; its shape is carried alongside.
    [None] is NaN. *)
Abbreviation array := (nat -> nat -> Q).
Abbreviation nan_array := (nat -> nat -> option Q).

Definition sum_Q (l : list Q) : Q := fold_right Qplus 0 l.

(** [np.sum] of an array of shape [(rows, cols)]. *)
Definition np_sum (rows cols : nat) (a : array) : Q :=
  sum_Q (List.map (fun i => sum_Q (List.map (a i) (seq 0 cols))) (seq 0 rows)).

Section HybridPSF.

(** [mrf.utils.compute_Rnorm(image, None, cen, R=hybrid_r, ...)[1]]: the
    flux in the annulus at radius [R], for an image of the given shape. *)
Variable compute_Rnorm : nat -> nat -> array -> nat * nat -> Q -> Q.
(** [CircularAperture(cen, r).to_mask().to_image(shape)] is non-zero at a
    pixel. *)
Variable aperture : nat * nat -> Q -> nat -> nat -> nat -> nat -> bool.

Variable psf_size : nat.        (* 501 in the source *)
Variable hybrid_r : Q.
Variable inner_size : nat.      (* median_psf.shape, a square *)
Variable median_psf : array.
(** [psf_e.drawImage(nx=psf_size, ny=psf_size, ...).array] *)
Variable outer_drawn : array.

(** Lines 763-766. *)
Definition inner_psf : array :=
  fun i j => median_psf i j / np_sum inner_size inner_size median_psf.

Definition inner_cen : nat := (inner_size / 2)%nat.

(** Line 768. *)
Definition flux_inn : Q :=
  compute_Rnorm inner_size inner_size inner_psf (inner_cen, inner_cen) hybrid_r.

(** Lines 770-772: [mask = aper.to_image(inner_size) == 0],
    [inner_psf[mask] = np.nan]. *)
Definition mask (i j : nat) : bool :=
  negb (aperture (inner_cen, inner_cen) hybrid_r inner_size inner_size i j).

Definition inner_masked : nan_array :=
  fun i j => if mask i j then None else Some (inner_psf i j).

(** Lines 775-778: the empty canvas with the masked core in its middle. *)
Definition outer_cen : nat := (psf_size / 2)%nat.

Definition offset : nat := (outer_cen - inner_cen)%nat.

Definition in_slice (i : nat) : bool :=
  (offset <=? i)%nat && (i <? outer_cen + inner_cen + 1)%nat.

Definition in_box (i j : nat) : bool := in_slice i && in_slice j.

Definition embedded : nan_array :=
  fun i j => if in_box i j then inner_masked (i - offset) (j - offset) else Some 0.

(** Lines 781-785. *)
Definition outer_psf : array :=
  fun i j => outer_drawn i j / np_sum psf_size psf_size outer_drawn.

Definition flux_out : Q :=
  compute_Rnorm psf_size psf_size outer_psf (outer_cen, outer_cen) hybrid_r.

(** Line 788. *)
Definition scale_factor : Q := flux_out / flux_inn.

(** Line 790: the NaNs of the canvas take the aureole over the scale
    factor. *)
Definition nan_filled : array :=
  fun i j => match embedded i j with
             | None => outer_psf i j / scale_factor
             | Some v => v
             end.

(** Lines 789, 791-793: the aureole with the box zeroed, added over the
    scale factor. *)
Definition temp : array :=
  fun i j => if in_box i j then 0 else outer_psf i j.

Definition composite : array :=
  fun i j => nan_filled i j + temp i j / scale_factor.

(** Line 794. *)
Definition normalized : array :=
  fun i j => composite i j / np_sum psf_size psf_size composite.

(** Lines 795-797: the sum over the box and the final rescaling. *)
Definition box_side : nat := (outer_cen + inner_cen + 1 - offset)%nat.

Definition box_sum (a : array) : Q :=
  np_sum box_side box_side (fun i j => a (i + offset)%nat (j + offset)%nat).

Definition factor : Q :=
  np_sum inner_size inner_size median_psf / box_sum normalized.

Definition new_psf : array := fun i j => normalized i j * factor.

(** The pixels of the canvas that hold the empirical core: in the box and
    inside the aperture. *)
Definition is_core (i j : nat) : bool :=
  in_box i j && negb (mask (i - offset) (j - offset)).

(** The product of the three rescalings the core pixels go through: the
    normalization of the stack (line 764), that of the composite (line
    794) and the final factor (line 797). *)
Definition renormalization : Q :=
  factor / (np_sum psf_size psf_size composite
            * np_sum inner_size inner_size median_psf).

(** The flux within the hybrid radius, of the stacked PSF and of the
    hybrid PSF. *)
Definition core_flux_empirical : Q :=
  np_sum inner_size inner_size (fun i j => if mask i j then 0 else median_psf i j).

Definition core_flux_hybrid : Q :=
  np_sum inner_size inner_size
    (fun i j => if mask i j then 0 else new_psf (i + offset)%nat (j + offset)%nat).

End HybridPSF.

(** A small instance: a 3 x 3 stack in a 5 x 5 canvas, an aperture that
    keeps the central pixel and its four neighbours, and the annulus flux
    read one pixel right of the centre. *)
Definition small_aperture (cen : nat * nat) (r : Q) (rows cols i j : nat) : bool :=
  ((i =? fst cen)%nat && (j =? snd cen)%nat)
  || ((i =? fst cen)%nat && ((j + 1 =? snd cen)%nat || (j =? snd cen + 1)%nat))
  || ((j =? snd cen)%nat && ((i + 1 =? fst cen)%nat || (i =? fst cen + 1)%nat)).

Definition small_Rnorm (rows cols : nat) (a : array) (cen : nat * nat) (R : Q) : Q :=
  a (fst cen) (snd cen + 1)%nat.

Definition small_stack : array :=
  fun i j => if (i =? 1)%nat && (j =? 1)%nat then 8 else 1.

Definition small_aureole : array :=
  fun i j => if (i =? 2)%nat && (j =? 2)%nat then 4 else 2.

End Hybrid.

(* ===================================================================== *)
(** ** Configuration defaults ([Config.complete_config], lines 30-127) *)
(* ===================================================================== *)

Module Cfg.

Import Py.

(** The values a YAML configuration holds. *)
#[warnings="-register-all"]
Inductive value : Type :=
  | VInt (z : Z)
  | VFloat (q : Q)
  | VBool (b : bool)
  | VStr (s : string)
  | VList (l : list value).

(** An attribute of the top-level [Config]: a nested [Config] with its
    [__dict__], or anything else. *)
Inductive attr : Type :=
  | Sub (d : gmap string value)
  | Scalar (v : value).

(** The [__dict__] of the top-level [Config]. *)
Abbreviation config := (gmap string attr).

Definition default_sex : list (string * value) :=
  [ ("b", VInt 64); ("f", VInt 3); ("sigma", VFloat 3); ("minarea", VInt 2);
    ("deblend_cont", VFloat (5 # 1000)); ("deblend_nthresh", VInt 32);
    ("sky_subtract", VBool true); ("flux_aper", VList [VInt 3; VInt 6]);
    ("show_fig", VBool false) ]%string.

Definition default_fluxmodel : list (string * value) :=
  [ ("gaussian_radius", VFloat (15 # 10)); ("gaussian_threshold", VFloat (5 # 100));
    ("unmask_lowsb", VBool false); ("sb_lim", VFloat 26); ("unmask_ratio", VInt 3);
    ("interp", VStr "iraf"); ("minarea", VInt 25) ]%string.

Definition default_kernel : list (string * value) :=
  [ ("kernel_size", VInt 8); ("kernel_edge", VInt 1); ("nkernel", VInt 25);
    ("circularize", VBool false); ("show_fig", VBool true) ]%string.

Definition default_starhalo : list (string * value) :=
  [ ("fwhm_lim", VInt 200); ("padsize", VInt 50); ("edgesize", VInt 5);
    ("b", VInt 32); ("f", VInt 3); ("sigma", VFloat (35 # 10)); ("minarea", VInt 3);
    ("deblend_cont", VFloat (3 # 1000)); ("deblend_nthresh", VInt 32);
    ("sky_subtract", VBool true); ("flux_aper", VList [VInt 3; VInt 6]);
    ("mask_contam", VBool true); ("interp", VStr "iraf"); ("cval", VStr "nan") ]%string.

Definition default_wide_psf : list (string * value) :=
  [ ("frac", VFloat (3 # 10)); ("fwhm", VFloat (228 # 100)); ("beta", VInt 3);
    ("n_s", VList [VFloat (344 # 100); VFloat (289 # 100); VFloat (207 # 100); VInt 4]);
    ("theta_s", VList [VInt 5; VFloat (646 # 10); VFloat (1175 # 10); VInt 1200]) ]%string.

Definition default_clean : list (string * value) :=
  [ ("clean_img", VBool true); ("clean_file", VBool false);
    ("replace_with_noise", VBool false); ("gaussian_radius", VFloat (15 # 10));
    ("gaussian_threshold", VFloat (3 # 1000)); ("bright_lim", VFloat (165 # 10));
    ("r", VFloat 8) ]%string.

(** [default[name]] *)
Fixpoint assoc (default : list (string * value)) (name : string) : option value :=
  match default with
  | [] => None
  | (k, v) :: rest => if String.eqb k name then Some v else assoc rest name
  end.

(** [for name in default.keys(): if not name in d.keys(): setattr(..)] *)
Definition fill (default : list (string * value)) (d : gmap string value)
  : gmap string value :=
  fold_left (fun d '(name, v) =>
               match d !! name with
               | None => <[name := v]> d
               | Some _ => d
               end) default d.

(** [self.<name>.__dict__]: the attribute must exist and be a [Config]. *)
Definition section (c : config) (name : string) : exn + gmap string value :=
  match c !! name with
  | Some (Sub d) => inr d
  | _ => inl AttributeError
  end.

(** One block of [complete_config]. *)
Definition complete_section (name : string) (default : list (string * value))
    (c : config) : exn + config :=
  match section c name with
  | inl e => inl e
  | inr d => inr (<[name := Sub (fill default d)]> c)
  end.

Definition bind (r : exn + config) (k : config -> exn + config) : exn + config :=
  match r with
  | inl e => inl e
  | inr c => k c
  end.

Definition complete_config (c : config) : exn + config :=
  bind (complete_section "sex" default_sex c) (fun c =>
  bind (complete_section "fluxmodel" default_fluxmodel c) (fun c =>
  bind (complete_section "kernel" default_kernel c) (fun c =>
  bind (complete_section "starhalo" default_starhalo c) (fun c =>
  (* if 'wide_psf' not in self.__dict__: self.wide_psf = Config({}) *)
  let c := match c !! "wide_psf" with
           | None => <["wide_psf" := Sub ∅]> c
           | Some _ => c
           end in
  bind (complete_section "wide_psf" default_wide_psf c) (fun c =>
  complete_section "clean" default_clean c))))).

(** The sections and their defaults, in the order of the source. *)
Definition section_defaults : list (string * list (string * value)) :=
  [ ("sex", default_sex); ("fluxmodel", default_fluxmodel);
    ("kernel", default_kernel); ("starhalo", default_starhalo);
    ("wide_psf", default_wide_psf); ("clean", default_clean) ]%string.

(** What the user wrote in a section; a missing [wide_psf] counts as
    empty. *)
Definition user_section (c : config) (name : string) : gmap string value :=
  match c !! name with
  | Some (Sub d) => d
  | _ => ∅
  end.

(** The five sections that must be there, and a [wide_psf] that is a
    section when it is there. *)
Definition has_sections (c : config) : Prop :=
  (forall name, In name ["sex"; "fluxmodel"; "kernel"; "starhalo"; "clean"]%string ->
                exists d, c !! name = Some (Sub d)) /\
  (c !! "wide_psf" = None \/ exists w, c !! "wide_psf" = Some (Sub w)).

(** A configuration with the five sections [complete_config] insists on,
    a kernel section that sets two keys, and no [wide_psf]. *)
Definition sample_config : config :=
  <["sex" := Sub ∅]>
  (<["fluxmodel" := Sub ∅]>
  (<["kernel" := Sub (<["kernel_size" := VInt 12]> (<["frac_maxflux" := VFloat (1 # 10)]> ∅))]>
  (<["starhalo" := Sub ∅]>
  (<["clean" := Sub ∅]>
  (<["lowres" := Sub (<["dataset" := VStr "df"]> ∅)]> ∅))))).

End Cfg.

(* ===================================================================== *)
(** ** The loops of the tile-mode driver: bookkeeping *)
(* ===================================================================== *)

Module TileLoop.

Import Py Tile TileRun.

(** The bookkeeping of the cutting loop. *)
Definition cut_inv (s : state) : Prop :=
  0 <= j s /\ 0 <= skipped s /\
  length (tiles_xcen s) = Z.to_nat (j s) /\ length (tiles_ycen s) = Z.to_nat (j s) /\
  length (tiles_xlen s) = Z.to_nat (j s) /\ length (tiles_ylen s) = Z.to_nat (j s) /\
  forall k, 0 <= k < j s ->
    exists_file (LowresTile k) (files s) = true /\
    exists_file (HiresTile G k) (files s) = true /\
    exists_file (HiresTile R k) (files s) = true.

(** The failures of [MrfTask.run] that the MRF loop catches. *)
Definition caught (o : option exn) : bool :=
  match o with
  | Some GalSimValueError | Some AttributeError | Some HTTPError => true
  | _ => false
  end.

(** An MRF task that fails on tile 2 with the exception of an empty flux
    model, on a low-resolution image that covers the frame. *)
Definition one_bad_tile_world : world :=
  MkWorld (1 # 3600) (fun _ _ _ _ => false) (fun _ _ _ _ _ => false)
          (fun i => if i =? 2 then Some GalSimValueError else None)
          (fun _ => NothingWritten)
          (fun _ _ _ _ _ => false) [].

(** The same frame with an MRF task that fails on tile 2 late: with
    [AttributeError] once its halo-subtracted image and its mask are
    saved. *)
Definition late_failure_world : world :=
  MkWorld (1 # 3600) (fun _ _ _ _ => false) (fun _ _ _ _ _ => false)
          (fun i => if i =? 2 then Some AttributeError else None)
          (fun _ => MaskWritten)
          (fun _ _ _ _ _ => false) [].

(** A g frame that covers the tiles and an r frame that misses the far
    corner: the r cutout centred beyond pixel (12000, 12000) has no overlap
    with it. *)
Definition r_band_short_world : world :=
  MkWorld (1 # 3600) (fun _ _ _ _ => false)
          (fun b xc yc _ _ =>
             match b with
             | G => false
             | R => Qle_bool 12000 xc && Qle_bool 12000 yc
             end)
          (fun _ => None) (fun _ => NothingWritten)
          (fun _ _ _ _ _ => false) [].

End TileLoop.

(* ===================================================================== *)
(** ** Selection of the stars to stack ([MrfTask.run], lines 534-551) *)
(* ===================================================================== *)

Module StarSelect.

Import Py FVal.

Local Open Scope Q_scope.

(** A row of [bright_star_cat], with the columns the selection reads. *)
Record obj : Type := MkObj {
  x : Q;
  y : Q;
  flux : Q;
  mag : Q;
  fwhm_custom : Q
}.

(** [config.starhalo.fwhm_lim], [bright_lim], [padsize] and [n_stack]. *)
Record starhalo : Type := MkStarhaloSel {
  fwhm_lim : Q;
  bright_lim : Q;
  padsize : Q;
  n_stack : Q
}.

(** The four cuts, in the order of the source. *)
Definition fwhm_cut (cfg : starhalo) (o : obj) : bool :=
  Qlt_bool (fwhm_custom o) (fwhm_lim cfg).

Definition bright_cut (cfg : starhalo) (o : obj) : bool :=
  Qlt_bool (mag o) (bright_lim cfg).

(** [psf_cat['mag'] > 12.0]: heavily saturated stars are discarded. *)
Definition saturation_cut (o : obj) : bool := Qlt_bool 12 (mag o).

Definition non_edge (cfg : starhalo) (ny nx : Z) (o : obj) : bool :=
  Qlt_bool (padsize cfg) (x o) && Qlt_bool (x o) (inject_Z nx - padsize cfg)
  && Qlt_bool (padsize cfg) (y o) && Qlt_bool (y o) (inject_Z ny - padsize cfg).

(** [l[:n]] *)
Definition slice_to {A : Type} (n : Z) (l : list A) : list A :=
  if (n <? 0)%Z then take (length l - Z.to_nat (- n)) l else take (Z.to_nat n) l.

Definition flux_le (a b : obj) : Prop := flux a <= flux b.

Section Select.

(** [Table.sort('flux')]: the rows in ascending order of flux; the order of
    rows of equal flux is NumPy's business. *)
Variable table_sort : list obj -> list obj.

Definition select_psf_stars (cfg : starhalo) (ny nx : Z) (bright_star_cat : list obj)
  : list obj :=
  let psf_cat := List.filter (fwhm_cut cfg) bright_star_cat in
  let psf_cat := List.filter (bright_cut cfg) psf_cat in
  let psf_cat := List.filter saturation_cut psf_cat in
  let psf_cat := List.filter (non_edge cfg ny nx) psf_cat in
  let psf_cat := table_sort psf_cat in
  let psf_cat := reverse psf_cat in
  slice_to (int (n_stack cfg)) psf_cat.

End Select.

(** All four cuts at once. *)
Definition passes (cfg : starhalo) (ny nx : Z) (o : obj) : bool :=
  fwhm_cut cfg o && bright_cut cfg o && saturation_cut o && non_edge cfg ny nx o.

#[global] Instance flux_le_dec : RelDecision flux_le.
Proof.
  intros a b. unfold flux_le.
  destruct (Qlt_le_dec (flux b) (flux a)) as [H | H].
  - right. apply Qlt_not_le. exact H.
  - left. exact H.
Defined.

(** A sort that does the job: merge sort on the flux. *)
Definition merge_sort_flux (l : list obj) : list obj := merge_sort flux_le l.

Definition sample_catalog : list obj :=
  [ MkObj 100 100 50 15 3; MkObj 200 150 900 13 3; MkObj 10 150 700 13 3;
    MkObj 300 300 400 14 3; MkObj 120 80 9000 11 3; MkObj 150 220 600 14 3 ].

Definition sample_starhalo : starhalo := MkStarhaloSel 200 (165 # 10) 50 2.

End StarSelect.

(* ===================================================================== *)
(** ** Drawing the star halos ([_subtract_stackedPSF], lines 680-710;
       [_subtract_widePSF], lines 867-907) *)
(* ===================================================================== *)

Module HaloDraw.

Import Py.

Local Open Scope Q_scope.

(** A 2-D [ndarray]: its shape, and its content by row and column. *)
Record ndarray : Type := MkArray {
  rows : nat;
  cols : nat;
  px : Z -> Z -> Q
}.

Definition nrows (a : ndarray) : Z := Z.of_nat (rows a).
Definition ncols (a : ndarray) : Z := Z.of_nat (cols a).

(** [np.zeros((r, c))] *)
Definition zeros (r c : Z) : exn + ndarray :=
  if (r <? 0)%Z || (c <? 0)%Z
  then inl (ValueError "negative dimensions are not allowed")
  else inr (MkArray (Z.to_nat r) (Z.to_nat c) (fun _ _ => 0)).

Definition zeros_like (a : ndarray) : ndarray :=
  MkArray (rows a) (cols a) (fun _ _ => 0).

(** A bound of a slice against an axis of length [n], as Python's
    [slice.indices] gives it: a negative bound counts from the end, and
    both are clipped to the axis. *)
Definition clip (n i : Z) : Z :=
  if (i <? 0)%Z then Z.max 0 (i + n) else Z.min i n.

(** NumPy's broadcasting of an operand axis onto a target axis. *)
Definition broadcastable (b t : Z) : bool := (b =? t)%Z || (b =? 1)%Z.

Definition pick (d i : Z) : Z := if (d =? 1)%Z then 0%Z else i.

(** [a[y0:y1, x0:x1]] *)
Definition get_slice (a : ndarray) (y0 y1 x0 x1 : Z) : ndarray :=
  let ys := clip (nrows a) y0 in
  let xs := clip (ncols a) x0 in
  MkArray (Z.to_nat (clip (nrows a) y1 - ys)) (Z.to_nat (clip (ncols a) x1 - xs))
          (fun i j => px a (i + ys)%Z (j + xs)%Z).

(** [a[y0:y1, x0:x1] = b] *)
Definition set_slice (a : ndarray) (y0 y1 x0 x1 : Z) (b : ndarray) : exn + ndarray :=
  let ys := clip (nrows a) y0 in
  let xs := clip (ncols a) x0 in
  let h := Z.max 0 (clip (nrows a) y1 - ys) in
  let w := Z.max 0 (clip (ncols a) x1 - xs) in
  if broadcastable (nrows b) h && broadcastable (ncols b) w then
    inr (MkArray (rows a) (cols a) (fun i j =>
      if (ys <=? i)%Z && (i <? ys + h)%Z && (xs <=? j)%Z && (j <? xs + w)%Z
      then px b (pick (nrows b) (i - ys)) (pick (ncols b) (j - xs))
      else px a i j))
  else inl (ValueError "could not broadcast input array").

(** [a[y0:y1, x0:x1] += b] *)
Definition iadd_slice (a : ndarray) (y0 y1 x0 x1 : Z) (b : ndarray) : exn + ndarray :=
  let ys := clip (nrows a) y0 in
  let xs := clip (ncols a) x0 in
  let h := Z.max 0 (clip (nrows a) y1 - ys) in
  let w := Z.max 0 (clip (ncols a) x1 - xs) in
  if broadcastable (nrows b) h && broadcastable (ncols b) w then
    inr (MkArray (rows a) (cols a) (fun i j =>
      if (ys <=? i)%Z && (i <? ys + h)%Z && (xs <=? j)%Z && (j <? xs + w)%Z
      then px a i j + px b (pick (nrows b) (i - ys)) (pick (ncols b) (j - xs))
      else px a i j))
  else inl (ValueError "operands could not be broadcast together").

(** [a += b] *)
Definition iadd (a b : ndarray) : exn + ndarray :=
  if broadcastable (nrows b) (nrows a) && broadcastable (ncols b) (ncols a) then
    inr (MkArray (rows a) (cols a) (fun i j =>
      px a i j + px b (pick (nrows b) i) (pick (ncols b) j)))
  else inl (ValueError "operands could not be broadcast together").

(** The common length of two axes under broadcasting. *)
Definition broadcast_axis (a b : nat) : option nat :=
  if (a =? b)%nat then Some a
  else if (a =? 1)%nat then Some b
  else if (b =? 1)%nat then Some a
  else None.

(** [a - b] *)
Definition np_sub (a b : ndarray) : exn + ndarray :=
  match broadcast_axis (rows a) (rows b), broadcast_axis (cols a) (cols b) with
  | Some r, Some c =>
      inr (MkArray r c (fun i j =>
        px a (pick (nrows a) i) (pick (ncols a) j)
        - px b (pick (nrows b) i) (pick (ncols b) j)))
  | _, _ => inl (ValueError "operands could not be broadcast together")
  end.

(** [a * k] for a scalar [k]. *)
Definition scale (a : ndarray) (k : Q) : ndarray :=
  MkArray (rows a) (cols a) (fun i j => px a i j * k).

Definition bind {A B : Type} (r : exn + A) (k : A -> exn + B) : exn + B :=
  match r with
  | inl e => inl e
  | inr a => k a
  end.

Notation "'try' x <- r ; k" := (bind r (fun x => k))
  (at level 10, x name, r at level 100, k at level 200).

(** What both functions set on [results]. *)
Record halo_results : Type := MkHaloResults {
  lowres_model_star : ndarray;
  lowres_final_unmask : ndarray;
  lowres_model : ndarray
}.

Section Draw.

(** [Celestial(psf, header).shift_image(dx, dy, method=interp)], then
    [.image]: the class lives in [mrf.celestial]. *)
Variable shift_image : ndarray -> Q -> Q -> ndarray.

(** The row type of the catalog, with its columns [x] and [y], and the
    factor the loop multiplies the PSF of a row by. *)
Context {A : Type}.
Variable x_of y_of : A -> Q.
Variable norm_of : A -> Q.

(** The half-width the loop works with: [halosize], or
    [int(psf_size / 2)]. *)
Variable half : Z.
Variable psf : ndarray.

(** Lines 689-696 and 876-883: the PSF shifted by the fractional part of
    the position. *)
Definition shifted (obj : A) : ndarray :=
  let x := x_of obj in
  let y := y_of obj in
  let x_int := int x in
  let y_int := int y in
  let dx := -1 * (x - inject_Z x_int) in
  let dy := -1 * (y - inject_Z y_int) in
  shift_image psf (- dx) (- dy).

(** Lines 697-703 and 884-895: one pass of the loop. *)
Definition draw_star (im_halos_padded : ndarray) (obj : A) : exn + ndarray :=
  let spsf := shifted obj in
  let x_int := (int (x_of obj) + half)%Z in
  let y_int := (int (y_of obj) + half)%Z in
  iadd_slice im_halos_padded
    (y_int - half) (y_int + half + 1) (x_int - half) (x_int + half + 1)
    (scale spsf (norm_of obj)).

(** [for i, obj in enumerate(bright_star_cat): ...] *)
Fixpoint draw_stars (im_halos_padded : ndarray) (bright_star_cat : list A)
  : exn + ndarray :=
  match bright_star_cat with
  | [] => inr im_halos_padded
  | obj :: rest =>
      try im_halos_padded <- draw_star im_halos_padded obj;
      draw_stars im_halos_padded rest
  end.

(** What one star adds at pixel [(i, j)] of the padded canvas when its
    whole stamp of side [2 * half + 1] lies on the canvas. *)
Definition stamp (obj : A) (i j : Z) : Q :=
  let r := (i - int (y_of obj))%Z in
  let c := (j - int (x_of obj))%Z in
  if (0 <=? r)%Z && (r <? 2 * half + 1)%Z && (0 <=? c)%Z && (c <? 2 * half + 1)%Z
  then px (shifted obj) r c * norm_of obj
  else 0.

End Draw.

Definition sum_Q (l : list Q) : Q := fold_right Qplus 0 l.

(** A row of [bright_star_cat], with the columns [_subtract_stackedPSF]
    reads. *)
Record obj : Type := MkObj {
  x : Q;
  y : Q;
  flux : Q;
  flux_ann : Q
}.

Section Stacked.

Variable shift_image : ndarray -> Q -> Q -> ndarray.
(** [config.starhalo.norm] *)
Variable norm : string.
Variable halosize : Z.

(** Lines 698-703: the column the PSF is multiplied by. *)
Definition amplitude (o : obj) : Q :=
  if String.eqb norm "flux_ann" then flux_ann o else flux o.

(** [_subtract_stackedPSF], lines 682-710. *)
Definition _subtract_stackedPSF (res : ndarray) (bright_star_cat : list obj)
    (median_psf : ndarray) (lowres_model_image : ndarray) : exn + halo_results :=
  let ny := nrows res in
  let nx := ncols res in
  try im_padded <- zeros (ny + 2 * halosize) (nx + 2 * halosize);
  try im_padded <- set_slice im_padded halosize (ny + halosize)
                                       halosize (nx + halosize) res;
  let im_halos_padded := zeros_like im_padded in
  try im_halos_padded <-
    draw_stars shift_image x y amplitude halosize median_psf
               im_halos_padded bright_star_cat;
  let im_halos := get_slice im_halos_padded halosize (ny + halosize)
                                            halosize (nx + halosize) in
  try img_sub <- np_sub res im_halos;
  try lowres_model_image <- iadd lowres_model_image im_halos;
  inr (MkHaloResults im_halos img_sub lowres_model_image).

End Stacked.

(** A row of the catalog joined with Pan-STARRS, as [_subtract_widePSF]
    reads it in its loop. *)
Record wide_obj : Type := MkWideObj {
  wide_x : Q;
  wide_y : Q;
  wide_star : Halo.star
}.

Section Wide.

Variable shift_image : ndarray -> Q -> Q -> ndarray.
(** [10 ** v] *)
Variable pow10 : Q -> Q.
(** [config.lowres.magnify_factor] *)
Variable magnify_factor : Q.

Definition psf_size : Q := 501.

(** Lines 867-907 of [_subtract_widePSF]: the canvas, the loop and the
    subtraction, given the hybrid PSF and the fitted relation. *)
Definition draw_wide_halos (res : ndarray) (bright_star_cat : list wide_obj)
    (new_psf : ndarray) (pfit : list Q) (lowres_model_image : ndarray)
  : exn + halo_results :=
  let ny := nrows res in
  let nx := ncols res in
  let half := int (psf_size / 2) in
  try im_padded <- zeros (int (inject_Z ny + psf_size)) (int (inject_Z nx + psf_size));
  try im_padded <- set_slice im_padded half (ny + half) half (nx + half) res;
  let im_halos_padded := zeros_like im_padded in
  try im_halos_padded <-
    draw_stars shift_image wide_x wide_y
               (fun o => Halo.norm pow10 pfit (wide_star o)) half new_psf
               im_halos_padded bright_star_cat;
  let im_halos := get_slice im_halos_padded half (ny + half) half (nx + half) in
  if Qeq_bool magnify_factor 0 then inl (OtherError "ZeroDivisionError") else
  let model_star := shift_image im_halos (- (1 / magnify_factor)) (- (1 / magnify_factor)) in
  try img_sub <- np_sub res model_star;
  try lowres_model_image <- iadd lowres_model_image model_star;
  inr (MkHaloResults model_star img_sub lowres_model_image).

End Wide.

(** A 3 x 3 frame, a 3 x 3 PSF with a bright centre, and a shift that
    leaves the PSF as it is. *)
Definition sample_res : ndarray := MkArray 3 3 (fun i j => inject_Z (10 * i + j)).
Definition sample_psf : ndarray :=
  MkArray 3 3 (fun i j => if (i =? 1)%Z && (j =? 1)%Z then 1 # 2 else 1 # 16).
Definition sample_model : ndarray := MkArray 3 3 (fun _ _ => 1).
Definition no_shift (a : ndarray) (dx dy : Q) : ndarray := a.
Definition sample_stars : list obj :=
  [ MkObj (3 # 2) (1 # 2) 8 16; MkObj (5 # 2) (5 # 2) 4 2 ].
Definition off_frame_stars : list obj :=
  [ MkObj (3 # 2) (1 # 2) 8 16; MkObj (7 # 2) (1 # 2) 4 2 ].

Definition sample_wide_psf : ndarray :=
  MkArray 501 501 (fun i j => if (i =? 250)%Z && (j =? 250)%Z then 1 # 2 else 1 # 1000).
Definition sample_wide_stars : list wide_obj :=
  [ MkWideObj (3 # 2) (1 # 2) (Halo.MkStar 16 8 None);
    MkWideObj (5 # 2) (5 # 2) (Halo.MkStar 14 4 None) ].

End HaloDraw.

(* ===================================================================== *)
(** ** Background subtraction ([MrfTask.run], lines 244-250) *)
(* ===================================================================== *)

Module Background.

Import Py Cfg.

Local Open Scope Q_scope.

Definition bind {A B : Type} (r : exn + A) (k : A -> exn + B) : exn + B :=
  match r with
  | inl e => inl e
  | inr a => k a
  end.

Notation "'try' x <- r ; k" := (bind r (fun x => k))
  (at level 10, x name, r at level 100, k at level 200).

(** [header[key]] on a FITS header. *)
Definition header_get (header : gmap string value) (key : string) : exn + value :=
  match header !! key with
  | Some v => inr v
  | None => inl (OtherError "KeyError")
  end.

(** [getattr(obj, name, default)] on a nested [Config]: [default] is an
    argument, so the caller has evaluated it already. *)
Definition getattr (obj : gmap string value) (name : string) (default : value) : value :=
  match obj !! name with
  | Some v => v
  | None => default
  end.

Section Subtract.

(** [float(s)] on a string. *)
Variable float_of_string : string -> exn + Q.

(** [float(v)] *)
Definition float (v : value) : exn + Q :=
  match v with
  | VInt z => inr (inject_Z z)
  | VFloat q => inr q
  | VBool b => inr (if b then 1 else 0)
  | VStr s => float_of_string s
  | VList _ => inl (OtherError "TypeError")
  end.

(** Lines 244-250: the image after [lowres.image -= bkgval], or the image
    as it was. *)
Definition subtract_background (sub_bkgval wide_psf : bool)
    (config_wide_psf header : gmap string value) (image : list Q) : exn + list Q :=
  if sub_bkgval then
    try bkgval <-
      (if wide_psf then
         try backval <- header_get header "BACKVAL";
         float (getattr config_wide_psf "bkgval" backval)
       else
         try backval <- header_get header "BACKVAL";
         float backval);
    inr (List.map (fun p => p - bkgval) image)
  else inr image.

End Subtract.

Definition no_strings (s : string) : exn + Q := inl (ValueError "could not convert string to float").

End Background.

(* ===================================================================== *)
(** ** The query to MAST ([_subtract_widePSF], lines 821-830) *)
(* ===================================================================== *)

Module Mast.

Import Py.

(** The names bound at module level (lines 1-15 and the classes). *)
Definition module_globals : list string :=
  [ "os"; "sys"; "gc"; "copy"; "yaml"; "logging"; "np"; "plt"; "wcs"; "fits";
    "Table"; "Column"; "hstack"; "vstack"; "warnings";
    "Config"; "Results"; "MrfTask"; "MrfTileMode" ]%string.

(** The names [_subtract_widePSF] binds before its loop: its parameters and
    its own imports and assignments (lines 720-820). The import of
    [HTTPError] at line 1367 is local to [MrfTileMode.run]. *)
Definition widePSF_locals : list string :=
  [ "self"; "results"; "res"; "halosize"; "bright_star_cat"; "median_psf";
    "lowres_model"; "output_name"; "skip_mast"; "mast_catalog";
    "SkyCoord"; "match_coordinates_sky"; "u"; "Celestial"; "Star";
    "save_to_fits"; "bright_star_mask"; "display_single"; "convolve";
    "Box2DKernel"; "Gaussian2DKernel"; "config"; "logger"; "compute_Rnorm";
    "PSF_Model"; "CircularAperture"; "psf_size"; "pixel_scale"; "frac"; "beta";
    "fwhm"; "n_s"; "theta_s"; "params"; "psf"; "psf_e"; "hybrid_r"; "inner_psf";
    "inner_size"; "inner_cen"; "flux_inn"; "aper"; "mask"; "outer_cen";
    "new_psf"; "outer_psf"; "flux_out"; "scale_factor"; "temp"; "factor";
    "ps1cone"; "constraints"; "columns" ]%string.

(** [isinstance(e, urllib.error.HTTPError)] *)
Definition is_HTTPError (e : exn) : bool :=
  match e with
  | HTTPError => true
  | _ => false
  end.

(** [except name:] met by exception [e]: the name is looked up when the
    clause is reached; unbound, the lookup itself raises NameError. *)
Definition except_clause (bound : list string) (name : string) (cls : exn -> bool)
    (e : exn) : exn + bool :=
  if bool_decide (name ∈ bound) then inr (cls e)
  else inl (OtherError "NameError: name 'HTTPError' is not defined").

Section Query.

Variable result : Type.
(** The outcome of the k-th call of [ps1cone], counted from 0. *)
Variable ps1cone : nat -> exn + result.
Variable bound : list string.

(** [for attempt in range(n): try ... except HTTPError ... else: break],
    with the [else] of the loop; the count of calls made is threaded
    through. *)
Fixpoint attempts (n : nat) (calls : nat) : nat * (exn + result) :=
  match n with
  | O => (calls, inl (OtherError "SystemExit: 504 Server Error: Failed Attempts. Exit."))
  | S n' =>
      match ps1cone calls with
      | inr ps1result => (S calls, inr ps1result)
      | inl e =>
          match except_clause bound "HTTPError" is_HTTPError e with
          | inl name_error => (S calls, inl name_error)
          | inr true => attempts n' (S calls)
          | inr false => (S calls, inl e)
          end
      end
  end.

End Query.

(** Lines 821-830 as they stand in [_subtract_widePSF]. *)
Definition mast_query {result : Type} (ps1cone : nat -> exn + result)
  : nat * (exn + result) :=
  attempts result ps1cone (module_globals ++ widePSF_locals) 3 0.

(** A server that times out twice and then answers. *)
Definition flaky_server (k : nat) : exn + string :=
  if (k <? 2)%nat then inl HTTPError else inr "objID,raMean"%string.

End Mast.

(* ===================================================================== *)
(** ** Cleaning and depth ([MrfTask.run], lines 609-647) *)
(* ===================================================================== *)

Module Clean.

Import Py.

(** [config.clean], as far as the control flow reads it. *)
Record clean_cfg : Type := MkClean {
  clean_img : bool;
  replace_with_noise : bool;
  clean_file : bool
}.

(** What the stage leaves behind, in order. *)
Inductive event : Type :=
  | Saved (suffix : string)
  | RemovedTemporaryFiles
  | MeasuredContrast.

Section CleanStage.

Variable img mask : Type.
(** Lines 614-617: the model convolved with a Gaussian and thresholded. *)
Variable model_mask_of : img -> mask.
(** [bright_star_mask(model_mask.astype(bool), bright_star_cat, ...)],
    then lines 622-623: box smoothing and thresholding. *)
Variable bright_star_mask : mask -> mask.
Variable box_smooth : mask -> mask.
(** [img_replace_with_noise(img_sub.byteswap().newbyteorder(), totmask)]
    and [img_sub * (~totmask.astype(bool))]. *)
Variable img_replace_with_noise : img -> mask -> img.
Variable void : img -> mask -> img.

(** The local variables [final_image] and [totmask]: unbound until
    assigned. *)
Record locals : Type := MkLocals {
  final_image : option img;
  totmask : option mask
}.

(** Reading a local variable. *)
Definition read {A : Type} (v : option A) : exn + A :=
  match v with
  | Some a => inr a
  | None => inl (OtherError "UnboundLocalError")
  end.

(** Step 12, lines 612-637. *)
Definition clean_step (cfg : clean_cfg) (img_sub lowres_model : img)
  : locals * list event :=
  if clean_img cfg then
    let model_mask := model_mask_of lowres_model in
    let totmask := bright_star_mask model_mask in
    let totmask := box_smooth totmask in
    let final_image :=
      if replace_with_noise cfg then img_replace_with_noise img_sub totmask
      else void img_sub totmask in
    (MkLocals (Some final_image) (Some totmask), [Saved "_final.fits"; Saved "_mask.fits"])
  else (MkLocals None None, []).

(** Lines 639-641. *)
Definition remove_step (cfg : clean_cfg) : list event :=
  if clean_file cfg then [RemovedTemporaryFiles] else [].

(** Step 13, lines 644-647: the arguments are read from left to right,
    then the function is called. *)
Definition contrast_step (l : locals) : list event * (exn + (img * mask)) :=
  match read (final_image l) with
  | inl e => ([], inl e)
  | inr f =>
      match read (totmask l) with
      | inl e => ([], inl e)
      | inr m => ([MeasuredContrast], inr (f, m))
      end
  end.

(** Lines 612-647 in sequence. *)
Definition clean_and_measure (cfg : clean_cfg) (img_sub lowres_model : img)
  : list event * (exn + (img * mask)) :=
  let '(l, ev1) := clean_step cfg img_sub lowres_model in
  let ev2 := remove_step cfg in
  let '(ev3, r) := contrast_step l in
  (ev1 ++ ev2 ++ ev3, r).

End CleanStage.

End Clean.

(* ===================================================================== *)
(** ** Joining the stars with Pan-STARRS ([_subtract_widePSF],
       lines 841-848) *)
(* ===================================================================== *)

Module Ps1Join.

Import Py FVal.

Local Open Scope Q_scope.

(** [l[flag]] for a boolean array [flag]. *)
Fixpoint select {A : Type} (flag : list bool) (l : list A) : list A :=
  match flag, l with
  | f :: flag', a :: l' => if f then a :: select flag' l' else select flag' l'
  | _, _ => []
  end.

(** [table[idx]] for an array of row numbers. *)
Fixpoint take_rows {B : Type} (table : list B) (idx : list nat) : exn + list B :=
  match idx with
  | [] => inr []
  | i :: idx' =>
      match table !! i with
      | None => inl IndexError
      | Some b =>
          match take_rows table idx' with
          | inl e => inl e
          | inr bs => inr (b :: bs)
          end
      end
  end.

(** [hstack([left, right], join_type='outer')]: rows side by side, the
    shorter table padded with masked entries. *)
Fixpoint hstack_outer {A B : Type} (left : list A) (right : list B)
  : list (option A * option B) :=
  match left with
  | [] => List.map (fun b => (None, Some b)) right
  | a :: left' =>
      match right with
      | [] => (Some a, None) :: hstack_outer left' []
      | b :: right' => (Some a, Some b) :: hstack_outer left' right'
      end
  end.

Section Join.

Variable starrow ps1row : Type.
(** [match_coordinates_sky(stars, ps1)] at one star: the number of the
    nearest Pan-STARRS row and the separation in arcsec. *)
Variable nearest : starrow -> nat * Q.

(** Lines 841-846. *)
Definition join (bright_star_cat : list starrow) (ps1_cat : list ps1row)
  : exn + list (option starrow * option ps1row) :=
  let temp := List.map (fun s => fst (nearest s)) bright_star_cat in
  let dist := List.map (fun s => snd (nearest s)) bright_star_cat in
  let flag := List.map (fun d => Qlt_bool d 5) dist in
  let temp := select flag temp in
  let reorder_cat :=
    select flag bright_star_cat ++ select (List.map negb flag) bright_star_cat in
  match take_rows ps1_cat temp with
  | inl e => inl e
  | inr matched => inr (hstack_outer reorder_cat matched)
  end.

(** A star with a Pan-STARRS row within 5 arcsec. *)
Definition near (s : starrow) : bool := Qlt_bool (snd (nearest s)) 5.

End Join.

(** Four stars by name, the second and fourth far from any Pan-STARRS
    row. *)
Definition sample_nearest (s : string) : nat * Q :=
  if String.eqb s "a" then (2%nat, 1)
  else if String.eqb s "b" then (0%nat, 9)
  else if String.eqb s "c" then (0%nat, 3 # 2)
  else (1%nat, 30).

Definition sample_bright_stars : list string := [ "a"; "b"; "c"; "d" ]%string.
Definition sample_ps1 : list Z := [ 100; 101; 102 ]%Z.

End Ps1Join.

(* ===================================================================== *)
(** * Properties *)
(* ===================================================================== *)

Module PyFacts.

Import Py.

Lemma range_length n : 0 <= n -> Z.of_nat (length (range n)) = n.
Proof.
  intros Hn. unfold range. rewrite length_map, length_seq. lia.
Qed.

Lemma in_range n i : In i (range n) <-> 0 <= i < n.
Proof.
  unfold range. rewrite in_map_iff. split.
  - intros (k & <- & Hk). apply in_seq in Hk. lia.
  - intros Hi. exists (Z.to_nat i). split; [lia|]. apply in_seq. lia.
Qed.

End PyFacts.

Module TileFacts.

Import Py Tile PyFacts.

Lemma inject_Z_pos (z : Z) : 0 < z -> (0 < inject_Z z)%Q.
Proof. unfold Qlt. simpl. lia. Qed.

Lemma inject_Z_pos_inv (z : Z) : (0 < inject_Z z)%Q -> 0 < z.
Proof. unfold Qlt. simpl. lia. Qed.

Lemma Qceiling_pos (q : Q) : (0 < q)%Q -> 0 < Qceiling q.
Proof.
  intros Hq. pose proof (Qle_ceiling q) as Hc.
  apply inject_Z_pos_inv. eapply Qlt_le_trans; eauto.
Qed.

Lemma Qceiling_div_mul (a b : Z) : 0 < b -> a <= Qceiling (inject_Z a / inject_Z b) * b.
Proof.
  intros Hb.
  pose proof (Qle_ceiling (inject_Z a / inject_Z b)) as Hc.
  assert (Hb' : (0 < inject_Z b)%Q) by (apply inject_Z_pos; lia).
  apply (Qmult_le_compat_r _ _ (inject_Z b)) in Hc; [|apply Qlt_le_weak; exact Hb'].
  rewrite Zle_Qle, inject_Z_mult.
  eapply Qle_trans; [|exact Hc].
  unfold Qdiv. rewrite <- Qmult_assoc, (Qmult_comm (/ _)), Qmult_inv_r.
  - rewrite Qmult_1_r. apply Qle_refl.
  - intros E. rewrite E in Hb'. discriminate.
Qed.

Lemma Qceiling_div_pos (a b : Z) : 0 < a -> 0 < b -> 0 < Qceiling (inject_Z a / inject_Z b).
Proof.
  intros Ha Hb. apply Qceiling_pos.
  apply Qlt_shift_div_l; [apply inject_Z_pos; lia|].
  rewrite Qmult_0_l. apply inject_Z_pos. lia.
Qed.

Lemma grid_count_pos (h max_size : Z) (overlap : Q) :
  0 < h -> 0 < max_size -> (0 <= overlap)%Q ->
  0 < np_ceil ((1 + 2 * overlap) * inject_Z h / inject_Z max_size).
Proof.
  intros Hh Hm Ho. apply Qceiling_pos.
  apply Qlt_shift_div_l; [apply inject_Z_pos; lia|].
  rewrite Qmult_0_l.
  apply Qmult_lt_0_compat; [|apply inject_Z_pos; lia].
  apply Qlt_le_trans with (y := 1%Q); [reflexivity|].
  rewrite <- (Qplus_0_r 1) at 1. apply Qplus_le_r.
  apply Qmult_le_0_compat; [discriminate | exact Ho].
Qed.

Lemma int_inject_Z (z : Z) : int (inject_Z z) = z.
Proof.
  unfold int. destruct (Qle_bool 0 (inject_Z z)); [apply Qfloor_Z | apply Qceiling_Z].
Qed.

(** Along one axis: the tile of index [x / len] contains column [x]. *)
Lemma axis_cover (h N len x : Z) :
  0 < N -> 0 < len -> h <= len * N -> 0 <= x < h ->
  0 <= x / len < N /\ x / len * len <= x <= Z.min (h - 1) (x / len * len + len).
Proof.
  intros HN Hlen Hh Hx.
  pose proof (Z.mul_div_le x len Hlen) as H1.
  pose proof (Z.mul_succ_div_gt x len Hlen) as H2.
  assert (H3 : 0 <= x / len) by (apply Z.div_pos; lia).
  split; [split; [exact H3|] | lia].
  apply Z.div_lt_upper_bound; lia.
Qed.

(** Along one axis: two different tiles that both contain column [x] are
    neighbours, and [x] is the column where they meet. *)
Lemma axis_shared (h len a b x : Z) :
  0 < len -> a <> b ->
  a * len <= x <= Z.min (h - 1) (a * len + len) ->
  b * len <= x <= Z.min (h - 1) (b * len + len) ->
  x = Z.max a b * len /\ Z.abs (a - b) = 1.
Proof.
  intros Hlen Hab Ha Hb.
  assert (a < b \/ b < a) as [Hlt | Hlt] by lia.
  - assert (b = a + 1) by nia. subst b. split; [|lia].
    rewrite Z.max_r by lia. lia.
  - assert (a = b + 1) by nia. subst a. split; [|lia].
    rewrite Z.max_l by lia. lia.
Qed.

(** Row-major numbering of the tiles. *)
Lemma index_split (N xi yi : Z) :
  0 <= xi < N -> 0 <= yi ->
  (yi * N + xi) mod N = xi /\ Z.quot (yi * N + xi) N = yi.
Proof.
  intros Hx Hy. split.
  - rewrite Z.add_comm, Z.mod_add by lia. apply Z.mod_small. lia.
  - rewrite Z.quot_div_nonneg by nia.
    rewrite Z.add_comm, Z.div_add by lia. rewrite Z.div_small by lia. lia.
Qed.

Lemma covers_spec (b : box) (x y : Z) :
  covers b x y = true <->
  (xmin b <= x <= xmax b) /\ (ymin b <= y <= ymax b).
Proof. unfold covers. rewrite !andb_true_iff, !Z.leb_le. tauto. Qed.

(** The grid of a non-empty frame: positive counts and lengths, and the
    tiles of one row (column) are long enough to reach the frame's end. *)
Lemma tile_grid_sound (highres_x highres_y max_size : Z) (overlap : Q) :
  0 < highres_x -> 0 < highres_y -> 0 < max_size -> (0 <= overlap)%Q ->
  let g := tile_grid highres_x highres_y max_size overlap in
  0 < N_x g /\ 0 < N_y g /\ N_tiles g = N_x g * N_y g /\
  0 < len_x g /\ 0 < len_y g /\
  highres_x <= len_x g * N_x g /\ highres_y <= len_y g * N_y g.
Proof.
  intros Hx Hy Hm Ho g.
  assert (HNx : 0 < N_x g) by (apply grid_count_pos; assumption).
  assert (HNy : 0 < N_y g) by (apply grid_count_pos; assumption).
  repeat split; try assumption.
  - apply int_inject_Z.
  - apply Qceiling_div_pos; assumption.
  - apply Qceiling_div_pos; assumption.
  - apply Qceiling_div_mul; assumption.
  - apply Qceiling_div_mul; assumption.
Qed.

(** C1, as amended: with an overlap fraction in [0, 0.5) the non-overlap
    boxes [[x_index*len_x, min(highres_x-1, x_index*len_x+len_x)]] (and
    likewise in y) leave no pixel of the reference frame uncovered, and two
    different boxes that both contain a pixel are grid neighbours meeting at
    that pixel's column or row: only the columns and rows where adjacent
    boxes meet are covered more than once. *)
Theorem nonoverlap_boxes_cover_frame
  (highres_x highres_y max_size : Z) (overlap : Q) (x y : Z) :
  0 < max_size -> (0 <= overlap)%Q -> (overlap < 1 # 2)%Q ->
  0 <= x < highres_x -> 0 <= y < highres_y ->
  let g := tile_grid highres_x highres_y max_size overlap in
  (exists i, 0 <= i < N_tiles g /\
             covers (nonoverlap_box highres_x highres_y g i) x y = true) /\
  (forall i j, 0 <= i < N_tiles g -> 0 <= j < N_tiles g -> i <> j ->
     covers (nonoverlap_box highres_x highres_y g i) x y = true ->
     covers (nonoverlap_box highres_x highres_y g j) x y = true ->
     (x_index g i <> x_index g j \/ y_index g i <> y_index g j) /\
     (x_index g i <> x_index g j ->
        x = Z.max (x_index g i) (x_index g j) * len_x g /\
        Z.abs (x_index g i - x_index g j) = 1) /\
     (y_index g i <> y_index g j ->
        y = Z.max (y_index g i) (y_index g j) * len_y g /\
        Z.abs (y_index g i - y_index g j) = 1)).
Proof.
  intros Hm Ho _ Hx Hy g.
  destruct (tile_grid_sound highres_x highres_y max_size overlap)
    as (HNx & HNy & HNt & Hlx & Hly & Hcx & Hcy); try lia; try assumption.
  fold g in HNx, HNy, HNt, Hlx, Hly, Hcx, Hcy.
  split.
  - destruct (axis_cover highres_x (N_x g) (len_x g) x) as (Hxi & Hxb); try assumption.
    destruct (axis_cover highres_y (N_y g) (len_y g) y) as (Hyi & Hyb); try assumption.
    exists (y / len_y g * N_x g + x / len_x g).
    destruct (index_split (N_x g) (x / len_x g) (y / len_y g)) as (Emod & Equot);
      [lia | lia |].
    split; [rewrite HNt; nia|].
    apply covers_spec. unfold nonoverlap_box, x_index, y_index.
    cbn [xmin xmax ymin ymax]. rewrite Emod, Equot. lia.
  - intros i j Hi Hj Hij Ci Cj.
    apply covers_spec in Ci. apply covers_spec in Cj.
    unfold nonoverlap_box in Ci, Cj. cbn [xmin xmax ymin ymax] in Ci, Cj.
    destruct Ci as (Cix & Ciy). destruct Cj as (Cjx & Cjy).
    split; [|split].
    + destruct (Z.eq_dec (x_index g i) (x_index g j)) as [Ex|]; [|now left].
      destruct (Z.eq_dec (y_index g i) (y_index g j)) as [Ey|]; [|now right].
      exfalso. apply Hij. unfold x_index, y_index in Ex, Ey.
      rewrite !Z.quot_div_nonneg in Ey by lia.
      rewrite (Z.div_mod i (N_x g)), (Z.div_mod j (N_x g)) by lia.
      congruence.
    + intros Hne. eapply axis_shared; eauto.
    + intros Hne. eapply axis_shared; eauto.
Qed.

Lemma nonoverlap_boxes_cover_frame_witness :
  exists i, 0 <= i < 4 /\
    covers (nonoverlap_box 16000 16000 (tile_grid 16000 16000 8000 0) i) 8000 0 = true.
Proof.
  destruct (nonoverlap_boxes_cover_frame 16000 16000 8000 0 8000 0) as [H _];
    [lia | discriminate | reflexivity | lia | lia |].
  exact H.
Defined.

(** C1, as stated, fails: on a 16000 x 16000 frame with [max_size = 8000]
    and no overlap, the boxes of tiles 0 and 1 are [[0, 8000]] and
    [[8000, 15999]] in x, so pixel (8000, 0) lies in two boxes. *)
Lemma nonoverlap_boxes_double_coverage :
  tilemode 16000 16000 8000 = true /\
  (0 <= 0)%Q /\ (0 < 1 # 2)%Q /\
  nonoverlap_boxes 16000 16000 8000 0 =
    [MkBox 0 8000 0 8000; MkBox 8000 15999 0 8000;
     MkBox 0 8000 8000 15999; MkBox 8000 15999 8000 15999] /\
  coverage 16000 16000 8000 0 8000 0 = 2%nat /\
  coverage 16000 16000 8000 0 8000 0 <> 1%nat.
Proof. vm_compute. repeat split; discriminate. Qed.

(** Reading the boxes with their upper ends excluded does not repair the
    claim: the last column of the frame is then in no box. *)
Lemma nonoverlap_boxes_halfopen_gap :
  List.filter (fun b => covers_halfopen b 15999 0)
    (nonoverlap_boxes 16000 16000 8000 0) = [].
Proof. vm_compute. reflexivity. Qed.

End TileFacts.

Module WideAssertFacts.

Import Py WideAssert.

(** C10: the run-entry assertion never fails. For every dataset string the
    disjunction [ds != 'df' or ds != 'dragonfly'] is true, so with
    [wide_psf = True] (and also with [wide_psf = False]) the asserted
    condition is true and no dataset is rejected. *)
Theorem wide_psf_assert_vacuous :
  forall dataset : string,
    wide_psf_condition dataset true = true /\
    run_entry_assert dataset true = inr tt /\
    run_entry_assert dataset false = inr tt.
Proof.
  intros dataset.
  assert (H : wide_psf_condition dataset true = true).
  { unfold wide_psf_condition.
    destruct (String.eqb (lower dataset) "df") eqn:E; [|reflexivity].
    apply String.eqb_eq in E. rewrite E. reflexivity. }
  split; [exact H|]. unfold run_entry_assert. rewrite H. split; [reflexivity|].
  unfold wide_psf_condition. simpl. rewrite orb_true_r. reflexivity.
Qed.

(** Even the two names the message speaks of pass, as does any other. *)
Example wide_psf_assert_examples :
  run_entry_assert "Dragonfly" true = inr tt /\
  run_entry_assert "df" true = inr tt /\
  run_entry_assert "HSC" true = inr tt.
Proof. repeat split. Qed.

End WideAssertFacts.

Module TileRunFacts.

Import Py Tile TileRun.

Lemma tilemode_spec (highres_x highres_y max_size : Z) :
  tilemode highres_x highres_y max_size =
  (3 * max_size <=? 2 * highres_x) || (3 * max_size <=? 2 * highres_y).
Proof.
  unfold tilemode.
  assert (H : forall h, Qle_bool ((15 # 10) * inject_Z max_size) (inject_Z h)
                        = (3 * max_size <=? 2 * h)).
  { intros h. unfold Qle_bool. simpl. rewrite !Z.mul_1_r.
    apply eq_true_iff_eq. rewrite !Z.leb_le. lia. }
  rewrite !H. reflexivity.
Qed.

(** C8, as amended: the decision is taken once, by comparing the frame's
    dimensions with [1.5 * max_size]; a frame with either dimension at or
    above it goes on into tile mode, a frame below it makes the tile-mode
    run stop at its assertion ("Tile mode MRF not required") before any
    pipeline run. With [max_size = 8000] a 7999-pixel frame is not tiled and
    a 12001-pixel frame is. *)
Theorem tile_decision (w : world) (c : config) :
  tilemode (highres_x_g c) (highres_y_g c) (max_size c) =
    ((3 * max_size c <=? 2 * highres_x_g c) || (3 * max_size c <=? 2 * highres_y_g c)) /\
  run w c =
    (if tilemode (highres_x_g c) (highres_y_g c) (max_size c)
     then run_tiled w c (init_state w)
     else Raised (AssertionError not_required) (init_state w)) /\
  mrf_calls (init_state w) = [] /\
  tilemode 7999 7999 8000 = false /\
  tilemode 12001 12001 8000 = true.
Proof.
  split; [apply tilemode_spec|].
  split; [|repeat split].
  unfold run. destruct (tilemode _ _ _); reflexivity.
Qed.

(** C8, as stated, fails: on a 7999 x 7999 frame with the default
    [max_size = 8000] the run does not execute the single-frame pipeline
    once; it raises at the assertion and no pipeline run has taken place. *)
Lemma not_tiled_frame_runs_no_pipeline :
  tilemode 7999 7999 8000 = false /\
  run full_coverage_world (default_config 7999 7999)
    = Raised (AssertionError not_required) (init_state full_coverage_world) /\
  mrf_calls (init_state full_coverage_world) = [] /\
  ~ (exists s, run full_coverage_world (default_config 7999 7999) = Done s /\
               length (mrf_calls s) = 1%nat).
Proof.
  split; [reflexivity|]. split; [reflexivity|]. split; [reflexivity|].
  intros (s & Hs & _). discriminate Hs.
Qed.

(** The tiled side of the example: a 12001 x 12001 frame is cut into four
    tiles and the pipeline runs on each of them. *)
Example tiled_frame_runs_per_tile :
  exists s, run full_coverage_world (default_config 12001 12001) = Done s /\
            mrf_calls s = [0; 1; 2; 3] /\ skipped s = 0.
Proof. eexists. split; [vm_compute; reflexivity|]. split; reflexivity. Qed.

Lemma is_raised_bind (r : result) (k : state -> result) :
  is_raised r -> is_raised (bind r k).
Proof. destruct r; simpl; tauto. Qed.

Section DriverFacts.

Variable w : world.
Variable c : config.

(** One iteration of the cutting loop. A tile off the low-resolution image
    raises nothing and only bumps [skipped]: no file is written, [j] stays,
    nothing is appended to the tile lists. Any other tile, when its
    iteration completes, appends one entry. *)
Lemma cut_tile_step (hx hy : Z) (g : grid) (i : Z) (s : state) :
  skip_cut_tile c = false ->
  if tile_off_image w c hx hy g i
  then exists s', cut_tile w c hx hy g i s = Done s' /\
         files s' = files s /\ j s' = j s /\ skipped s' = skipped s + 1 /\
         tiles_xcen s' = tiles_xcen s
  else forall s', cut_tile w c hx hy g i s = Done s' ->
         skipped s' = skipped s /\ j s' = j s + 1 /\
         length (tiles_xcen s') = S (length (tiles_xcen s)).
Proof.
  intros Hskip. unfold cut_tile, tile_off_image. rewrite Hskip.
  destruct (lowres_no_overlap w _ _ _ _).
  - eexists. split; [reflexivity|]. simpl. repeat split.
  - intros s'. destruct (hires_no_overlap w G _ _ _ _); [discriminate|].
    destruct (hires_no_overlap w R _ _ _ _); [discriminate|].
    intros [= <-]. simpl. repeat split. rewrite length_app. simpl. lia.
Qed.

(** The cutting loop, when it completes: every tile is either listed or
    counted in [skipped]. *)
Lemma cut_loop_count (hx hy : Z) (g : grid) (l : list Z) : forall (s s' : state),
  skip_cut_tile c = false ->
  for_each l (cut_tile w c hx hy g) s = Done s' ->
    Z.of_nat (length (tiles_xcen s')) + skipped s'
      = Z.of_nat (length (tiles_xcen s)) + skipped s + Z.of_nat (length l) /\
    skipped s <= skipped s' /\
    ((exists i, In i l /\ tile_off_image w c hx hy g i = true) ->
     skipped s < skipped s').
Proof.
  induction l as [|i l IH]; intros s s' Hskip.
  - simpl. intros [= <-]. repeat split; try lia. intros (i & [] & _).
  - simpl. destruct (cut_tile w c hx hy g i s) as [s1|e s1] eqn:E1; simpl; [|discriminate].
    intros E'. destruct (IH s1 s' Hskip E') as (Hcount & Hle & Hlt).
    pose proof (cut_tile_step hx hy g i s Hskip) as H1.
    destruct (tile_off_image w c hx hy g i) eqn:Eoff.
    + destruct H1 as (s1' & E1' & _ & _ & Hs & Hx).
      rewrite E1 in E1'. injection E1' as <-. rewrite Hx, Hs in *.
      repeat split; try lia.
    + destruct (H1 s1 E1) as (Hs & _ & Hx). rewrite Hx, Hs in *.
      repeat split; try lia.
      intros (i0 & [-> | Hin] & Hoff); [congruence|].
      apply Hlt. eauto.
Qed.

(** The loops after the cutting leave the tile lists alone. *)
Lemma for_each_keeps_xcen (body : Z -> state -> result) (l : list Z) (s s' : state) :
  (forall i s s', body i s = Done s' -> tiles_xcen s' = tiles_xcen s) ->
  for_each l body s = Done s' -> tiles_xcen s' = tiles_xcen s.
Proof.
  intros Hbody. revert s. induction l as [|i l IH]; intros s; simpl.
  - intros [= ->]. reflexivity.
  - destruct (body i s) as [s1|e s1] eqn:E1; simpl; [|discriminate].
    intros E'. rewrite (IH _ E'). eapply Hbody; eauto.
Qed.

Lemma rebin_tile_keeps_xcen (i : Z) (s s' : state) :
  rebin_tile i s = Done s' -> tiles_xcen s' = tiles_xcen s.
Proof.
  unfold rebin_tile.
  repeat match goal with |- context [if ?b then _ else _] => destruct b end;
    intros [= <-]; reflexivity.
Qed.

Lemma mrf_tile_keeps_xcen (i : Z) (s s' : state) :
  mrf_tile w i s = Done s' -> tiles_xcen s' = tiles_xcen s.
Proof.
  unfold mrf_tile.
  destruct (mrf_run w i) as [[]|]; destruct (mrf_progress w i);
    intros [= <-]; reflexivity.
Qed.

Lemma trim_tile_keeps_xcen (i : Z) (s s' : state) :
  trim_tile w i s = Done s' -> tiles_xcen s' = tiles_xcen s.
Proof.
  unfold trim_tile.
  repeat match goal with
         | |- context [match ?o with Some _ => _ | None => _ end] => destruct o
         | |- context [if ?b then _ else _] => destruct b
         end; intros [= <-]; reflexivity.
Qed.

(** The trimming loop indexes the tile lists by the grid number: it raises
    as soon as it reaches a number past the end of the lists. *)
Lemma trim_loop_raises (l : list Z) (s : state) :
  (exists i, In i l /\ tiles_xcen s !! Z.to_nat i = None) ->
  is_raised (for_each l (trim_tile w) s).
Proof.
  revert s. induction l as [|i l IH]; intros s (i0 & Hin & Hnone).
  - destruct Hin.
  - simpl. destruct (trim_tile w i s) as [s1|e s1] eqn:E1; simpl; [|exact I].
    apply IH. destruct Hin as [-> | Hin].
    + unfold trim_tile in E1. rewrite Hnone in E1. discriminate.
    + exists i0. split; [exact Hin|].
      rewrite (trim_tile_keeps_xcen _ _ _ E1). exact Hnone.
Qed.

(** Whenever the cutting loop skips a tile, the run does not complete: the
    trimming stage still walks all [N_tiles] grid numbers, and the tile
    lists are one entry short for each skipped tile. *)
Lemma skipped_tile_run_raises :
  tilemode (highres_x_g c) (highres_y_g c) (max_size c) = true ->
  skip_cut_tile c = false -> skip_trim c = false ->
  (let '(_, (hx, hy)) :=
     master_band (highres_x_g c) (highres_y_g c) (highres_x_r c) (highres_y_r c) in
   let g := tile_grid hx hy (max_size c) (overlap c) in
   exists i, 0 <= i < N_tiles g /\ tile_off_image w c hx hy g i = true) ->
  is_raised (run w c).
Proof.
  intros Htile Hcut Htrim. unfold run, run_tiled. rewrite Htile, Htrim.
  destruct (master_band _ _ _ _) as [mb [hx hy]].
  set (g := tile_grid hx hy (max_size c) (overlap c)).
  intros (i & Hi & Hoff).
  destruct (for_each (range (N_tiles g)) (cut_tile w c hx hy g) (init_state w))
    as [s1|e s1] eqn:E1; simpl bind; [|exact I].
  destruct (cut_loop_count hx hy g (range (N_tiles g)) (init_state w) s1 Hcut E1)
    as (Hcount & _ & Hlt).
  assert (Hsk : 0 < skipped s1).
  { apply Hlt. exists i. split; [apply PyFacts.in_range; lia | exact Hoff]. }
  assert (Hlen : Z.of_nat (length (tiles_xcen s1)) < N_tiles g).
  { rewrite PyFacts.range_length in Hcount by lia.
    change (tiles_xcen (init_state w)) with (@nil Q) in Hcount.
    change (skipped (init_state w)) with 0 in Hcount.
    simpl length in Hcount. lia. }
  clear E1 Hcount Hlt.
  assert (Hbad : forall s, tiles_xcen s = tiles_xcen s1 ->
            is_raised (when true (for_each (range (N_tiles g)) (trim_tile w)) s
                         >>= fun s => stitch_stage c s)).
  { intros s Hs. apply is_raised_bind. unfold when. apply trim_loop_raises.
    exists (Z.of_nat (length (tiles_xcen s1))). split.
    - apply PyFacts.in_range. lia.
    - rewrite Nat2Z.id, Hs. apply lookup_ge_None_2. lia. }
  unfold when at 1.
  destruct (negb (skip_rebin c)).
  - destruct (for_each _ rebin_tile s1) as [s2|e s2] eqn:E2; simpl bind; [|exact I].
    assert (H2 : tiles_xcen s2 = tiles_xcen s1)
      by (eapply for_each_keeps_xcen; eauto using rebin_tile_keeps_xcen).
    unfold when at 1. destruct (negb (skip_mrf c)).
    + destruct (for_each _ (mrf_tile w) s2) as [s3|e s3] eqn:E3; simpl bind; [|exact I].
      apply Hbad. rewrite <- H2.
      eapply for_each_keeps_xcen; eauto using mrf_tile_keeps_xcen.
    + simpl bind. apply Hbad. exact H2.
  - simpl bind. unfold when at 1. destruct (negb (skip_mrf c)).
    + destruct (for_each _ (mrf_tile w) s1) as [s3|e s3] eqn:E3; simpl bind; [|exact I].
      apply Hbad. eapply for_each_keeps_xcen; eauto using mrf_tile_keeps_xcen.
    + simpl bind. apply Hbad. reflexivity.
Qed.

End DriverFacts.

(** C7 at a concrete run: a 16000 x 16000 frame with the default arguments
    is cut into a 3 x 3 grid; grid tile 8 lies off the low-resolution
    image. The cutting loop skips it silently and the binning and MRF loops
    process the eight remaining tiles, but the trimming loop then asks for
    entry 8 of the eight-entry tile lists and the run ends in [IndexError]:
    nothing is stitched and no final image is written. *)
Theorem skipped_tile_breaks_trim :
  exists s,
    run corner_missing_world (default_config 16000 16000) = Raised IndexError s /\
    skipped s = 1 /\ j s = 8 /\ length (tiles_xcen s) = 8%nat /\
    mrf_calls s = [0; 1; 2; 3; 4; 5; 6; 7] /\
    exists_file (FinalTile 7) (files s) = true /\
    exists_file StitchImage (files s) = false /\
    exists_file FinalImage (files s) = false.
Proof.
  eexists. split; [vm_compute; reflexivity|]. vm_compute. repeat split.
Qed.

(** The same frame with a low-resolution image that covers it completes. *)
Example full_coverage_run_completes :
  exists s,
    run full_coverage_world (default_config 16000 16000) = Done s /\
    skipped s = 0 /\ exists_file FinalImage (files s) = true.
Proof.
  eexists. split; [vm_compute; reflexivity|]. vm_compute. repeat split.
Qed.

Lemma skipped_tile_run_raises_witness :
  is_raised (run corner_missing_world (default_config 16000 16000)).
Proof.
  apply skipped_tile_run_raises; try reflexivity.
  exists 8. split; [vm_compute; split; [discriminate | reflexivity] | reflexivity].
Defined.

End TileRunFacts.

Module StackFacts.

Import Py FVal Stack.

Section StackingFacts.

Context {starobj Star : Type}.
Variable Star_init : starobj -> exn + Star.
Variable centralize : Star -> exn + Star.
Variable mask_out_contam : Star -> exn + Star.
Variable get_masked_image : Star -> fval -> exn + patch.
Variable fluxann : Star -> exn + fval.
Variable flux : Star -> exn + fval.
Variable float_of_string : string -> exn + fval.
Variable cfg : starhalo_cfg.

Let process := process_star starobj Star Star_init centralize mask_out_contam
                 get_masked_image fluxann flux float_of_string cfg.
Let loop := stack_loop starobj Star Star_init centralize mask_out_contam
              get_masked_image fluxann flux float_of_string cfg.
Let slot := slot_of starobj Star Star_init centralize mask_out_contam
              get_masked_image fluxann flux float_of_string cfg.
Let keep := survivor starobj Star Star_init centralize mask_out_contam
              get_masked_image fluxann flux float_of_string cfg.

Let failing := failing_from starobj Star Star_init centralize mask_out_contam
                 get_masked_image fluxann flux float_of_string cfg.

Lemma failing_spec (cat : list starobj) (k b : nat) :
  b ∈ failing k cat <->
  exists n obj e, b = (k + n)%nat /\ cat !! n = Some obj /\ process obj = inl e.
Proof.
  revert k. induction cat as [|obj cat IH]; intros k;
    unfold failing; simpl; fold failing; fold process.
  - rewrite elem_of_nil. split; [tauto|]. intros (n & o & e & _ & H & _).
    rewrite lookup_nil in H. discriminate.
  - destruct (process obj) as [e|p] eqn:E.
    + rewrite elem_of_cons, IH. split.
      * intros [-> | (n & o & e' & -> & Hl & He)].
        -- exists 0%nat, obj, e. rewrite Nat.add_0_r. auto.
        -- exists (S n), o, e'. split; [lia | auto].
      * intros (n & o & e' & -> & Hl & He). destruct n as [|n].
        -- left. lia.
        -- right. exists n, o, e'. split; [lia | auto].
    + rewrite IH. split.
      * intros (n & o & e' & -> & Hl & He).
        exists (S n), o, e'. split; [lia | auto].
      * intros (n & o & e' & -> & Hl & He). destruct n as [|n].
        -- simpl in Hl. injection Hl as <-. congruence.
        -- exists n, o, e'. split; [lia | auto].
Qed.

Lemma failing_ge (cat : list starobj) (k b : nat) :
  b ∈ failing k cat -> (k <= b)%nat.
Proof. rewrite failing_spec. intros (n & _ & _ & -> & _). lia. Qed.

(** The loop fills the slots [i, i + len(cat)) in order and records the
    failing indices; it returns for every catalog. *)
Lemma stack_loop_spec (cat : list starobj) (i : nat) (S0 : list patch) (B : list nat) :
  (i + length cat <= length S0)%nat ->
  loop i cat S0 B =
    (take i S0 ++ List.map slot cat ++ drop (i + length cat) S0,
     B ++ failing i cat).
Proof.
  revert i S0 B. induction cat as [|obj cat IH]; intros i S0 B Hlen;
    unfold failing; simpl; fold failing.
  - rewrite Nat.add_0_r, take_drop, app_nil_r. reflexivity.
  - simpl in Hlen.
    assert (Hstep : forall x B',
              loop (S i) cat (<[i:=x]> S0) B' =
              (take i S0 ++ x :: List.map slot cat ++ drop (i + S (length cat)) S0,
               B' ++ failing (S i) cat)).
    { intros x B'. rewrite IH by (rewrite length_insert; lia).
      f_equal. rewrite drop_insert_lt by lia.
      rewrite (insert_take_drop S0 i x) by lia.
      rewrite (cons_middle x), (app_assoc (take i S0) [x]).
      rewrite take_app_length' by (rewrite length_app, length_take; simpl; lia).
      rewrite <- app_assoc. simpl. repeat f_equal. lia. }
    unfold loop in *. simpl. fold process. unfold slot, slot_of. fold process.
    destruct (process obj) as [e|p] eqn:E.
    + fold loop. unfold loop. rewrite Hstep. rewrite <- app_assoc. reflexivity.
    + apply Hstep.
Qed.

(** Deleting the failing indices from the filled stack leaves the patches
    of the stars that were processed without error, in catalog order. *)
Lemma delete_failing (cat : list starobj) (k : nat) (B0 : list nat) :
  (forall b, b ∈ B0 -> (b < k)%nat) ->
  delete_from k (List.map slot cat) (B0 ++ failing k cat) = omap keep cat.
Proof.
  revert k B0. induction cat as [|obj cat IH]; intros k B0 HB0;
    unfold failing; simpl; fold failing; [reflexivity|].
  unfold slot, slot_of, keep, survivor. fold process.
  destruct (process obj) as [e|p] eqn:E.
  - rewrite bool_decide_eq_true_2 by (rewrite elem_of_app, elem_of_cons; auto).
    replace (B0 ++ k :: failing (S k) cat) with ((B0 ++ [k]) ++ failing (S k) cat)
      by (rewrite <- app_assoc; reflexivity).
    apply IH. intros b. rewrite elem_of_app, elem_of_cons, elem_of_nil.
    intros [Hb | [-> | []]]; [apply HB0 in Hb; lia | lia].
  - rewrite bool_decide_eq_false_2.
    + f_equal. apply IH. intros b Hb. apply HB0 in Hb. lia.
    + rewrite elem_of_app. intros [Hb | Hb].
      * apply HB0 in Hb. lia.
      * apply failing_ge in Hb. lia.
Qed.

(** C9: stacking never aborts on a star. For every catalog the loop
    returns; the stars whose processing raises are exactly the recorded bad
    indices, each of them has the sentinel patch in its slot, the stack kept
    after [np.delete] holds the patches of the other stars only, in catalog
    order, and the median PSF is the per-pixel [nanmedian] of that stack. *)
Theorem stacking_excludes_failed_stars (psf_cat : list starobj) :
  let r := stack_stars starobj Star Star_init centralize mask_out_contam
             get_masked_image fluxann flux float_of_string cfg psf_cat in
  (forall i, i ∈ bad_indices r <->
             exists obj e, psf_cat !! i = Some obj /\ process obj = inl e) /\
  (forall i, i ∈ bad_indices r ->
             raw_stack r !! i = Some (sentinel cfg)) /\
  stack_set r = omap keep psf_cat /\
  median_psf r = nanmedian_axis0 cfg (omap keep psf_cat).
Proof.
  unfold stack_stars. fold loop.
  rewrite stack_loop_spec by (unfold zeros; rewrite repeat_length; lia).
  simpl. rewrite drop_ge, app_nil_r by (unfold zeros; rewrite repeat_length; lia).
  unfold np_delete.
  assert (Hdel : delete_from 0 (List.map slot psf_cat) (failing 0 psf_cat)
                 = omap keep psf_cat).
  { apply (delete_failing psf_cat 0 []). intros b Hb. apply elem_of_nil in Hb. tauto. }
  rewrite Hdel.
  assert (Hbad : forall i, i ∈ failing 0 psf_cat <->
            exists obj e, psf_cat !! i = Some obj /\ process obj = inl e).
  { intros i. rewrite failing_spec. split.
    - intros (n & obj & e & -> & H). exists obj, e. exact H.
    - intros (obj & e & H). exists i, obj, e. split; [reflexivity | exact H]. }
  repeat split; try apply Hbad.
  intros i Hi. apply Hbad in Hi as (obj & e & Hl & He).
  rewrite list_lookup_fmap, Hl. simpl. unfold slot, slot_of. fold process.
  rewrite He. reflexivity.
Qed.

End StackingFacts.

(** Four stars, the second of which cannot be cut out: its slot holds the
    sentinel, its index is recorded, and the median is taken over the three
    other patches (2, 4 and 3 after division by the flux 2). *)
Example stacking_example :
  let r := sample_stack_stars [4; -1; 8; 6]%Z in
  bad_indices r = [1%nat] /\
  raw_stack r !! 1%nat = Some [Fin 1000000000] /\
  length (stack_set r) = 3%nat /\
  exists q, median_psf r = [Fin q] /\ (q == 3)%Q.
Proof.
  vm_compute. repeat split. eexists. split; reflexivity.
Qed.

(** A catalog in which every star fails still gives a result: the stack is
    empty and the median is NaN, no exception escapes. *)
Example stacking_all_fail :
  let r := sample_stack_stars [-1; -2]%Z in
  bad_indices r = [0%nat; 1%nat] /\ stack_set r = [] /\ median_psf r = [NaN].
Proof. vm_compute. repeat split. Qed.

End StackFacts.

Module ColorCorrectFacts.

Import Py FVal ColorCorrect.




(** A NaN or infinite ratio becomes the neutral 0, anything else stays. *)
Lemma remove_artifact_spec (x : fval) :
  remove_artifact x = if isfinite x then x else Fin 0.
Proof. destruct x; reflexivity. Qed.







Section FluxModelFacts.

Variable np_power : fval -> Q -> fval.
Variable color_term : Q.

(** What is asked of [np.power] at the configured colour term: a base in
    [0.1, 10] gives a finite power (no overflow), and NaN does not turn
    into an infinity. *)
Hypothesis np_power_finite :
  forall q, (1 # 10 <= q)%Q -> (q <= 10)%Q ->
            isfinite (np_power (Fin q) color_term) = true.
Hypothesis np_power_nan : isinf (np_power NaN color_term) = false.



End FluxModelFacts.


(** The sanitizing steps on a small frame: a ratio of 1/0 (infinite) and of
    0/0 (NaN) both become 0, the extreme ratio 400 is forced to 1. *)
Example color_correction_example :
  col_ratio [Fin 3; Fin 1; Fin 0; Fin 400] [Fin 2; Fin 0; Fin 0; Fin 1]
    = [Fin (3 / 2); Fin 0; Fin 0; Fin (400 / 1)] /\
  List.map isfinite
    (fluxratio (col_ratio [Fin 3; Fin 1; Fin 0; Fin 400] [Fin 2; Fin 0; Fin 0; Fin 1]))
    = [true; true; true; true] /\
  nth 1 (fluxratio (col_ratio [Fin 3; Fin 1; Fin 0; Fin 400]
                               [Fin 2; Fin 0; Fin 0; Fin 1])) NaN = Fin 1.
Proof. repeat split. Qed.

(** The clamp alone does not remove NaN: when no pixel of the ratio is
    non-zero the median is NaN, every normalized ratio is NaN and stays so;
    the flux model is finite all the same, through line 412. *)
Example empty_ratio_gives_nan :
  fluxratio (col_ratio [Fin 0; Fin 1] [Fin 0; Fin 0]) = [NaN; NaN] /\
  flux_model np_power_natural 1 "g" [Fin 0; Fin 1] [Fin 0; Fin 0]
    [Fin 5; Fin 6] [Fin 1; Fin 1] [true; true] = inr [Fin 0; Fin 0].
Proof. split; reflexivity. Qed.


End ColorCorrectFacts.

Module HaloFacts.

Import Py FVal Halo.

Local Open Scope Q_scope.

Section NormFacts.

Variable polyfit : list Q -> list Q -> nat -> list Q.
Variable log10 : Q -> Q.
Variable pow10 : Q -> Q.

Lemma norm_fitted (pfit : list Q) (obj : star) (m : Q) :
  Qlt_bool (mag obj) (155 # 10) = true ->
  MeanPSFMag obj = Some m -> ~ m == 0 ->
  norm pow10 pfit obj = pow10 ((- poly1d pfit m) / (25 # 10)).
Proof.
  intros Hmag Hm Hnz. unfold norm. rewrite Hmag, Hm. simpl.
  destruct (Qeq_bool m 0) eqn:E; [|reflexivity].
  apply Qeq_bool_iff in E. contradiction.
Qed.

Lemma norm_raw (pfit : list Q) (obj : star) :
  Qlt_bool (mag obj) (155 # 10) = false \/ MeanPSFMag obj = None \/
  (exists m, MeanPSFMag obj = Some m /\ m == 0) ->
  norm pow10 pfit obj = flux obj.
Proof.
  unfold norm. intros [H | [H | (m & H & Hz)]].
  - rewrite H. reflexivity.
  - rewrite H. simpl. destruct (Qlt_bool _ _); reflexivity.
  - rewrite H. simpl. apply Qeq_bool_iff in Hz. rewrite Hz. simpl.
    destruct (Qlt_bool _ _); reflexivity.
Qed.

(** C5, as amended: one second-order polynomial is fitted per frame, on the
    stars whose Pan-STARRS magnitude is present and between 0 and 16; a
    star brighter than 15.5 whose Pan-STARRS magnitude is present and not
    zero is scaled by [10 ** (-p(m) / 2.5)]; every other star (fainter,
    magnitude masked, or magnitude exactly zero) by its raw measured flux. *)
Theorem halo_norm_selection (cat : list star) (i : nat) (obj : star) :
  cat !! i = Some obj ->
  let pfit := fit_relation polyfit log10 cat in
  let sample := List.filter fit_flag cat in
  pfit = polyfit
           (List.map (fun s => match MeanPSFMag s with Some m => m | None => 0 end) sample)
           (List.map (fun s => - (25 # 10) * log10 (flux s)) sample) 2%nat /\
  (forall s, In s sample <->
     In s cat /\ exists m, MeanPSFMag s = Some m /\ 0 < m /\ m < 16) /\
  exists n, halo_norms polyfit log10 pow10 cat !! i = Some n /\
    (Qlt_bool (mag obj) (155 # 10) = true ->
     forall m, MeanPSFMag obj = Some m -> ~ m == 0 ->
       n = pow10 ((- poly1d pfit m) / (25 # 10))) /\
    (Qlt_bool (mag obj) (155 # 10) = false \/ MeanPSFMag obj = None \/
     (exists m, MeanPSFMag obj = Some m /\ m == 0) ->
     n = flux obj).
Proof.
  intros Hi pfit sample. split; [reflexivity|]. split.
  - intros s. unfold sample. rewrite filter_In. unfold fit_flag.
    split; intros [Hin H]; (split; [exact Hin|]).
    + destruct (MeanPSFMag s) as [m|]; [|discriminate].
      exists m. split; [reflexivity|].
      apply andb_true_iff in H as [H1 H2].
      unfold Qlt_bool in H1, H2. apply negb_true_iff in H1, H2.
      split; apply Qnot_le_lt; rewrite <- Qle_bool_iff; congruence.
    + destruct H as (m & -> & H0 & H16).
      apply andb_true_iff. unfold Qlt_bool. rewrite !negb_true_iff.
      split; apply not_true_is_false; rewrite Qle_bool_iff;
        apply Qlt_not_le; assumption.
  - exists (norm pow10 pfit obj). split.
    + unfold halo_norms. rewrite list_lookup_fmap, Hi. reflexivity.
    + split; [|apply norm_raw].
      intros Hmag m Hm Hnz. apply norm_fitted; assumption.
Qed.

End NormFacts.

Lemma halo_norm_selection_witness :
  exists n,
    halo_norms (fun x y _ => polyfit2_exact x y) log10_power_of_ten pow10_integral
      zero_mag_catalog !! 0%nat = Some n /\
    n = 10000.
Proof.
  destruct (halo_norm_selection (fun x y _ => polyfit2_exact x y)
              log10_power_of_ten pow10_integral zero_mag_catalog 0
              (MkStar 14 10000 (Some 10)) eq_refl) as (_ & _ & n & Hn & Hfit & _).
  exists n. split; [exact Hn|].
  rewrite (Hfit eq_refl 10 eq_refl) by discriminate.
  vm_compute. reflexivity.
Defined.

(** C5, as stated, fails: the fourth star is brighter than 15.5 and has a
    Pan-STARRS magnitude (0.0), yet [if obj[...]] is false on a zero and the
    star is scaled by its raw flux 500, whatever the fit; the relation
    fitted on the three other stars is flat at -10 and would give
    [10 ** 4]. *)
Lemma zero_magnitude_uses_raw_flux :
  (forall polyfit log10 pow10,
     halo_norms polyfit log10 pow10 zero_mag_catalog !! 3%nat = Some 500) /\
  zero_mag_catalog !! 3%nat = Some (MkStar 15 500 (Some 0)) /\
  Qlt_bool 15 (155 # 10) = true /\
  (let pfit := fit_relation (fun x y _ => polyfit2_exact x y) log10_power_of_ten
                 zero_mag_catalog in
   pow10_integral ((- poly1d pfit 0) / (25 # 10)) == 10000 /\
   ~ 500 == pow10_integral ((- poly1d pfit 0) / (25 # 10))).
Proof.
  split; [intros; reflexivity|]. split; [reflexivity|]. split; [reflexivity|].
  vm_compute. split; [reflexivity | discriminate].
Qed.

End HaloFacts.

Module StitchFacts.

Import Py FVal TileRun Stitch.

Section StitchingFacts.

Variable swarp : string -> string -> list file -> image.
Variable reproject_and_coadd : list file -> string -> string -> image.

(** A pixel of the final image: zero where the mask mosaic is non-zero and
    the image pixel is finite, the image pixel itself where the mask
    mosaic is zero. *)
Lemma blank_pixel (img : image) (msk : list fval) (k : nat) (x m : fval) :
  img !! k = Some x -> msk !! k = Some m ->
  exists y, blank img (List.map astype_bool msk) !! k = Some y /\
    (astype_bool m = true -> forall q, x = Fin q -> exists q', y = Fin q' /\ (q' == 0)%Q) /\
    (astype_bool m = false -> forall q, x = Fin q -> exists q', y = Fin q' /\ (q' == q)%Q).
Proof.
  intros Hx Hm. exists (bmul (negb (astype_bool m)) x). split.
  - unfold blank, image in *. rewrite lookup_zip_with, Hx. simpl.
    rewrite list_lookup_fmap, Hm. reflexivity.
  - split; intros -> q ->.
    + exists (0 * q)%Q. split; [reflexivity | ring].
    + exists (1 * q)%Q. split; [reflexivity | ring].
Qed.

(** C6, as amended: the stitching step combines the listed trimmed tile
    images into one mosaic by median co-addition under the default
    ['swarp'] method and by mean co-addition under ['reproject'], and the
    listed tile masks by sum, thresholded at zero ([> 0] under ['swarp'],
    the boolean cast of the final step under both); the final image is the
    image mosaic with every finite pixel flagged in the mask mosaic set to
    zero and every unflagged pixel kept. *)
Theorem stitch_combines_and_blanks :
  stitch_and_combine swarp reproject_and_coadd "swarp" =
    inr (blank (swarp "MEDIAN" "Y" (filename_list false))
               (List.map astype_bool
                  (List.map positive_flag (swarp "SUM" "N" (filename_list true))))) /\
  stitch_and_combine swarp reproject_and_coadd "reproject" =
    inr (blank (reproject_and_coadd (filename_list false) "mean" "True")
               (List.map astype_bool
                  (reproject_and_coadd (filename_list true) "sum" "False"))) /\
  (forall x, astype_bool (positive_flag x) = flt (Fin 0) x) /\
  (forall (img : image) (msk : list fval) (k : nat) (x m : fval),
     img !! k = Some x -> msk !! k = Some m ->
     exists y, blank img (List.map astype_bool msk) !! k = Some y /\
       (astype_bool m = true -> forall q, x = Fin q ->
          exists q', y = Fin q' /\ (q' == 0)%Q) /\
       (astype_bool m = false -> forall q, x = Fin q ->
          exists q', y = Fin q' /\ (q' == q)%Q)).
Proof.
  split; [reflexivity|]. split; [reflexivity|]. split.
  - intros x. unfold positive_flag. destruct (flt (Fin 0) x); reflexivity.
  - apply blank_pixel.
Qed.

End StitchingFacts.

(** C6, as stated, fails: under the default method the tile images are not
    combined by a mean but by SWarp's [COMBINE_TYPE MEDIAN]. On three tiles
    with values 1, 2 and 9 at a pixel the stitched image holds the median 2,
    not the mean 4. *)
Lemma swarp_image_is_median :
  swarp_options "image" = ("MEDIAN", "Y")%string /\
  _stitch sample_swarp sample_reproject "swarp" "image" (filename_list false)
    = Some [Fin 2] /\
  exists q, mean sample_stack = Fin q /\ (q == 4)%Q /\ ~ (2 == q)%Q.
Proof.
  split; [reflexivity|]. split; [reflexivity|].
  eexists. split; [reflexivity|]. split; [reflexivity | discriminate].
Qed.

(** A median and a mean of the same pixel stack differ. *)
Example median_is_not_mean :
  nanmedian [Fin 1; Fin 2; Fin 9] = Fin 2 /\
  exists q, mean [Fin 1; Fin 2; Fin 9] = Fin q /\ (q == 4)%Q.
Proof. split; [reflexivity|]. eexists. split; reflexivity. Qed.

(** The stitched lists name tiles 0 to 15 whatever the grid: a run on
    twenty tiles trims tile 19, which no list names, and a run on four
    tiles never writes tile 4, which both lists name. *)
Example stitch_list_ignores_tile_count :
  length (filename_list false) = 16%nat /\
  (exists s, run full_coverage_world twenty_tile_config = Done s /\
             exists_file (FinalTile 19) (files s) = true /\
             bool_decide (FinalTile 19 ∈ filename_list false) = false) /\
  (exists s, run full_coverage_world (default_config 12001 12001) = Done s /\
             exists_file (FinalTile 4) (files s) = false /\
             bool_decide (FinalTile 4 ∈ filename_list false) = true).
Proof.
  split; [reflexivity|].
  split; eexists; (split; [vm_compute; reflexivity|]); vm_compute; split; reflexivity.
Qed.

End StitchFacts.

Module ResidualFacts.

Import Py Residual.

Local Open Scope Q_scope.

Lemma row_sum_scale (g : Q -> Q) (t : Q) (f : Z -> Q) (row : list Q) (b : Z) :
  (forall k, g k == t * k) ->
  row_sum f b (List.map g row) == t * row_sum f b row.
Proof.
  intros Hg. revert b. induction row as [|k row IH]; intros b; simpl.
  - ring.
  - rewrite Hg, IH. ring.
Qed.

Lemma weighted_sum_scale (g : Q -> Q) (t : Q) (f : Z -> Z -> Q) (K : list (list Q)) (a : Z) :
  (forall k, g k == t * k) ->
  weighted_sum f a (List.map (List.map g) K) == t * weighted_sum f a K.
Proof.
  intros Hg. revert a. induction K as [|row K IH]; intros a; simpl.
  - ring.
  - rewrite (row_sum_scale g t) by exact Hg. rewrite IH. ring.
Qed.

Lemma map_map_length {A B : Type} (g : A -> B) (K : list (list A)) :
  length (List.map (List.map g) K) = length K /\
  length (hd [] (List.map (List.map g) K)) = length (hd [] K).
Proof.
  split; [apply length_map|]. destruct K; simpl; [reflexivity | apply length_map].
Qed.

Lemma conv_pixel_scale (g : Q -> Q) (t : Q) (array : list (list (option Q)))
    (K : list (list Q)) (i j : Z) :
  (forall k, g k == t * k) ->
  conv_pixel 0 array (List.map (List.map g) K) i j == t * conv_pixel 0 array K i j.
Proof.
  intros Hg. unfold conv_pixel.
  destruct (map_map_length g K) as [-> ->].
  apply weighted_sum_scale. exact Hg.
Qed.

(** The pixels of the convolved frame. *)
Lemma conv_image_lookup (array : list (list (option Q))) (K : list (list Q))
    (i j : nat) (row : list (option Q)) (x : option Q) :
  array !! i = Some row -> row !! j = Some x ->
  exists r, conv_image 0 array K !! i = Some r /\
            r !! j = Some (conv_pixel 0 array K (Z.of_nat i) (Z.of_nat j)).
Proof.
  intros Hi Hj. unfold conv_image. eexists. split.
  - rewrite list_lookup_imap, Hi. reflexivity.
  - rewrite list_lookup_imap, Hj. reflexivity.
Qed.

(** The pixels of a difference of frames: a number minus the model's
    pixel, NaN where the image is NaN. *)
Lemma subtract_lookup (image : list (list (option Q))) (m : list (list Q))
    (i j : nat) (lrow : list (option Q)) (x : option Q) (mrow : list Q) (y : Q) :
  image !! i = Some lrow -> lrow !! j = Some x ->
  m !! i = Some mrow -> mrow !! j = Some y ->
  exists rrow, subtract image m !! i = Some rrow /\
    rrow !! j = Some (match x with Some v => Some (v - y) | None => None end).
Proof.
  intros Hi Hj Hmi Hmj. unfold subtract. eexists. split.
  - rewrite lookup_zip_with, Hi. simpl. rewrite Hmi. reflexivity.
  - rewrite lookup_zip_with, Hj. simpl. rewrite Hmj. reflexivity.
Qed.

Section ResidualStageFacts.

Variable remove_lowsb : list (list (option Q)) -> list (list Q) -> list (list Q)
                        -> list (list (option Q)).

(** C2: the flux model is convolved with the estimated kernel as it is:
    whatever the sizes, the call returns the zero-filled convolution with
    the kernel itself (NaN pixels read as zero, no division by the kernel's
    sum, no size limit), and that model is subtracted from the magnified
    low-resolution image: each pixel of the residual is the pixel of the
    low-resolution image minus the convolution sum at that pixel (NaN where
    the image is NaN), with or without the low surface brightness objects
    stripped. The output is therefore linear in the kernel: scaling the
    kernel by [c] scales every pixel of the model by [c], and the model is
    the kernel's sum times the model of the unit-sum kernel. *)
Theorem residual_uses_kernel_as_given
    (hires_fluxmod : list (list (option Q))) (kernel_med : list (list Q))
    (lowres_image : list (list (option Q))) :
  residual_stage remove_lowsb false hires_fluxmod kernel_med lowres_image
    = inr (conv_image 0 hires_fluxmod kernel_med,
           subtract lowres_image (conv_image 0 hires_fluxmod kernel_med)) /\
  residual_stage remove_lowsb true hires_fluxmod kernel_med lowres_image
    = (let stripped := remove_lowsb hires_fluxmod
                         (conv_image 0 hires_fluxmod kernel_med) kernel_med in
       inr (conv_image 0 stripped kernel_med,
            subtract lowres_image (conv_image 0 stripped kernel_med))) /\
  (forall (i j : nat) row x,
     hires_fluxmod !! i = Some row -> row !! j = Some x ->
     exists r, conv_image 0 hires_fluxmod kernel_med !! i = Some r /\
       r !! j = Some (conv_pixel 0 hires_fluxmod kernel_med (Z.of_nat i) (Z.of_nat j))) /\
  (forall c i j,
     conv_pixel 0 hires_fluxmod (scale_kernel c kernel_med) i j
       == c * conv_pixel 0 hires_fluxmod kernel_med i j) /\
  (forall i j, ~ kernel_sum kernel_med == 0 ->
     conv_pixel 0 hires_fluxmod kernel_med i j
       == kernel_sum kernel_med
          * conv_pixel 0 hires_fluxmod (normalize kernel_med) i j) /\
  (forall (i j : nat) lrow x row y,
     lowres_image !! i = Some lrow -> lrow !! j = Some x ->
     hires_fluxmod !! i = Some row -> row !! j = Some y ->
     exists m res mrow rrow,
       residual_stage remove_lowsb false hires_fluxmod kernel_med lowres_image
         = inr (m, res) /\
       m !! i = Some mrow /\
       mrow !! j = Some (weighted_sum
                           (fun a b => filled 0 hires_fluxmod
                              (Z.of_nat i + Z.of_nat (length kernel_med) / 2 - a)
                              (Z.of_nat j + Z.of_nat (length (hd [] kernel_med)) / 2 - b))
                           0%Z kernel_med) /\
       res !! i = Some rrow /\
       rrow !! j = Some (match x with
                         | Some v => Some (v - weighted_sum
                             (fun a b => filled 0 hires_fluxmod
                                (Z.of_nat i + Z.of_nat (length kernel_med) / 2 - a)
                                (Z.of_nat j + Z.of_nat (length (hd [] kernel_med)) / 2 - b))
                             0%Z kernel_med)
                         | None => None
                         end)) /\
  (forall (i j : nat) lrow x row y,
     let stripped := remove_lowsb hires_fluxmod
                       (conv_image 0 hires_fluxmod kernel_med) kernel_med in
     lowres_image !! i = Some lrow -> lrow !! j = Some x ->
     stripped !! i = Some row -> row !! j = Some y ->
     exists m res rrow,
       residual_stage remove_lowsb true hires_fluxmod kernel_med lowres_image
         = inr (m, res) /\
       res !! i = Some rrow /\
       rrow !! j = Some (match x with
                         | Some v => Some (v - weighted_sum
                             (fun a b => filled 0 stripped
                                (Z.of_nat i + Z.of_nat (length kernel_med) / 2 - a)
                                (Z.of_nat j + Z.of_nat (length (hd [] kernel_med)) / 2 - b))
                             0%Z kernel_med)
                         | None => None
                         end)).
Proof.
  split; [reflexivity|]. split; [reflexivity|]. split; [|split; [|split; [|split]]].
  4: { intros i j lrow x row y Hi Hj Hmi Hmj.
       destruct (conv_image_lookup hires_fluxmod kernel_med i j row y Hmi Hmj)
         as (mrow & Hm1 & Hm2).
       destruct (subtract_lookup lowres_image (conv_image 0 hires_fluxmod kernel_med)
                   i j lrow x mrow _ Hi Hj Hm1 Hm2) as (rrow & Hr1 & Hr2).
       exists (conv_image 0 hires_fluxmod kernel_med),
              (subtract lowres_image (conv_image 0 hires_fluxmod kernel_med)),
              mrow, rrow.
       split; [reflexivity|]. split; [exact Hm1|]. split; [exact Hm2|].
       split; [exact Hr1 | exact Hr2]. }
  4: { intros i j lrow x row y stripped Hi Hj Hmi Hmj.
       destruct (conv_image_lookup stripped kernel_med i j row y Hmi Hmj)
         as (mrow & Hm1 & Hm2).
       destruct (subtract_lookup lowres_image (conv_image 0 stripped kernel_med)
                   i j lrow x mrow _ Hi Hj Hm1 Hm2) as (rrow & Hr1 & Hr2).
       exists (conv_image 0 stripped kernel_med),
              (subtract lowres_image (conv_image 0 stripped kernel_med)), rrow.
       split; [reflexivity|]. split; [exact Hr1 | exact Hr2]. }
  - intros i j row x. apply conv_image_lookup.
  - intros c i j. unfold scale_kernel.
    apply (conv_pixel_scale (fun k => c * k) c). intros k. reflexivity.
  - intros i j Hs. unfold normalize.
    rewrite (conv_pixel_scale (fun k => / kernel_sum kernel_med * k)
               (/ kernel_sum kernel_med)) by (intros k; reflexivity).
    rewrite Qmult_assoc, Qmult_inv_r by exact Hs. ring.
Qed.

End ResidualStageFacts.

(** With [normalize_kernel=True] the same call would divide the kernel by
    its sum: a kernel of sum 4 on a flat frame of ones gives 4 where the
    normalized kernel gives 1. A NaN pixel and the pixels past the border
    count as zero. *)
Example kernel_not_renormalized :
  (exists m, convolve_fft [[Some 1; Some 1; Some 1]] [[1; 2; 1]] 0 false true = inr m /\
             List.map length m = [3%nat]) /\
  kernel_sum [[1; 2; 1]] == 4 /\
  conv_pixel 0 [[Some 1; Some 1; Some 1]] [[1; 2; 1]] 0 1 == 4 /\
  conv_pixel 0 [[Some 1; Some 1; Some 1]] (normalize [[1; 2; 1]]) 0 1 == 1 /\
  conv_pixel 0 [[Some 1; Some 1; Some 1]] [[1; 2; 1]] 0 0 == 3 /\
  conv_pixel 0 [[Some 1; None; Some 1]] [[1; 2; 1]] 0 1 == 2.
Proof. split; [eexists; split; reflexivity|]. repeat split. Qed.

End ResidualFacts.

Module HybridFacts.

Import Hybrid.

Local Open Scope Q_scope.

Lemma sum_Q_scale_ext {A : Type} (f g : A -> Q) (t : Q) (l : list A) :
  (forall x, In x l -> f x == g x * t) ->
  sum_Q (List.map f l) == sum_Q (List.map g l) * t.
Proof.
  induction l as [|x l IH]; intros H; simpl.
  - ring.
  - rewrite (H x) by (left; reflexivity).
    rewrite IH by (intros y Hy; apply H; right; exact Hy). ring.
Qed.

(** Scaling every pixel of an array scales its sum. *)
Lemma np_sum_scale_ext (rows cols : nat) (a b : nat -> nat -> Q) (t : Q) :
  (forall i j, (i < rows)%nat -> (j < cols)%nat -> a i j == b i j * t) ->
  np_sum rows cols a == np_sum rows cols b * t.
Proof.
  intros H. unfold np_sum.
  apply (sum_Q_scale_ext (fun i => sum_Q (List.map (a i) (seq 0 cols)))
                         (fun i => sum_Q (List.map (b i) (seq 0 cols)))).
  intros i Hi. apply in_seq in Hi.
  apply sum_Q_scale_ext. intros j Hj. apply in_seq in Hj.
  apply H; lia.
Qed.

Section HybridPSFFacts.

Variable compute_Rnorm : nat -> nat -> (nat -> nat -> Q) -> nat * nat -> Q -> Q.
Variable aperture : nat * nat -> Q -> nat -> nat -> nat -> nat -> bool.
Variable psf_size : nat.
Variable hybrid_r : Q.
Variable inner_size : nat.
Variable median_psf : nat -> nat -> Q.
Variable outer_drawn : nat -> nat -> Q.

Local Abbreviation M := (np_sum inner_size inner_size median_psf).
Local Abbreviation f_inn :=
  (flux_inn compute_Rnorm hybrid_r inner_size median_psf).
Local Abbreviation f_out :=
  (flux_out compute_Rnorm psf_size hybrid_r outer_drawn).
Local Abbreviation comp :=
  (composite compute_Rnorm aperture psf_size hybrid_r inner_size median_psf outer_drawn).
Local Abbreviation S_comp := (np_sum psf_size psf_size comp).
Local Abbreviation norm_psf :=
  (normalized compute_Rnorm aperture psf_size hybrid_r inner_size median_psf outer_drawn).
Local Abbreviation final :=
  (new_psf compute_Rnorm aperture psf_size hybrid_r inner_size median_psf outer_drawn).
Local Abbreviation core := (is_core aperture psf_size hybrid_r inner_size).
Local Abbreviation off := (offset psf_size inner_size).
Local Abbreviation renorm :=
  (renormalization compute_Rnorm aperture psf_size hybrid_r inner_size median_psf
     outer_drawn).

(** The shapes fit: the stack has an odd side (so that the slice of line
    777 has its shape) and is not larger than the canvas. *)
Hypothesis inner_odd : inner_size = (2 * (inner_size / 2) + 1)%nat.
Hypothesis inner_fits : (inner_size <= psf_size)%nat.

(** The numbers the code divides by are not zero. *)
Hypothesis M_nonzero : ~ M == 0.
Hypothesis flux_inn_nonzero : ~ f_inn == 0.
Hypothesis flux_out_nonzero : ~ f_out == 0.
Hypothesis S_nonzero : ~ S_comp == 0.
Hypothesis box_nonzero :
  ~ box_sum psf_size inner_size norm_psf == 0.

(** Outside the core the canvas holds the normalized aureole times
    [flux_inn / flux_out]. *)
Lemma composite_outside_core (i j : nat) :
  core i j = false ->
  comp i j == outer_psf psf_size outer_drawn i j * (f_inn / f_out).
Proof.
  unfold is_core, composite, nan_filled, temp, embedded, inner_masked, scale_factor.
  destruct (in_box psf_size inner_size i j); simpl.
  - fold off. destruct (mask aperture hybrid_r inner_size (i - off) (j - off));
      simpl; [|discriminate].
    intros _. field. split; assumption.
  - intros _. field. split; assumption.
Qed.

(** Inside the core the hybrid PSF is the stacked PSF, rescaled. *)
Lemma new_psf_core (i j : nat) :
  core i j = true ->
  final i j == median_psf (i - off)%nat (j - off)%nat * renorm.
Proof.
  unfold is_core, new_psf, normalized, renormalization.
  unfold composite at 1. unfold nan_filled, temp, embedded, inner_masked, inner_psf.
  destruct (in_box psf_size inner_size i j); simpl; [|discriminate].
  fold off. destruct (mask aperture hybrid_r inner_size (i - off) (j - off));
    simpl; [discriminate|].
  intros _. unfold scale_factor. field. repeat split; assumption.
Qed.

Lemma in_box_shift (i j : nat) :
  (i < inner_size)%nat -> (j < inner_size)%nat ->
  in_box psf_size inner_size (i + off) (j + off) = true.
Proof.
  intros Hi Hj. unfold in_box, in_slice, offset, outer_cen, inner_cen.
  assert (H : (inner_size / 2 <= psf_size / 2)%nat)
    by (apply Nat.Div0.div_le_mono; exact inner_fits).
  rewrite !andb_true_iff, !Nat.leb_le, !Nat.ltb_lt. lia.
Qed.

(** C4: every canvas pixel outside the embedded empirical core is the
    unit-normalized aureole value times [flux_inn / flux_out]; every core
    pixel of the final hybrid PSF is the stacked PSF's pixel times the
    applied renormalization (the product of the rescalings of lines 764,
    794 and 797); hence the flux of the hybrid PSF within the hybrid radius
    is the flux of the stacked PSF within that radius times that factor. *)
Theorem hybrid_psf_core_flux :
  (forall i j, core i j = false ->
     comp i j == outer_psf psf_size outer_drawn i j * (f_inn / f_out)) /\
  (forall i j, core i j = true ->
     final i j == median_psf (i - off)%nat (j - off)%nat * renorm) /\
  core_flux_hybrid compute_Rnorm aperture psf_size hybrid_r inner_size median_psf
    outer_drawn
  == core_flux_empirical aperture hybrid_r inner_size median_psf * renorm.
Proof.
  split; [exact composite_outside_core|]. split; [exact new_psf_core|].
  unfold core_flux_hybrid, core_flux_empirical.
  apply np_sum_scale_ext. intros i j Hi Hj.
  destruct (mask aperture hybrid_r inner_size i j) eqn:Em; [ring|].
  rewrite new_psf_core.
  - rewrite !Nat.add_sub. reflexivity.
  - unfold is_core. rewrite in_box_shift by assumption.
    rewrite ?Nat.add_sub. fold off. rewrite ?Nat.add_sub, Em. reflexivity.
Qed.

End HybridPSFFacts.

Lemma hybrid_psf_core_flux_witness :
  core_flux_hybrid small_Rnorm small_aperture 5 1 3 small_stack small_aureole
  == core_flux_empirical small_aperture 1 3 small_stack
     * renormalization small_Rnorm small_aperture 5 1 3 small_stack small_aureole.
Proof.
  apply (hybrid_psf_core_flux small_Rnorm small_aperture 5 1 3 small_stack
           small_aureole); try reflexivity; try (vm_compute; lia);
    vm_compute; discriminate.
Defined.

End HybridFacts.

Module CfgFacts.

Import Py Cfg.

Lemma inr_eq {A B : Type} (x y : B) : @inr A B x = inr y -> x = y.
Proof.
  intros H.
  exact (f_equal (fun s => match s with inr v => v | inl _ => x end) H).
Qed.

(** Filling keeps what is there and takes the rest from the defaults. *)
Lemma fill_lookup (default : list (string * value)) (d : gmap string value) (k : string) :
  fill default d !! k =
  match d !! k with
  | Some v => Some v
  | None => assoc default k
  end.
Proof.
  unfold fill. revert d. induction default as [|[name v] rest IH]; intros d; simpl.
  - destruct (d !! k); reflexivity.
  - rewrite IH. destruct (String.eqb_spec name k) as [->|Hne].
    + destruct (d !! k) eqn:E; [rewrite E; reflexivity|].
      rewrite lookup_insert_eq. reflexivity.
    + destruct (d !! name) eqn:E; [reflexivity|].
      rewrite lookup_insert_ne by exact Hne. reflexivity.
Qed.

Lemma fill_fill (default : list (string * value)) (d : gmap string value) :
  fill default (fill default d) = fill default d.
Proof.
  apply map_eq. intros k. rewrite !fill_lookup.
  destruct (d !! k); [reflexivity|]. destruct (assoc default k); reflexivity.
Qed.

Lemma complete_section_inv (name : string) (default : list (string * value))
    (c c' : config) :
  complete_section name default c = inr c' ->
  exists d, c !! name = Some (Sub d) /\ c' = <[name := Sub (fill default d)]> c.
Proof.
  unfold complete_section, section.
  destruct (c !! name) as [[d|v]|]; try discriminate.
  intros H. apply inr_eq in H. subst c'. exists d. split; reflexivity.
Qed.

Lemma complete_section_err (name : string) (default : list (string * value))
    (c : config) (e : exn) :
  complete_section name default c = inl e -> e = AttributeError.
Proof.
  unfold complete_section, section.
  destruct (c !! name) as [[d|v]|]; congruence.
Qed.

Lemma complete_section_ok (name : string) (default : list (string * value))
    (c : config) (d : gmap string value) :
  c !! name = Some (Sub d) ->
  complete_section name default c = inr (<[name := Sub (fill default d)]> c).
Proof. intros H. unfold complete_section, section. rewrite H. reflexivity. Qed.

(** The result of [complete_config] in closed form. *)
Lemma complete_config_inv (c c' : config) :
  complete_config c = inr c' ->
  exists sex fluxmodel kernel starhalo clean,
    c !! "sex" = Some (Sub sex) /\ c !! "fluxmodel" = Some (Sub fluxmodel) /\
    c !! "kernel" = Some (Sub kernel) /\ c !! "starhalo" = Some (Sub starhalo) /\
    c !! "clean" = Some (Sub clean) /\
    (c !! "wide_psf" = None \/ exists w, c !! "wide_psf" = Some (Sub w)) /\
    c' = <["clean" := Sub (fill default_clean clean)]>
         (<["wide_psf" := Sub (fill default_wide_psf (user_section c "wide_psf"))]>
         (<["starhalo" := Sub (fill default_starhalo starhalo)]>
         (<["kernel" := Sub (fill default_kernel kernel)]>
         (<["fluxmodel" := Sub (fill default_fluxmodel fluxmodel)]>
         (<["sex" := Sub (fill default_sex sex)]> c))))).
Proof.
  unfold complete_config, bind.
  destruct (complete_section "sex" default_sex c) as [|c1] eqn:E1; [discriminate|].
  apply complete_section_inv in E1 as (sex & Hsex & ->).
  destruct (complete_section "fluxmodel" _ _) as [|c2] eqn:E2; [discriminate|].
  apply complete_section_inv in E2 as (fm & Hfm & ->).
  destruct (complete_section "kernel" _ _) as [|c3] eqn:E3; [discriminate|].
  apply complete_section_inv in E3 as (ke & Hke & ->).
  destruct (complete_section "starhalo" _ _) as [|c4] eqn:E4; [discriminate|].
  apply complete_section_inv in E4 as (sh & Hsh & ->).
  repeat (rewrite lookup_insert_ne in Hfm by done).
  repeat (rewrite lookup_insert_ne in Hke by done).
  repeat (rewrite lookup_insert_ne in Hsh by done).
  rewrite !lookup_insert_ne by done.
  unfold user_section.
  destruct (c !! "wide_psf") as [aw|] eqn:Ew.
  - destruct (complete_section "wide_psf" _ _) as [|c5] eqn:E5; [discriminate|].
    apply complete_section_inv in E5 as (w & Hw & ->).
    repeat (rewrite lookup_insert_ne in Hw by done). rewrite Ew in Hw. injection Hw as ->.
    intros E6. apply complete_section_inv in E6 as (cl & Hcl & ->).
    repeat (rewrite lookup_insert_ne in Hcl by done).
    exists sex, fm, ke, sh, cl.
    split; [exact Hsex|]. split; [exact Hfm|]. split; [exact Hke|].
    split; [exact Hsh|]. split; [exact Hcl|]. split; [right; eauto | reflexivity].
  - destruct (complete_section "wide_psf" _ _) as [|c5] eqn:E5; [discriminate|].
    apply complete_section_inv in E5 as (w & Hw & ->).
    rewrite lookup_insert_eq in Hw. injection Hw as <-.
    intros E6. apply complete_section_inv in E6 as (cl & Hcl & ->).
    repeat (rewrite lookup_insert_ne in Hcl by done).
    exists sex, fm, ke, sh, cl.
    split; [exact Hsex|]. split; [exact Hfm|]. split; [exact Hke|].
    split; [exact Hsh|]. split; [exact Hcl|]. split; [left; reflexivity|].
    rewrite insert_insert_eq. reflexivity.
Qed.

Lemma complete_config_ok (c : config) :
  has_sections c ->
  complete_config c =
    inr (<["clean" := Sub (fill default_clean (user_section c "clean"))]>
         (<["wide_psf" := Sub (fill default_wide_psf (user_section c "wide_psf"))]>
         (<["starhalo" := Sub (fill default_starhalo (user_section c "starhalo"))]>
         (<["kernel" := Sub (fill default_kernel (user_section c "kernel"))]>
         (<["fluxmodel" := Sub (fill default_fluxmodel (user_section c "fluxmodel"))]>
         (<["sex" := Sub (fill default_sex (user_section c "sex"))]> c)))))).
Proof.
  intros [Hreq Hwide].
  destruct (Hreq "sex"%string) as (sex & Hsex); [simpl; tauto|].
  destruct (Hreq "fluxmodel"%string) as (fm & Hfm); [simpl; tauto|].
  destruct (Hreq "kernel"%string) as (ke & Hke); [simpl; tauto|].
  destruct (Hreq "starhalo"%string) as (sh & Hsh); [simpl; tauto|].
  destruct (Hreq "clean"%string) as (cl & Hcl); [simpl; tauto|].
  unfold complete_config, bind, user_section.
  rewrite Hsex, Hfm, Hke, Hsh, Hcl.
  rewrite (complete_section_ok _ _ _ sex) by exact Hsex.
  rewrite (complete_section_ok _ _ _ fm) by (rewrite lookup_insert_ne by done; exact Hfm).
  rewrite (complete_section_ok _ _ _ ke) by (rewrite !lookup_insert_ne by done; exact Hke).
  rewrite (complete_section_ok _ _ _ sh) by (rewrite !lookup_insert_ne by done; exact Hsh).
  rewrite !lookup_insert_ne by done.
  destruct Hwide as [Hw | (w & Hw)]; rewrite Hw.
  - rewrite (complete_section_ok _ _ _ ∅) by apply lookup_insert_eq.
    rewrite insert_insert_eq.
    rewrite (complete_section_ok _ _ _ cl) by (rewrite !lookup_insert_ne by done; exact Hcl).
    reflexivity.
  - rewrite (complete_section_ok _ _ _ w) by (rewrite !lookup_insert_ne by done; exact Hw).
    rewrite (complete_section_ok _ _ _ cl) by (rewrite !lookup_insert_ne by done; exact Hcl).
    reflexivity.
Qed.

Lemma complete_config_has_sections (c c' : config) :
  complete_config c = inr c' -> has_sections c.
Proof.
  intros H. apply complete_config_inv in H
    as (sex & fm & ke & sh & cl & Hsex & Hfm & Hke & Hsh & Hcl & Hw & _).
  split; [|exact Hw].
  intros name [<- | [<- | [<- | [<- | [<- | []]]]]]; eauto.
Qed.

(** The sections of a completed configuration, key by key. *)
Lemma complete_config_filled (c c' : config) :
  complete_config c = inr c' ->
  forall name default, In (name, default) section_defaults ->
    exists d', c' !! name = Some (Sub d') /\
      forall k, d' !! k = match user_section c name !! k with
                          | Some v => Some v
                          | None => assoc default k
                          end.
Proof.
  intros H. pose proof (complete_config_has_sections _ _ H) as Hs.
  rewrite (complete_config_ok c Hs) in H. apply inr_eq in H. subst c'.
  intros name default Hin. eexists. split; [|intros k; apply fill_lookup].
  simpl in Hin.
  destruct Hin as [E | [E | [E | [E | [E | [E | []]]]]]]; injection E as <- <-;
    repeat first [ rewrite lookup_insert_eq; reflexivity
                 | rewrite lookup_insert_ne by done ].
Qed.

(** X1: [complete_config] never overwrites a value the user gave and fills
    every other default key: in each of the six sections a key reads as the
    user's value when the user set it and as the default otherwise (absent
    when there is no default either), and attributes outside the six
    sections are left as they were. *)
Theorem complete_config_lookup (c c' : config) :
  complete_config c = inr c' ->
  (forall name default, In (name, default) section_defaults ->
     exists d', c' !! name = Some (Sub d') /\
       forall k, d' !! k = match user_section c name !! k with
                           | Some v => Some v
                           | None => assoc default k
                           end) /\
  (forall name, ~ In name (List.map fst section_defaults) -> c' !! name = c !! name).
Proof.
  intros H. split; [apply (complete_config_filled c c' H)|].
  pose proof (complete_config_has_sections _ _ H) as Hs.
  rewrite (complete_config_ok c Hs) in H. apply inr_eq in H. subst c'.
  intros name Hn. simpl in Hn.
  rewrite !lookup_insert_ne; [reflexivity | ..]; intros <-; apply Hn; tauto.
Qed.

Lemma complete_config_lookup_witness :
  exists c', complete_config sample_config = inr c' /\
    exists d', c' !! "kernel"%string = Some (Sub d') /\
      d' !! "kernel_size"%string = Some (VInt 12) /\
      d' !! "kernel_edge"%string = Some (VInt 1) /\
      d' !! "frac_maxflux"%string = Some (VFloat (1 # 10)).
Proof.
  assert (Hs : has_sections sample_config).
  { split; [|left; reflexivity].
    intros name [<- | [<- | [<- | [<- | [<- | []]]]]]; eexists; reflexivity. }
  eexists. split; [apply (complete_config_ok _ Hs)|].
  destruct (complete_config_lookup sample_config _ (complete_config_ok _ Hs))
    as [Hsec _].
  destruct (Hsec "kernel"%string default_kernel) as (d' & Hd & Hk);
    [simpl; tauto|].
  exists d'. split; [exact Hd|].
  rewrite !Hk. repeat split.
Defined.

(** X2: [complete_config] is idempotent: completing a completed
    configuration changes nothing. *)
Theorem complete_config_idempotent (c c' : config) :
  complete_config c = inr c' -> complete_config c' = inr c'.
Proof.
  intros H. pose proof (complete_config_has_sections _ _ H) as Hs.
  pose proof (complete_config_filled c c' H) as Hsec.
  assert (Hs' : has_sections c').
  { split.
    - intros name Hin.
      assert (exists default, In (name, default) section_defaults) as (default & Hd).
      { simpl in Hin. destruct Hin as [<- | [<- | [<- | [<- | [<- | []]]]]];
          eexists; simpl; eauto 10. }
      destruct (Hsec _ _ Hd) as (d' & Hd' & _). eauto.
    - right. destruct (Hsec "wide_psf"%string default_wide_psf) as (d' & Hd' & _);
        [simpl; tauto | eauto]. }
  rewrite (complete_config_ok c' Hs'). f_equal.
  apply map_eq. intros name.
  assert (Hfix : forall n default, In (n, default) section_defaults ->
            Sub (fill default (user_section c' n)) = Sub (fill default (user_section c n))
            /\ c' !! n = Some (Sub (fill default (user_section c n)))).
  { intros n default Hd. destruct (Hsec _ _ Hd) as (d' & Hd' & Hk).
    assert (d' = fill default (user_section c n))
      by (apply map_eq; intros k; rewrite Hk, fill_lookup; reflexivity).
    subst d'. unfold user_section at 1. rewrite Hd'. rewrite fill_fill. auto. }
  destruct (Hfix "sex"%string default_sex) as [-> Hsex]; [simpl; tauto|].
  destruct (Hfix "fluxmodel"%string default_fluxmodel) as [-> Hfm]; [simpl; tauto|].
  destruct (Hfix "kernel"%string default_kernel) as [-> Hke]; [simpl; tauto|].
  destruct (Hfix "starhalo"%string default_starhalo) as [-> Hsh]; [simpl; tauto|].
  destruct (Hfix "wide_psf"%string default_wide_psf) as [-> Hwp]; [simpl; tauto|].
  destruct (Hfix "clean"%string default_clean) as [-> Hcl]; [simpl; tauto|].
  repeat (rewrite lookup_insert; case_decide; [subst; congruence|]).
  reflexivity.
Qed.

Lemma complete_config_idempotent_witness :
  exists c', complete_config sample_config = inr c' /\ complete_config c' = inr c'.
Proof.
  assert (Hs : has_sections sample_config).
  { split; [|left; reflexivity].
    intros name [<- | [<- | [<- | [<- | [<- | []]]]]]; eexists; reflexivity. }
  eexists. split; [apply (complete_config_ok _ Hs)|].
  apply (complete_config_idempotent sample_config). apply (complete_config_ok _ Hs).
Defined.

(** X3: [complete_config] succeeds exactly on configurations that have the
    sections sex, fluxmodel, kernel, starhalo and clean (a missing
    [wide_psf] is created and filled with its defaults); on any other
    configuration it raises [AttributeError]. *)
Theorem complete_config_sections (c : config) :
  ((exists c', complete_config c = inr c') <-> has_sections c) /\
  (forall e, complete_config c = inl e -> e = AttributeError) /\
  (c !! "wide_psf"%string = None -> forall c', complete_config c = inr c' ->
     c' !! "wide_psf"%string = Some (Sub (fill default_wide_psf ∅))).
Proof.
  split; [|split].
  - split.
    + intros (c' & H). eapply complete_config_has_sections; eauto.
    + intros Hs. eexists. apply complete_config_ok. exact Hs.
  - intros e. unfold complete_config, bind.
    repeat match goal with
           | |- context [complete_section ?n ?d ?m] =>
               let E := fresh "E" in
               destruct (complete_section n d m) eqn:E;
               [apply complete_section_err in E; congruence|]
           end.
    discriminate.
  - intros Hw c' H. pose proof (complete_config_has_sections _ _ H) as Hs.
    rewrite (complete_config_ok c Hs) in H. apply inr_eq in H. subst c'.
    rewrite lookup_insert_ne by done. rewrite lookup_insert_eq.
    unfold user_section. rewrite Hw. reflexivity.
Qed.

(** A configuration without a kernel section is refused. *)
Example complete_config_missing_section :
  complete_config (delete "kernel"%string sample_config) = inl AttributeError.
Proof. vm_compute. reflexivity. Qed.

End CfgFacts.

Module TileGeometryFacts.

Import Py Tile TileFacts.

(** X4: the band that defines the tiles is the one with the smaller frame:
    the master frame is the g or the r frame, its area is the smaller of the
    two areas, and the r band is chosen only when its area is strictly
    smaller. *)
Theorem master_band_min_area (highres_x highres_y highres_x_r highres_y_r : Z) :
  0 <= highres_x -> 0 <= highres_y -> 0 <= highres_x_r -> 0 <= highres_y_r ->
  let '(b, (mx, my)) := master_band highres_x highres_y highres_x_r highres_y_r in
  (mx, my) = (match b with R => (highres_x_r, highres_y_r) | G => (highres_x, highres_y) end) /\
  mx * my = Z.min (highres_x * highres_y) (highres_x_r * highres_y_r) /\
  (b = R -> highres_x_r * highres_y_r < highres_x * highres_y).
Proof.
  intros Hx Hy Hxr Hyr. unfold master_band.
  repeat match goal with
         | |- context [if ?b then _ else _] => destruct b eqn:?
         end;
    repeat match goal with
           | H : _ && _ = true |- _ => apply andb_true_iff in H as [? ?]
           | H : _ && _ = false |- _ => apply andb_false_iff in H
           end;
    rewrite ?Z.eqb_eq, ?Z.ltb_lt, ?Z.gtb_ltb in *;
    rewrite ?Z.eqb_neq, ?Z.ltb_lt, ?Z.ltb_ge in *;
    (split; [reflexivity|]); (split; [|try discriminate; intros _]); try nia.
Qed.

Lemma master_band_min_area_witness :
  let '(b, (mx, my)) := master_band 9000 20000 10000 17000 in
  mx * my = Z.min (9000 * 20000) (10000 * 17000) /\ b = R.
Proof.
  pose proof (master_band_min_area 9000 20000 10000 17000
                ltac:(lia) ltac:(lia) ltac:(lia) ltac:(lia)) as H.
  vm_compute in H |- *. destruct H as (_ & H & _). split; [exact H | reflexivity].
Defined.

Lemma int_nonneg (q : Q) : (0 <= q)%Q -> 0 <= int q /\ (inject_Z (int q) <= q)%Q.
Proof.
  intros Hq. unfold int.
  assert (E : Qle_bool 0 q = true) by (apply Qle_bool_iff; exact Hq).
  rewrite E. split; [|apply Qfloor_le].
  change 0 with (Qfloor 0). apply Qfloor_resp_le. exact Hq.
Qed.

(** X5: with a non-negative overlap fraction the overlap box of every tile
    contains its non-overlap box and stays inside the frame: it starts at 0
    or later and ends at [highres - 1] or earlier on both axes. *)
Theorem overlap_box_contains_nonoverlap
    (highres_x highres_y max_size : Z) (overlap : Q) (i : Z) :
  0 < highres_x -> 0 < highres_y -> 0 < max_size -> (0 <= overlap)%Q -> 0 <= i ->
  let g := tile_grid highres_x highres_y max_size overlap in
  let b := nonoverlap_box highres_x highres_y g i in
  let b' := overlap_box highres_x highres_y overlap g i in
  (0 <= xmin b' <= xmin b /\ xmax b <= xmax b' <= highres_x - 1) /\
  (0 <= ymin b' <= ymin b /\ ymax b <= ymax b' <= highres_y - 1).
Proof.
  intros Hx Hy Hm Ho Hi g b b'.
  destruct (tile_grid_sound highres_x highres_y max_size overlap)
    as (HNx & HNy & HNt & Hlx & Hly & _); try assumption.
  fold g in HNx, HNy, HNt, Hlx, Hly.
  assert (Hox : 0 <= int (overlap * inject_Z (len_x g))).
  { apply int_nonneg. apply Qmult_le_0_compat; [exact Ho|].
    apply Qlt_le_weak, inject_Z_pos. exact Hlx. }
  assert (Hoy : 0 <= int (overlap * inject_Z (len_y g))).
  { apply int_nonneg. apply Qmult_le_0_compat; [exact Ho|].
    apply Qlt_le_weak, inject_Z_pos. exact Hly. }
  assert (Hxi : 0 <= x_index g i) by (unfold x_index; apply Z.mod_pos_bound; lia).
  assert (Hyi : 0 <= y_index g i)
    by (unfold y_index; rewrite Z.quot_div_nonneg by lia; apply Z.div_pos; lia).
  subst b b'. unfold overlap_box, nonoverlap_box. cbn [xmin xmax ymin ymax].
  split; nia.
Qed.

Lemma overlap_box_contains_nonoverlap_witness :
  let g := tile_grid 16000 16000 8000 (5 # 100) in
  xmin (overlap_box 16000 16000 (5 # 100) g 4) <= xmin (nonoverlap_box 16000 16000 g 4)
  /\ xmax (nonoverlap_box 16000 16000 g 4) <= xmax (overlap_box 16000 16000 (5 # 100) g 4).
Proof.
  destruct (overlap_box_contains_nonoverlap 16000 16000 8000 (5 # 100) 4)
    as [[[_ H1] [H2 _]] _]; try lia; try discriminate.
  split; [exact H1 | exact H2].
Defined.

Lemma Qceiling_upper (a b : Q) :
  (0 < b)%Q -> (a <= inject_Z (Qceiling (a / b)) * b)%Q.
Proof.
  intros Hb. pose proof (Qle_ceiling (a / b)) as Hc.
  assert (E : (a == a / b * b)%Q) by (field; intros E0; rewrite E0 in Hb; discriminate).
  rewrite E at 1. apply Qmult_le_compat_r; [exact Hc | apply Qlt_le_weak; exact Hb].
Qed.

Lemma Qceiling_lower (a b : Q) :
  (0 < b)%Q -> ((inject_Z (Qceiling (a / b)) - 1) * b < a)%Q.
Proof.
  intros Hb. pose proof (Qceiling_lt (a / b)) as Hc.
  assert (E : (a == a / b * b)%Q) by (field; intros E0; rewrite E0 in Hb; discriminate).
  rewrite E at 2. apply Qmult_lt_compat_r; [exact Hb|].
  unfold Zminus in Hc. rewrite inject_Z_plus in Hc. exact Hc.
Qed.

(** The span of a tile along one axis, from the quantities of the grid. *)
Lemma span_bound (L O M H n v : Q) :
  (0 < n)%Q -> (0 < M)%Q -> (0 <= v)%Q -> (v < 1 # 2)%Q -> (0 <= L)%Q ->
  (O <= v * L)%Q -> ((L - 1) * n < H)%Q -> ((1 + 2 * v) * H <= n * M)%Q ->
  (L + 2 * O < M + 2)%Q.
Proof.
  intros Hn HM Hv0 Hv HL HO H2 H3.
  assert (H4 : ((L - 1) * (1 + 2 * v) < M)%Q).
  { assert (((L - 1) * (1 + 2 * v)) * n < M * n)%Q by nra. nra. }
  nra.
Qed.

Lemma axis_span (h max_size : Z) (overlap : Q) :
  0 < h -> 0 < max_size -> (0 <= overlap)%Q -> (overlap < 1 # 2)%Q ->
  let N := np_ceil ((1 + 2 * overlap) * inject_Z h / inject_Z max_size) in
  let len := np_ceil (inject_Z h / inject_Z N) in
  len + 2 * int (overlap * inject_Z len) <= max_size + 1.
Proof.
  intros Hh Hm Ho Ho2 N len.
  assert (HN : 0 < N) by (apply grid_count_pos; assumption).
  assert (Hlen : 0 < len) by (apply Qceiling_div_pos; assumption).
  assert (HNq : (0 < inject_Z N)%Q) by (apply inject_Z_pos; exact HN).
  assert (HMq : (0 < inject_Z max_size)%Q) by (apply inject_Z_pos; exact Hm).
  assert (HLq : (0 <= inject_Z len)%Q) by (apply Qlt_le_weak, inject_Z_pos; exact Hlen).
  destruct (int_nonneg (overlap * inject_Z len)) as [_ HO];
    [apply Qmult_le_0_compat; assumption|].
  pose proof (Qceiling_lower (inject_Z h) (inject_Z N) HNq) as H2.
  pose proof (Qceiling_upper ((1 + 2 * overlap) * inject_Z h) (inject_Z max_size) HMq) as H3.
  fold len in H2. unfold np_ceil in N. fold N in H3.
  assert (Hq : (inject_Z len + 2 * inject_Z (int (overlap * inject_Z len))
                < inject_Z max_size + 2)%Q).
  { apply (span_bound _ _ _ (inject_Z h) (inject_Z N) overlap); assumption. }
  assert (Hz : len + 2 * int (overlap * inject_Z len) < max_size + 2).
  { rewrite Zlt_Qlt, !inject_Z_plus, inject_Z_mult. exact Hq. }
  lia.
Qed.

(** X6: the grid keeps the tiles within the size asked for: with an overlap
    fraction in [0, 0.5) every tile, overlap included, spans at most
    [max_size + 1] pixels along each axis. *)
Theorem tile_span_bounded
    (highres_x highres_y max_size : Z) (overlap : Q) (i : Z) :
  0 < highres_x -> 0 < highres_y -> 0 < max_size ->
  (0 <= overlap)%Q -> (overlap < 1 # 2)%Q ->
  let g := tile_grid highres_x highres_y max_size overlap in
  let b' := overlap_box highres_x highres_y overlap g i in
  x_size b' <= max_size + 1 /\ y_size b' <= max_size + 1.
Proof.
  intros Hx Hy Hm Ho Ho2 g b'.
  pose proof (axis_span highres_x max_size overlap Hx Hm Ho Ho2) as Hsx.
  pose proof (axis_span highres_y max_size overlap Hy Hm Ho Ho2) as Hsy.
  cbv zeta in Hsx, Hsy.
  change (np_ceil (inject_Z highres_x / inject_Z
            (np_ceil ((1 + 2 * overlap) * inject_Z highres_x / inject_Z max_size))))
    with (len_x g) in Hsx.
  change (np_ceil (inject_Z highres_y / inject_Z
            (np_ceil ((1 + 2 * overlap) * inject_Z highres_y / inject_Z max_size))))
    with (len_y g) in Hsy.
  subst b'. unfold x_size, y_size, overlap_box, nonoverlap_box.
  cbn [xmin xmax ymin ymax]. split; lia.
Qed.

Lemma tile_span_bounded_witness :
  x_size (overlap_box 16000 16000 (5 # 100) (tile_grid 16000 16000 8000 (5 # 100)) 4)
    <= 8000 + 1.
Proof.
  refine (proj1 (tile_span_bounded 16000 16000 8000 (5 # 100) 4 _ _ _ _ _));
    [lia | lia | lia | discriminate | reflexivity].
Defined.

End TileGeometryFacts.

Module TileLoopFacts.

Import Py Tile TileRun TileRunFacts TileLoop.

Lemma exists_file_cons (f g : file) (fs : list file) :
  exists_file f (g :: fs) = bool_decide (f = g) || exists_file f fs.
Proof.
  unfold exists_file. apply eq_true_iff_eq.
  rewrite orb_true_iff, !bool_decide_eq_true, elem_of_cons. tauto.
Qed.

Lemma exists_file_true (f : file) (fs : list file) :
  exists_file f fs = true <-> f ∈ fs.
Proof. unfold exists_file. apply bool_decide_eq_true. Qed.

Lemma exists_file_write (f g : file) (s : state) :
  exists_file f (files (write g s)) = bool_decide (f = g) || exists_file f (files s).
Proof. apply exists_file_cons. Qed.

(** A property kept by every completed iteration is kept by the loop. *)
Lemma for_each_inv (P : state -> Prop) (body : Z -> state -> result)
    (l : list Z) (s s' : state) :
  (forall i s s', In i l -> P s -> body i s = Done s' -> P s') ->
  P s -> for_each l body s = Done s' -> P s'.
Proof.
  revert s. induction l as [|i l IH]; intros s Hbody Hs; simpl.
  - intros [= <-]. exact Hs.
  - destruct (body i s) as [s1|e s1] eqn:E1; simpl; [|discriminate].
    apply IH.
    + intros i0 t t' Hin. apply Hbody. right. exact Hin.
    + eapply Hbody; eauto. left. reflexivity.
Qed.

Section LoopFacts.

Variable w : world.
Variable c : config.

Lemma cut_tile_inv (hx hy : Z) (g : grid) (i : Z) (s : state) :
  skip_cut_tile c = false -> cut_inv s ->
  match cut_tile w c hx hy g i s with
  | Done s' => cut_inv s' /\ j s' + skipped s' = j s + skipped s + 1
  | Raised e _ =>
      e = NoOverlapError /\ tile_off_image w c hx hy g i = false /\
      tile_off_hires w c hx hy g i = true
  end.
Proof.
  intros Hskip (Hj & Hsk & Hx & Hy & Hxl & Hyl & Hf).
  unfold cut_tile, tile_off_image, tile_off_hires. rewrite Hskip.
  destruct (lowres_no_overlap w _ _ _ _).
  - split; [|simpl; lia]. unfold cut_inv. simpl. repeat split; try lia; apply Hf; lia.
  - destruct (hires_no_overlap w G _ _ _ _); [repeat split|].
    destruct (hires_no_overlap w R _ _ _ _); [repeat split|].
    split; [|simpl; lia]. unfold cut_inv. simpl.
    rewrite !length_app. simpl.
    split; [lia|]. split; [lia|]. repeat (split; [lia|]).
    intros k Hk. rewrite !exists_file_true, !elem_of_cons.
    destruct (Z.eq_dec k (j s)) as [->|Hne].
    + repeat split; auto.
    + destruct (Hf k) as (H1 & H2 & H3); [lia|].
      apply exists_file_true in H1, H2, H3. repeat split; auto.
Qed.

Lemma cut_loop_inv (hx hy : Z) (g : grid) (l : list Z) : forall s : state,
  skip_cut_tile c = false -> cut_inv s ->
  match for_each l (cut_tile w c hx hy g) s with
  | Done s' => cut_inv s' /\ j s' + skipped s' = j s + skipped s + Z.of_nat (length l)
  | Raised e _ =>
      e = NoOverlapError /\
      exists i, In i l /\ tile_off_image w c hx hy g i = false /\
                tile_off_hires w c hx hy g i = true
  end.
Proof.
  induction l as [|i l IH]; intros s Hskip Hinv.
  - simpl. split; [exact Hinv | lia].
  - pose proof (cut_tile_inv hx hy g i s Hskip Hinv) as H1. simpl.
    destruct (cut_tile w c hx hy g i s) as [s1|e s1]; simpl.
    + destruct H1 as (Hinv1 & Hc1). specialize (IH s1 Hskip Hinv1).
      destruct (for_each l (cut_tile w c hx hy g) s1) as [s'|e s'].
      * destruct IH as (Hinv' & Hc'). split; [exact Hinv'|]. simpl length. lia.
      * destruct IH as (He & i0 & Hin & Hoff). split; [exact He|].
        exists i0. split; [right; exact Hin | exact Hoff].
    + destruct H1 as (He & Hoff). split; [exact He|].
      exists i. split; [left; reflexivity | exact Hoff].
Qed.

(** X7: the cutting loop keeps its books straight. Whenever it completes,
    every grid tile is either numbered or counted as skipped
    ([j + skipped = N_tiles]), the four tile lists have [j] entries each,
    and the three cutouts of every tile number below [j] are on disk. The
    one exception it lets out is the NoOverlapError of a g or r cutout,
    made outside the [try], on a tile that does overlap the low-resolution
    image; when no grid tile is in that case the loop completes. *)
Theorem cut_loop_bookkeeping (hx hy : Z) (g : grid) :
  skip_cut_tile c = false -> 0 <= N_tiles g ->
  let loop := for_each (range (N_tiles g)) (cut_tile w c hx hy g) (init_state w) in
  (forall s, loop = Done s ->
     j s + skipped s = N_tiles g /\ 0 <= j s /\ 0 <= skipped s /\
     length (tiles_xcen s) = Z.to_nat (j s) /\ length (tiles_ycen s) = Z.to_nat (j s) /\
     length (tiles_xlen s) = Z.to_nat (j s) /\ length (tiles_ylen s) = Z.to_nat (j s) /\
     forall k, 0 <= k < j s ->
       exists_file (LowresTile k) (files s) = true /\
       exists_file (HiresTile G k) (files s) = true /\
       exists_file (HiresTile R k) (files s) = true) /\
  (forall e s, loop = Raised e s ->
     e = NoOverlapError /\
     exists i, 0 <= i < N_tiles g /\ tile_off_image w c hx hy g i = false /\
               tile_off_hires w c hx hy g i = true) /\
  ((forall i, 0 <= i < N_tiles g ->
      tile_off_image w c hx hy g i = true \/ tile_off_hires w c hx hy g i = false) ->
   exists s, loop = Done s).
Proof.
  intros Hskip HN loop.
  assert (H0 : cut_inv (init_state w)).
  { unfold cut_inv. simpl. repeat split; try lia. }
  pose proof (cut_loop_inv hx hy g (range (N_tiles g)) (init_state w) Hskip H0) as H.
  fold loop in H.
  assert (Hraise : forall e s, loop = Raised e s ->
            e = NoOverlapError /\
            exists i, 0 <= i < N_tiles g /\ tile_off_image w c hx hy g i = false /\
                      tile_off_hires w c hx hy g i = true).
  { intros e s E. rewrite E in H. destruct H as (He & i & Hin & Hoff).
    split; [exact He|]. exists i. split; [apply PyFacts.in_range; exact Hin | exact Hoff]. }
  split; [|split; [exact Hraise|]].
  - intros s E. rewrite E in H.
    destruct H as ((Hj & Hsk & Hx & Hy & Hxl & Hyl & Hf) & Hc).
    rewrite PyFacts.range_length in Hc by exact HN. simpl in Hc.
    repeat split; try assumption; try lia; apply Hf; assumption.
  - intros Hok. destruct loop as [s|e s] eqn:E; [exists s; reflexivity|].
    destruct (Hraise e s eq_refl) as (_ & i & Hi & Hoff1 & Hoff2).
    destruct (Hok i Hi); congruence.
Qed.

(** The binning loop on tiles whose cutouts are on disk. *)
Lemma rebin_loop_done (l : list Z) (s : state) :
  (forall k, In k l -> exists_file (HiresTile G k) (files s) = true /\
                       exists_file (HiresTile R k) (files s) = true) ->
  exists s', for_each l rebin_tile s = Done s' /\
    (forall f, exists_file f (files s) = true -> exists_file f (files s') = true) /\
    (forall k, In k l -> exists_file (BinnedTile G k) (files s') = true /\
                         exists_file (BinnedTile R k) (files s') = true) /\
    j s' = j s /\ skipped s' = skipped s.
Proof.
  revert s. induction l as [|i l IH]; intros s Hf.
  - exists s. simpl. repeat split; auto; intros k [].
  - destruct (Hf i) as (HG & HR); [left; reflexivity|].
    set (s1 := write (BinnedTile R i) (write (BinnedTile G i) s)).
    assert (E1 : rebin_tile i s = Done s1).
    { unfold rebin_tile. rewrite HG. simpl.
      rewrite exists_file_cons, HR, orb_true_r. reflexivity. }
    assert (Hmono : forall f, exists_file f (files s) = true ->
                              exists_file f (files s1) = true).
    { intros f H. unfold s1. rewrite !exists_file_write, H, !orb_true_r. reflexivity. }
    destruct (IH s1) as (s' & E' & Hm' & Hb' & Hj' & Hs').
    { intros k Hk. destruct (Hf k) as (H1 & H2); [right; exact Hk|]. split; apply Hmono; assumption. }
    exists s'. simpl. rewrite E1. simpl. split; [exact E'|]. split; [|split].
    + intros f H. apply Hm', Hmono, H.
    + intros k [<- | Hk]; [|apply Hb'; exact Hk].
      split; apply Hm'; unfold s1; apply exists_file_true; simpl;
        rewrite !elem_of_cons; auto.
    + split; [rewrite Hj' | rewrite Hs']; reflexivity.
Qed.

(** X8: the binning stage fits the cutting stage: run after the cutting
    loop it iterates over exactly the [j] numbered tiles, finds every cutout
    it opens, never raises, and leaves a binned g and r tile for each. *)
Theorem rebin_after_cut_completes (hx hy : Z) (g : grid) (s : state) :
  skip_cut_tile c = false -> 0 <= N_tiles g ->
  for_each (range (N_tiles g)) (cut_tile w c hx hy g) (init_state w) = Done s ->
  N_tiles g - skipped s = j s /\
  exists s', for_each (range (N_tiles g - skipped s)) rebin_tile s = Done s' /\
    forall k, 0 <= k < j s ->
      exists_file (BinnedTile G k) (files s') = true /\
      exists_file (BinnedTile R k) (files s') = true.
Proof.
  intros Hskip HN E.
  assert (H0 : cut_inv (init_state w)).
  { unfold cut_inv. simpl. repeat split; try lia. }
  pose proof (cut_loop_inv hx hy g (range (N_tiles g)) (init_state w) Hskip H0) as H.
  rewrite E in H. destruct H as ((Hj & Hsk & _ & _ & _ & _ & Hf) & Hc).
  rewrite PyFacts.range_length in Hc by exact HN. simpl in Hc.
  assert (Hn : N_tiles g - skipped s = j s) by lia.
  split; [exact Hn|]. rewrite Hn.
  destruct (rebin_loop_done (range (j s)) s) as (s' & E' & _ & Hb & _).
  { intros k Hk. apply PyFacts.in_range in Hk. destruct (Hf k Hk) as (_ & H2 & H3). auto. }
  exists s'. split; [exact E'|]. intros k Hk. apply Hb, PyFacts.in_range, Hk.
Qed.

Lemma mrf_tile_cases (i : Z) (s : state) :
  match mrf_run w i with
  | None =>
      exists s', mrf_tile w i s = Done s' /\ mrf_calls s' = mrf_calls s ++ [i] /\
                 bad_tiles s' = bad_tiles s /\
                 files s' = TileMask i :: Halosub i :: files s
  | Some e =>
      if caught (Some e)
      then exists s', mrf_tile w i s = Done s' /\ mrf_calls s' = mrf_calls s ++ [i] /\
                      bad_tiles s' = bad_tiles s ++ [i] /\
                      forall f, exists_file f (files s) = true ->
                                exists_file f (files s') = true
      else exists s', mrf_tile w i s = Raised e s' /\
                      mrf_calls s' = mrf_calls s ++ [i]
  end.
Proof.
  unfold mrf_tile.
  destruct (mrf_run w i) as [e|]; [|simpl; eexists; repeat split; reflexivity].
  destruct (mrf_progress w i); destruct e; simpl; eexists;
    repeat (split; [reflexivity|]);
    first [ reflexivity
          | intros f Hf; simpl; rewrite ?exists_file_cons, Hf, ?orb_true_r; reflexivity ].
Qed.

(** X9: a tile on which [MrfTask.run] raises one of the three caught
    exceptions does not stop the MRF loop: as long as no other exception
    occurs the loop visits every tile of its range in order, records
    exactly the failing ones as bad, and leaves a halo-subtracted image and
    a mask for each of the others. *)
Theorem mrf_loop_visits_all (l : list Z) (s : state) :
  (forall i, In i l -> mrf_run w i = None \/ caught (mrf_run w i) = true) ->
  exists s', for_each l (mrf_tile w) s = Done s' /\
    mrf_calls s' = mrf_calls s ++ l /\
    bad_tiles s' = bad_tiles s ++ List.filter (fun i => caught (mrf_run w i)) l /\
    forall i, In i l -> mrf_run w i = None ->
      exists_file (Halosub i) (files s') = true /\
      exists_file (TileMask i) (files s') = true.
Proof.
  revert s. induction l as [|i l IH]; intros s Hok.
  - exists s. simpl. rewrite !app_nil_r.
    split; [reflexivity|]. split; [reflexivity|]. split; [reflexivity|].
    intros i0 [].
  - assert (Hl : forall i0, In i0 l -> mrf_run w i0 = None \/ caught (mrf_run w i0) = true)
      by (intros i0 Hi0; apply Hok; right; exact Hi0).
    pose proof (mrf_tile_cases i s) as Hi.
    assert (Hmono : forall l' s1 s2, for_each l' (mrf_tile w) s1 = Done s2 ->
              forall f, exists_file f (files s1) = true -> exists_file f (files s2) = true).
    { intros l' s1 s2 E f Hf. revert E.
      apply (for_each_inv (fun t => exists_file f (files t) = true)); [|exact Hf].
      intros i0 t t' _ Ht Et. pose proof (mrf_tile_cases i0 t) as Hc.
      destruct (mrf_run w i0) as [e|].
      - destruct (caught (Some e)); destruct Hc as (t1 & E1 & Hrest); rewrite E1 in Et;
          [|discriminate]. injection Et as <-.
        destruct Hrest as (_ & _ & Hm). apply Hm. exact Ht.
      - destruct Hc as (t1 & E1 & _ & _ & Hfs). rewrite E1 in Et. injection Et as <-.
        rewrite Hfs, !exists_file_cons, Ht, !orb_true_r. reflexivity. }
    destruct (mrf_run w i) as [e|] eqn:Ei.
    + destruct (Hok i (or_introl eq_refl)) as [H | H]; rewrite Ei in H; [discriminate|].
      rewrite H in Hi. destruct Hi as (s1 & E1 & Hc1 & Hb1 & Hf1).
      destruct (IH s1 Hl) as (s' & E' & Hc' & Hb' & Hf').
      exists s'. simpl. rewrite E1. simpl. split; [exact E'|].
      rewrite Ei, H, Hc', Hc1, Hb', Hb1, <- !app_assoc.
      split; [reflexivity|]. split; [reflexivity|].
      intros i0 [<- | Hi0] Hn; [congruence | apply Hf'; assumption].
    + destruct Hi as (s1 & E1 & Hc1 & Hb1 & Hf1).
      destruct (IH s1 Hl) as (s' & E' & Hc' & Hb' & Hf').
      exists s'. simpl. rewrite E1. simpl. split; [exact E'|].
      rewrite Ei. simpl caught. cbv iota. rewrite Hc', Hc1, Hb', Hb1, <- !app_assoc.
      split; [reflexivity|]. split; [reflexivity|].
      intros i0 [<- | Hi0] Hn; [|apply Hf'; assumption].
      split; apply (Hmono l s1 s' E'); rewrite Hf1; apply exists_file_true;
        rewrite !elem_of_cons; auto.
Qed.

(** Nothing but an MRF run on tile [i0] that gets as far as saving it
    writes the halo-subtracted image of the tile. *)
Lemma cut_tile_keeps_missing (i0 : Z) (hx hy : Z) (g : grid) (i : Z) (s s' : state) :
  exists_file (Halosub i0) (files s) = false ->
  cut_tile w c hx hy g i s = Done s' -> exists_file (Halosub i0) (files s') = false.
Proof.
  intros H. unfold cut_tile.
  repeat match goal with |- context [if ?b then _ else _] => destruct b end;
    intros [= <-]; simpl; rewrite ?exists_file_cons;
    repeat (rewrite bool_decide_eq_false_2 by congruence); exact H.
Qed.

Lemma rebin_tile_keeps_missing (i0 i : Z) (s s' : state) :
  exists_file (Halosub i0) (files s) = false ->
  rebin_tile i s = Done s' -> exists_file (Halosub i0) (files s') = false.
Proof.
  intros H. unfold rebin_tile.
  repeat match goal with |- context [if ?b then _ else _] => destruct b end;
    intros [= <-]; simpl; rewrite ?exists_file_cons;
    repeat (rewrite bool_decide_eq_false_2 by congruence); exact H.
Qed.

Lemma mrf_tile_keeps_missing (i0 i : Z) (s s' : state) :
  mrf_run w i0 <> None -> mrf_progress w i0 = NothingWritten ->
  exists_file (Halosub i0) (files s) = false ->
  mrf_tile w i s = Done s' -> exists_file (Halosub i0) (files s') = false.
Proof.
  intros Hbad Hprog H. unfold mrf_tile.
  destruct (mrf_run w i) as [e|] eqn:Ei.
  - destruct (mrf_progress w i) eqn:Ep.
    + destruct e; intros [= <-]; simpl; exact H.
    + assert (i <> i0) by congruence.
      destruct e; intros [= <-]; simpl; rewrite ?exists_file_cons;
        repeat (rewrite bool_decide_eq_false_2 by congruence); exact H.
    + assert (i <> i0) by congruence.
      destruct e; intros [= <-]; simpl; rewrite ?exists_file_cons;
        repeat (rewrite bool_decide_eq_false_2 by congruence); exact H.
  - assert (i <> i0) by congruence. intros [= <-]. simpl.
    rewrite ?exists_file_cons.
    repeat (rewrite bool_decide_eq_false_2 by congruence). exact H.
Qed.

Lemma trim_tile_keeps_missing (i0 i : Z) (s s' : state) :
  exists_file (Halosub i0) (files s) = false ->
  trim_tile w i s = Done s' -> exists_file (Halosub i0) (files s') = false.
Proof.
  intros H. unfold trim_tile.
  repeat match goal with
         | |- context [match ?o with Some _ => _ | None => _ end] => destruct o
         | |- context [if ?b then _ else _] => destruct b
         end; intros [= <-]; simpl; rewrite ?exists_file_cons;
    repeat (rewrite bool_decide_eq_false_2 by congruence); exact H.
Qed.

Lemma trim_loop_missing_raises (i0 : Z) (l : list Z) (s : state) :
  In i0 l -> exists_file (Halosub i0) (files s) = false ->
  is_raised (for_each l (trim_tile w) s).
Proof.
  revert s. induction l as [|i l IH]; intros s Hin Hmiss; [destruct Hin|].
  simpl. destruct (trim_tile w i s) as [s1|e s1] eqn:E1; simpl; [|exact I].
  destruct Hin as [-> | Hin].
  - exfalso. unfold trim_tile in E1. rewrite Hmiss in E1. simpl in E1.
    repeat match type of E1 with
           | context [match ?o with Some _ => _ | None => _ end] => destruct o
           end; discriminate.
  - apply IH; [exact Hin|]. eapply trim_tile_keeps_missing; eauto.
Qed.

(** X10: a tile on which [MrfTask.run] fails before it has saved its
    halo-subtracted image is not survived by the run, caught exception or
    not: nothing else writes that file, and unless a stale one is on disk
    the trimming loop, which opens it for every grid number, raises;
    stitching is never reached. *)
Theorem failed_tile_aborts_run :
  tilemode (highres_x_g c) (highres_y_g c) (max_size c) = true ->
  skip_trim c = false ->
  (let '(_, (hx, hy)) :=
     master_band (highres_x_g c) (highres_y_g c) (highres_x_r c) (highres_y_r c) in
   exists i0, 0 <= i0 < N_tiles (tile_grid hx hy (max_size c) (overlap c)) /\
              mrf_run w i0 <> None /\ mrf_progress w i0 = NothingWritten /\
              exists_file (Halosub i0) (files0 w) = false) ->
  is_raised (run w c).
Proof.
  intros Htile Htrim. unfold run, run_tiled. rewrite Htile, Htrim.
  destruct (master_band _ _ _ _) as [mb [hx hy]].
  set (g := tile_grid hx hy (max_size c) (overlap c)).
  intros (i0 & Hi0 & Hbad & Hprog & Hmiss).
  set (P := fun t : state => exists_file (Halosub i0) (files t) = false).
  assert (Htail : forall s, P s ->
            is_raised (when true (for_each (range (N_tiles g)) (trim_tile w)) s
                         >>= fun s => stitch_stage c s)).
  { intros s Hs. apply is_raised_bind. unfold when.
    apply (trim_loop_missing_raises i0); [apply PyFacts.in_range; exact Hi0 | exact Hs]. }
  destruct (for_each _ (cut_tile w c hx hy g) _) as [s1|e s1] eqn:E1; simpl bind; [|exact I].
  assert (H1 : P s1).
  { revert E1. apply (for_each_inv P); [|exact Hmiss].
    intros i t t' _ Ht. apply cut_tile_keeps_missing. exact Ht. }
  unfold when at 1. destruct (negb (skip_rebin c)).
  - destruct (for_each _ rebin_tile s1) as [s2|e s2] eqn:E2; simpl bind; [|exact I].
    assert (H2 : P s2).
    { revert E2. apply (for_each_inv P); [|exact H1].
      intros i t t' _ Ht. apply rebin_tile_keeps_missing. exact Ht. }
    unfold when at 1. destruct (negb (skip_mrf c)).
    + destruct (for_each _ (mrf_tile w) s2) as [s3|e s3] eqn:E3; simpl bind; [|exact I].
      apply Htail. revert E3. apply (for_each_inv P); [|exact H2].
      intros i t t' _ Ht. apply mrf_tile_keeps_missing; assumption.
    + simpl bind. apply Htail. exact H2.
  - simpl bind. unfold when at 1. destruct (negb (skip_mrf c)).
    + destruct (for_each _ (mrf_tile w) s1) as [s3|e s3] eqn:E3; simpl bind; [|exact I].
      apply Htail. revert E3. apply (for_each_inv P); [|exact H1].
      intros i t t' _ Ht. apply mrf_tile_keeps_missing; assumption.
    + simpl bind. apply Htail. exact H1.
Qed.

End LoopFacts.

Lemma cut_loop_bookkeeping_witness :
  exists s,
    for_each (range 9)
      (cut_tile corner_missing_world (default_config 16000 16000) 16000 16000
         (tile_grid 16000 16000 8000 (5 # 100))) (init_state corner_missing_world)
      = Done s /\ j s + skipped s = 9.
Proof.
  pose proof (cut_loop_bookkeeping corner_missing_world (default_config 16000 16000)
                16000 16000 (tile_grid 16000 16000 8000 (5 # 100)) eq_refl
                ltac:(vm_compute; discriminate)) as (Hdone & _ & Hcompletes).
  destruct Hcompletes as (s & E).
  - intros i Hi. right. reflexivity.
  - exists s. split; [exact E|]. destruct (Hdone s E) as (Hc & _). exact Hc.
Defined.

(** The exception the loop lets out: an r frame that misses the last tile
    stops the run in the cutting loop, after the low-resolution cutout of
    that tile has been written. *)
Example r_band_short_cut_raises :
  exists s,
    run r_band_short_world (default_config 16000 16000) = Raised NoOverlapError s /\
    j s = 8 /\ skipped s = 0 /\
    exists_file (LowresTile 8) (files s) = true /\
    exists_file (HiresTile G 8) (files s) = false /\
    mrf_calls s = [].
Proof. eexists. split; [vm_compute; reflexivity|]. vm_compute. repeat split. Qed.

Lemma rebin_after_cut_completes_witness :
  exists s s',
    for_each (range 9)
      (cut_tile corner_missing_world (default_config 16000 16000) 16000 16000
         (tile_grid 16000 16000 8000 (5 # 100))) (init_state corner_missing_world)
      = Done s /\
    for_each (range (9 - skipped s)) rebin_tile s = Done s'.
Proof.
  assert (E : exists s,
            for_each (range 9)
              (cut_tile corner_missing_world (default_config 16000 16000) 16000 16000
                 (tile_grid 16000 16000 8000 (5 # 100))) (init_state corner_missing_world)
            = Done s) by (eexists; vm_compute; reflexivity).
  destruct E as (s & E).
  destruct (rebin_after_cut_completes corner_missing_world (default_config 16000 16000)
              16000 16000 (tile_grid 16000 16000 8000 (5 # 100)) s)
    as (_ & s' & E' & _); [reflexivity | vm_compute; discriminate | exact E |].
  exists s, s'. split; [exact E | exact E'].
Defined.

Lemma mrf_loop_visits_all_witness :
  exists s',
    for_each (range 4) (mrf_tile one_bad_tile_world) (init_state one_bad_tile_world)
      = Done s' /\
    mrf_calls s' = [0; 1; 2; 3] /\ bad_tiles s' = [2].
Proof.
  destruct (mrf_loop_visits_all one_bad_tile_world (range 4)
              (init_state one_bad_tile_world)) as (s' & E & Hc & Hb & _).
  - intros i Hi. apply PyFacts.in_range in Hi.
    assert (i = 0 \/ i = 1 \/ i = 2 \/ i = 3) as [-> | [-> | [-> | ->]]] by lia;
      vm_compute; auto.
  - exists s'. split; [exact E|]. split; [exact Hc | exact Hb].
Defined.

Lemma failed_tile_aborts_run_witness :
  is_raised (run one_bad_tile_world (default_config 12001 12001)).
Proof.
  apply failed_tile_aborts_run; try reflexivity.
  exists 2. split; [vm_compute; split; [discriminate | reflexivity]|].
  split; [discriminate|]. split; reflexivity.
Defined.

(** The run with one caught failure, step by step: the MRF loop goes on to
    tile 3, and the trimming loop stops at tile 2 with
    [FileNotFoundError]. *)
Example failed_tile_run_example :
  exists s, run one_bad_tile_world (default_config 12001 12001)
              = Raised FileNotFoundError s /\
            mrf_calls s = [0; 1; 2; 3] /\ bad_tiles s = [2] /\
            exists_file (FinalTile 1) (files s) = true /\
            exists_file (FinalTile 3) (files s) = false.
Proof. eexists. split; [vm_compute; reflexivity|]. vm_compute. repeat split. Qed.

(** A failure that comes late is another matter: when the task raises a
    caught exception after saving its halo-subtracted image and its mask,
    the tile is recorded as bad, yet the files are there, the trimming loop
    trims them and the run completes. *)
Example late_failure_run_completes :
  exists s, run late_failure_world (default_config 12001 12001) = Done s /\
            mrf_calls s = [0; 1; 2; 3] /\ bad_tiles s = [2] /\
            exists_file (FinalTile 2) (files s) = true /\
            exists_file FinalImage (files s) = true.
Proof. eexists. split; [vm_compute; reflexivity|]. vm_compute. repeat split. Qed.

End TileLoopFacts.

Module StarSelectFacts.

Import Py FVal StarSelect.

Local Open Scope Q_scope.

#[local] Instance flux_le_trans : Transitive flux_le.
Proof. intros a b c. unfold flux_le. apply Qle_trans. Qed.

#[local] Instance flux_ge_trans : Transitive (flip flux_le).
Proof. intros a b c H1 H2. unfold flip, flux_le in *. eapply Qle_trans; eauto. Qed.

#[local] Instance flux_le_total : Total flux_le.
Proof.
  intros a b. unfold flux_le.
  destruct (Qlt_le_dec (flux b) (flux a)) as [H | H]; [right; apply Qlt_le_weak|left]; exact H.
Qed.

Lemma filter_passes (cfg : starhalo) (ny nx : Z) (l : list obj) :
  List.filter (non_edge cfg ny nx)
    (List.filter saturation_cut
       (List.filter (bright_cut cfg) (List.filter (fwhm_cut cfg) l)))
  = List.filter (passes cfg ny nx) l.
Proof.
  induction l as [|o l IH]; [reflexivity|]. unfold passes in *. simpl.
  destruct (fwhm_cut cfg o); simpl; [|exact IH].
  destruct (bright_cut cfg o); simpl; [|exact IH].
  destruct (saturation_cut o); simpl; [|exact IH].
  destruct (non_edge cfg ny nx o); simpl; [f_equal|]; exact IH.
Qed.

Section SelectFacts.

Variable table_sort : list obj -> list obj.
Hypothesis table_sort_sorted : forall l, Sorted flux_le (table_sort l).
Hypothesis table_sort_perm : forall l, table_sort l ≡ₚ l.

(** X11: the stars chosen for stacking are the brightest survivors of the
    cuts. For a non-negative [n_stack], every chosen star passes the FWHM,
    magnitude, saturation and edge cuts; at most [int(n_stack)] stars are
    chosen (all survivors when there are fewer); they come in descending
    order of flux; and the survivors left out are none of them brighter
    than any chosen star. *)
Theorem select_psf_stars_brightest
    (cfg : starhalo) (ny nx : Z) (bright_star_cat : list obj) :
  (0 <= int (n_stack cfg))%Z ->
  let chosen := select_psf_stars table_sort cfg ny nx bright_star_cat in
  let survivors := List.filter (passes cfg ny nx) bright_star_cat in
  Forall (fun o => passes cfg ny nx o = true /\ In o bright_star_cat) chosen /\
  length chosen = Nat.min (Z.to_nat (int (n_stack cfg))) (length survivors) /\
  StronglySorted (flip flux_le) chosen /\
  exists rest, chosen ++ rest ≡ₚ survivors /\
    forall a b, a ∈ chosen -> b ∈ rest -> flux b <= flux a.
Proof.
  intros Hn chosen survivors.
  set (sorted := reverse (table_sort survivors)).
  assert (Hchosen : chosen = take (Z.to_nat (int (n_stack cfg))) sorted).
  { unfold chosen, select_psf_stars. rewrite filter_passes. unfold slice_to.
    destruct (int (n_stack cfg) <? 0)%Z eqn:E; [apply Z.ltb_lt in E; lia|].
    reflexivity. }
  assert (Hperm : sorted ≡ₚ survivors).
  { unfold sorted. rewrite reverse_Permutation. apply table_sort_perm. }
  assert (Hsorted : StronglySorted (flip flux_le) sorted).
  { apply Sorted_StronglySorted; [apply flux_ge_trans|].
    apply Sorted_reverse, table_sort_sorted. }
  rewrite <- (take_drop (Z.to_nat (int (n_stack cfg))) sorted) in Hperm, Hsorted.
  rewrite <- Hchosen in Hperm, Hsorted.
  split; [|split; [|split]].
  - apply Forall_forall. intros o Ho.
    assert (Hin : o ∈ survivors).
    { rewrite <- Hperm. apply elem_of_app. left. exact Ho. }
    apply list_elem_of_In in Hin. unfold survivors in Hin.
    apply filter_In in Hin. tauto.
  - rewrite Hchosen, length_take. f_equal. apply Permutation_length.
    unfold sorted. rewrite reverse_Permutation. apply table_sort_perm.
  - eapply StronglySorted_app_1_l. exact Hsorted.
  - exists (drop (Z.to_nat (int (n_stack cfg))) sorted). split; [exact Hperm|].
    intros a b Ha Hb.
    apply (StronglySorted_app_1_elem_of (flip flux_le) _ _ a b Hsorted Ha Hb).
Qed.

End SelectFacts.

Lemma select_psf_stars_brightest_witness :
  select_psf_stars merge_sort_flux sample_starhalo 400 400 sample_catalog
    = [MkObj 200 150 900 13 3; MkObj 150 220 600 14 3] /\
  StronglySorted (flip flux_le)
    (select_psf_stars merge_sort_flux sample_starhalo 400 400 sample_catalog).
Proof.
  split; [vm_compute; reflexivity|].
  refine (proj1 (proj2 (proj2
    (select_psf_stars_brightest merge_sort_flux _ _ sample_starhalo 400 400
       sample_catalog _)))).
  - intros l. apply (Sorted_merge_sort flux_le).
  - intros l. apply (merge_sort_Permutation flux_le).
  - vm_compute. discriminate.
Defined.

End StarSelectFacts.

Module HaloDrawFacts.

Import Py HaloDraw.

Local Open Scope Q_scope.

Lemma clip_in_range (n i : Z) : (0 <= i <= n)%Z -> clip n i = i.
Proof.
  intros H. unfold clip. destruct (i <? 0)%Z eqn:E; [apply Z.ltb_lt in E; lia|lia].
Qed.

Lemma pick_in_range (d r : Z) : (0 <= r < d)%Z -> pick d r = r.
Proof.
  intros H. unfold pick. destruct (d =? 1)%Z eqn:E; [apply Z.eqb_eq in E; lia|reflexivity].
Qed.

Lemma broadcastable_refl (d : Z) : broadcastable d d = true.
Proof. unfold broadcastable. rewrite Z.eqb_refl. reflexivity. Qed.

Lemma broadcast_axis_refl (d : nat) : broadcast_axis d d = Some d.
Proof. unfold broadcast_axis. rewrite Nat.eqb_refl. reflexivity. Qed.

Section DrawFacts.

Variable shift_image : ndarray -> Q -> Q -> ndarray.
Context {A : Type}.
Variable x_of y_of norm_of : A -> Q.
Variable half : Z.
Variable psf : ndarray.

Hypothesis half_nonneg : (0 <= half)%Z.

Lemma draw_star_on_canvas (canvas : ndarray) (o : A) :
  nrows (shifted shift_image x_of y_of psf o) = (2 * half + 1)%Z ->
  ncols (shifted shift_image x_of y_of psf o) = (2 * half + 1)%Z ->
  (0 <= int (y_of o))%Z -> (int (y_of o) + 2 * half + 1 <= nrows canvas)%Z ->
  (0 <= int (x_of o))%Z -> (int (x_of o) + 2 * half + 1 <= ncols canvas)%Z ->
  exists c,
    draw_star shift_image x_of y_of norm_of half psf canvas o = inr c /\
    rows c = rows canvas /\ cols c = cols canvas /\
    forall i j, px c i j == px canvas i j + stamp shift_image x_of y_of norm_of half psf o i j.
Proof.
  intros Hr Hc Hy0 Hy1 Hx0 Hx1.
  unfold draw_star, iadd_slice, stamp.
  set (yi := int (y_of o)) in *. set (xi := int (x_of o)) in *.
  set (sp := shifted shift_image x_of y_of psf o) in *.
  change (nrows (scale sp (norm_of o))) with (nrows sp).
  change (ncols (scale sp (norm_of o))) with (ncols sp).
  rewrite Hr, Hc.
  rewrite (clip_in_range (nrows canvas) (yi + half - half)) by lia.
  rewrite (clip_in_range (nrows canvas) (yi + half + half + 1)) by lia.
  rewrite (clip_in_range (ncols canvas) (xi + half - half)) by lia.
  rewrite (clip_in_range (ncols canvas) (xi + half + half + 1)) by lia.
  replace (Z.max 0 (yi + half + half + 1 - (yi + half - half))) with (2 * half + 1)%Z by lia.
  replace (Z.max 0 (xi + half + half + 1 - (xi + half - half))) with (2 * half + 1)%Z by lia.
  rewrite broadcastable_refl. cbn [andb].
  eexists. split; [reflexivity|]. split; [reflexivity|]. split; [reflexivity|].
  intros i j. cbn [px scale].
  destruct (Z.leb_spec (yi + half - half) i), (Z.ltb_spec i (yi + half - half + (2 * half + 1))),
           (Z.leb_spec (xi + half - half) j), (Z.ltb_spec j (xi + half - half + (2 * half + 1)));
  destruct (Z.leb_spec 0 (i - yi)), (Z.ltb_spec (i - yi) (2 * half + 1)),
           (Z.leb_spec 0 (j - xi)), (Z.ltb_spec (j - xi) (2 * half + 1));
  cbn [andb]; try lia; try ring.
  rewrite !pick_in_range by lia.
  replace (i - (yi + half - half))%Z with (i - yi)%Z by lia.
  replace (j - (xi + half - half))%Z with (j - xi)%Z by lia.
  reflexivity.
Qed.

Lemma draw_stars_on_canvas (cat : list A) : forall canvas : ndarray,
  (forall o, o ∈ cat ->
     nrows (shifted shift_image x_of y_of psf o) = (2 * half + 1)%Z /\
     ncols (shifted shift_image x_of y_of psf o) = (2 * half + 1)%Z) ->
  (forall o, o ∈ cat ->
     (0 <= int (y_of o))%Z /\ (int (y_of o) + 2 * half + 1 <= nrows canvas)%Z /\
     (0 <= int (x_of o))%Z /\ (int (x_of o) + 2 * half + 1 <= ncols canvas)%Z) ->
  exists c,
    draw_stars shift_image x_of y_of norm_of half psf canvas cat = inr c /\
    rows c = rows canvas /\ cols c = cols canvas /\
    forall i j, px c i j ==
      px canvas i j
      + sum_Q (List.map (fun o => stamp shift_image x_of y_of norm_of half psf o i j) cat).
Proof.
  induction cat as [|o cat IH]; intros canvas Hshape Hin.
  - exists canvas. split; [reflexivity|]. split; [reflexivity|]. split; [reflexivity|].
    intros i j. simpl. ring.
  - destruct (Hshape o) as [Hr Hc]; [left|].
    destruct (Hin o) as (Hy0 & Hy1 & Hx0 & Hx1); [left|].
    destruct (draw_star_on_canvas canvas o Hr Hc Hy0 Hy1 Hx0 Hx1)
      as (c1 & E1 & R1 & C1 & P1).
    destruct (IH c1) as (c & E & R & C & P).
    + intros o' Ho'. apply Hshape. right. exact Ho'.
    + intros o' Ho'. unfold nrows, ncols. rewrite R1, C1. apply Hin. right. exact Ho'.
    + exists c. split; [|split; [congruence|split; [congruence|]]].
      * cbn [draw_stars]. rewrite E1. exact E.
      * intros i j. rewrite P, P1. simpl. ring.
Qed.

End DrawFacts.

Section StackedFacts.

Variable shift_image : ndarray -> Q -> Q -> ndarray.
Variable norm : string.
Variable halosize : Z.

Lemma stacked_canvas (res : ndarray) :
  (0 <= halosize)%Z ->
  bind (zeros (nrows res + 2 * halosize) (ncols res + 2 * halosize))
       (fun im_padded => set_slice im_padded halosize (nrows res + halosize)
                                   halosize (ncols res + halosize) res)
  = inr (MkArray (Z.to_nat (nrows res + 2 * halosize)) (Z.to_nat (ncols res + 2 * halosize))
           (fun i j =>
              if (halosize <=? i)%Z && (i <? halosize + nrows res)%Z
                 && (halosize <=? j)%Z && (j <? halosize + ncols res)%Z
              then px res (pick (nrows res) (i - halosize)) (pick (ncols res) (j - halosize))
              else 0)).
Proof.
  intros Hh. unfold zeros, nrows, ncols.
  destruct (Z.ltb_spec (Z.of_nat (rows res) + 2 * halosize) 0); [lia|].
  destruct (Z.ltb_spec (Z.of_nat (cols res) + 2 * halosize) 0); [lia|].
  cbn [orb bind]. unfold set_slice, nrows, ncols. cbn [rows cols px].
  rewrite !Z2Nat.id by lia.
  rewrite !clip_in_range by lia.
  replace (Z.max 0 (Z.of_nat (rows res) + halosize - halosize)) with (Z.of_nat (rows res)) by lia.
  replace (Z.max 0 (Z.of_nat (cols res) + halosize - halosize)) with (Z.of_nat (cols res)) by lia.
  rewrite !broadcastable_refl. reflexivity.
Qed.

(** X12: [_subtract_stackedPSF] with every star on the frame. When the
    integer position of each star of the catalog lies on the image, the
    function raises nothing; the halo image has the shape of the image and
    each of its pixels is the sum, over the catalog, of the shifted PSF of
    the star at that pixel times the star's flux ([flux_ann] when
    [config.starhalo.norm] is 'flux_ann'); the result image is the input
    minus the halo image and the model gains the halo image, so that
    result plus model is unchanged. *)
Theorem stackedPSF_draws_halos
    (res : ndarray) (cat : list obj) (median_psf model : ndarray) :
  (0 <= halosize)%Z ->
  rows model = rows res -> cols model = cols res ->
  (forall o, o ∈ cat ->
     nrows (shifted shift_image x y median_psf o) = (2 * halosize + 1)%Z /\
     ncols (shifted shift_image x y median_psf o) = (2 * halosize + 1)%Z) ->
  (forall o, o ∈ cat ->
     (0 <= int (y o) < nrows res)%Z /\ (0 <= int (x o) < ncols res)%Z) ->
  exists r,
    _subtract_stackedPSF shift_image norm halosize res cat median_psf model = inr r /\
    rows (lowres_model_star r) = rows res /\ cols (lowres_model_star r) = cols res /\
    forall i j, (0 <= i < nrows res)%Z -> (0 <= j < ncols res)%Z ->
      px (lowres_model_star r) i j ==
        sum_Q (List.map (fun o => stamp shift_image x y (amplitude norm) halosize median_psf o
                                   (i + halosize) (j + halosize)) cat) /\
      px (lowres_final_unmask r) i j == px res i j - px (lowres_model_star r) i j /\
      px (lowres_model r) i j == px model i j + px (lowres_model_star r) i j /\
      px (lowres_final_unmask r) i j + px (lowres_model r) i j == px res i j + px model i j.
Proof.
  intros Hh Hmr Hmc Hshape Hin.
  unfold _subtract_stackedPSF.
  pose proof (stacked_canvas res Hh) as Hcanvas.
  unfold bind in Hcanvas at 1.
  destruct (zeros (nrows res + 2 * halosize) (ncols res + 2 * halosize))
    as [e | z] eqn:Ez; [discriminate|].
  cbn [bind]. rewrite Hcanvas. cbn [bind].
  set (canvas := zeros_like _).
  destruct (draw_stars_on_canvas shift_image x y (amplitude norm) halosize median_psf Hh
              cat canvas Hshape) as (c & E & R & C & P).
  { intros o Ho. destruct (Hin o Ho) as [[? ?] [? ?]].
    unfold canvas, nrows, ncols, zeros_like in *. cbn [rows cols]. lia. }
  rewrite E. cbn [bind].
  assert (Hrows : rows c = Z.to_nat (nrows res + 2 * halosize)) by (rewrite R; reflexivity).
  assert (Hcols : cols c = Z.to_nat (ncols res + 2 * halosize)) by (rewrite C; reflexivity).
  unfold get_slice.
  assert (Hnr : nrows c = (nrows res + 2 * halosize)%Z) by (unfold nrows in *; lia).
  assert (Hnc : ncols c = (ncols res + 2 * halosize)%Z) by (unfold ncols in *; lia).
  rewrite Hnr, Hnc.
  assert (Hres_r : (0 <= nrows res)%Z) by (unfold nrows; lia).
  assert (Hres_c : (0 <= ncols res)%Z) by (unfold ncols; lia).
  rewrite !clip_in_range by lia.
  replace (Z.to_nat (nrows res + halosize - halosize)) with (rows res) by (unfold nrows; lia).
  replace (Z.to_nat (ncols res + halosize - halosize)) with (cols res) by (unfold ncols; lia).
  unfold np_sub. cbn [rows cols]. rewrite !broadcast_axis_refl. cbn [bind].
  unfold iadd, nrows, ncols. cbn [rows cols]. rewrite Hmr, Hmc, !broadcastable_refl.
  cbn [andb bind].
  eexists. split; [reflexivity|]. cbn [lowres_model_star lowres_final_unmask lowres_model rows cols px].
  split; [reflexivity|]. split; [reflexivity|].
  intros i j Hi Hj. unfold nrows, ncols in Hi, Hj.
  rewrite !pick_in_range by lia.
  assert (Hpix : px c (i + halosize)%Z (j + halosize)%Z ==
                 sum_Q (List.map (fun o => stamp shift_image x y (amplitude norm) halosize
                                       median_psf o (i + halosize) (j + halosize)) cat)).
  { rewrite P. unfold canvas, zeros_like. cbn [px]. ring. }
  split; [exact Hpix|]. split; [reflexivity|]. split; [reflexivity|]. ring.
Qed.

Lemma draw_stars_app {A : Type} (x_of y_of norm_of : A -> Q) (half : Z) (psf : ndarray)
    (pre post : list A) : forall canvas,
  draw_stars shift_image x_of y_of norm_of half psf canvas (pre ++ post)
  = bind (draw_stars shift_image x_of y_of norm_of half psf canvas pre)
         (fun c => draw_stars shift_image x_of y_of norm_of half psf c post).
Proof.
  induction pre as [|o pre IH]; intros canvas; [reflexivity|].
  cbn [app draw_stars].
  destruct (draw_star shift_image x_of y_of norm_of half psf canvas o) as [e | c];
    cbn [bind]; [reflexivity|apply IH].
Qed.

(** X13: a star past the bottom or the right edge stops
    [_subtract_stackedPSF]. With [halosize] at least 1, when the stars
    before it lie on the image and the integer position of a star is at or
    beyond the number of rows or of columns, the slice of the padded canvas
    is shorter than the PSF and the in-place addition raises ValueError:
    the halo is not clipped to the frame, and no result is produced. *)
Theorem stackedPSF_star_off_frame_raises
    (res : ndarray) (pre post : list obj) (o : obj) (median_psf model : ndarray) :
  (1 <= halosize)%Z ->
  (forall o', o' ∈ pre ++ [o] ->
     nrows (shifted shift_image x y median_psf o') = (2 * halosize + 1)%Z /\
     ncols (shifted shift_image x y median_psf o') = (2 * halosize + 1)%Z) ->
  (forall o', o' ∈ pre ->
     (0 <= int (y o') < nrows res)%Z /\ (0 <= int (x o') < ncols res)%Z) ->
  (nrows res <= int (y o))%Z \/ (ncols res <= int (x o))%Z ->
  _subtract_stackedPSF shift_image norm halosize res (pre ++ o :: post) median_psf model
  = inl (ValueError "operands could not be broadcast together").
Proof.
  intros Hh Hshape Hin Hoff.
  assert (Hh0 : (0 <= halosize)%Z) by lia.
  unfold _subtract_stackedPSF.
  pose proof (stacked_canvas res Hh0) as Hcanvas.
  unfold bind in Hcanvas at 1.
  destruct (zeros (nrows res + 2 * halosize) (ncols res + 2 * halosize))
    as [e | z] eqn:Ez; [discriminate|].
  cbn [bind]. rewrite Hcanvas. cbn [bind].
  set (canvas := zeros_like _).
  rewrite draw_stars_app.
  destruct (draw_stars_on_canvas shift_image x y (amplitude norm) halosize median_psf Hh0
              pre canvas) as (c & E & R & C & P).
  { intros o' Ho'. apply Hshape. apply elem_of_app. left. exact Ho'. }
  { intros o' Ho'. destruct (Hin o' Ho') as [[? ?] [? ?]].
    unfold canvas, nrows, ncols, zeros_like in *. cbn [rows cols]. lia. }
  rewrite E. cbn [bind draw_stars].
  assert (Hraise : draw_star shift_image x y (amplitude norm) halosize median_psf c o
                   = inl (ValueError "operands could not be broadcast together")).
  { destruct (Hshape o) as [Hr Hc]; [apply elem_of_app; right; left|].
    unfold draw_star, iadd_slice.
    set (sp := shifted shift_image x y median_psf o) in *.
    change (nrows (scale sp (amplitude norm o))) with (nrows sp).
    change (ncols (scale sp (amplitude norm o))) with (ncols sp).
    rewrite Hr, Hc.
    assert (Hnr : nrows c = (nrows res + 2 * halosize)%Z).
    { unfold nrows. rewrite R. unfold canvas, zeros_like. cbn [rows]. unfold nrows. lia. }
    assert (Hnc : ncols c = (ncols res + 2 * halosize)%Z).
    { unfold ncols. rewrite C. unfold canvas, zeros_like. cbn [cols]. unfold ncols. lia. }
    rewrite Hnr, Hnc.
    assert (Hres_r : (0 <= nrows res)%Z) by (unfold nrows; lia).
    assert (Hres_c : (0 <= ncols res)%Z) by (unfold ncols; lia).
    match goal with
    | |- (if ?b1 && ?b2 then _ else _) = _ =>
        assert (Hb : b1 && b2 = false); [|rewrite Hb; reflexivity]
    end.
    destruct Hoff as [Hy | Hx].
    - apply andb_false_iff. left. unfold broadcastable, clip.
      destruct (Z.ltb_spec (int (y o) + halosize - halosize) 0); [lia|].
      destruct (Z.ltb_spec (int (y o) + halosize + halosize + 1) 0); [lia|].
      apply orb_false_iff. split; apply Z.eqb_neq; lia.
    - apply andb_false_iff. right. unfold broadcastable, clip.
      destruct (Z.ltb_spec (int (x o) + halosize - halosize) 0); [lia|].
      destruct (Z.ltb_spec (int (x o) + halosize + halosize + 1) 0); [lia|].
      apply orb_false_iff. split; apply Z.eqb_neq; lia. }
  rewrite Hraise. reflexivity.
Qed.

End StackedFacts.

Lemma stackedPSF_draws_halos_witness :
  exists r,
    _subtract_stackedPSF no_shift "flux" 1 sample_res sample_stars sample_psf sample_model
      = inr r /\
    px (lowres_model_star r) 0 1 == 4 /\
    px (lowres_final_unmask r) 0 1 + px (lowres_model r) 0 1 == 2.
Proof.
  destruct (stackedPSF_draws_halos no_shift "flux" 1 sample_res sample_stars sample_psf
              sample_model) as (r & E & _ & _ & P).
  - lia.
  - reflexivity.
  - reflexivity.
  - intros o _. split; reflexivity.
  - intros o Ho. unfold sample_stars in Ho.
    repeat (apply elem_of_cons in Ho; destruct Ho as [-> | Ho]);
      [vm_compute; intuition discriminate ..|].
    apply elem_of_nil in Ho. destruct Ho.
  - exists r. split; [exact E|].
    destruct (P 0%Z 1%Z) as (P1 & _ & _ & P4); [vm_compute; intuition discriminate ..|].
    split.
    + rewrite P1. vm_compute. reflexivity.
    + rewrite P4. vm_compute. reflexivity.
Defined.

Lemma stackedPSF_star_off_frame_raises_witness :
  _subtract_stackedPSF no_shift "flux" 1 sample_res off_frame_stars sample_psf sample_model
  = inl (ValueError "operands could not be broadcast together").
Proof.
  apply (stackedPSF_star_off_frame_raises no_shift "flux" 1 sample_res
           [MkObj (3 # 2) (1 # 2) 8 16] [] (MkObj (7 # 2) (1 # 2) 4 2) sample_psf sample_model).
  - lia.
  - intros o' _. split; reflexivity.
  - intros o' Ho'. apply list_elem_of_singleton in Ho'. subst o'.
    vm_compute. intuition discriminate.
  - right. vm_compute. discriminate.
Defined.

Lemma int_of_inject_Z (z : Z) : int (inject_Z z) = z.
Proof.
  unfold int. destruct (Qle_bool 0 (inject_Z z)); [apply Qfloor_Z|apply Qceiling_Z].
Qed.

Lemma padded_canvas (res : ndarray) (h pad : Z) :
  (0 <= h <= pad)%Z ->
  exists p,
    rows p = Z.to_nat (nrows res + pad) /\ cols p = Z.to_nat (ncols res + pad) /\
    forall (B : Type) (k : ndarray -> exn + B),
      bind (zeros (nrows res + pad) (ncols res + pad))
           (fun im => bind (set_slice im h (nrows res + h) h (ncols res + h) res) k)
      = k p.
Proof.
  intros Hh. unfold zeros, nrows, ncols.
  destruct (Z.ltb_spec (Z.of_nat (rows res) + pad) 0); [lia|].
  destruct (Z.ltb_spec (Z.of_nat (cols res) + pad) 0); [lia|].
  cbn [orb bind]. unfold set_slice, nrows, ncols. cbn [rows cols px].
  rewrite !Z2Nat.id by lia.
  rewrite !clip_in_range by lia.
  replace (Z.max 0 (Z.of_nat (rows res) + h - h)) with (Z.of_nat (rows res)) by lia.
  replace (Z.max 0 (Z.of_nat (cols res) + h - h)) with (Z.of_nat (cols res)) by lia.
  rewrite !broadcastable_refl. cbn [andb].
  eexists. split; [|split; [|intros B k; reflexivity]]; reflexivity.
Qed.

Section WideFacts.

Variable shift_image : ndarray -> Q -> Q -> ndarray.
Variable pow10 : Q -> Q.
Variable magnify_factor : Q.

Hypothesis shift_keeps_shape : forall a dx dy,
  rows (shift_image a dx dy) = rows a /\ cols (shift_image a dx dy) = cols a.

(** X14: the halo stage of [_subtract_widePSF] with every star on the
    frame. With a 501 x 501 wide PSF, a non-zero magnification factor and
    a shift that keeps the shape of an image, the stage raises nothing:
    the halo image it builds has the shape of the frame, each pixel the
    sum over the catalog of the shifted PSF of the star at that pixel
    times the star's normalisation; the star model is that image shifted
    by [-1 / magnify_factor] on both axes; the result image is the input
    minus the star model and the model gains it, so that result plus
    model is unchanged. *)
Theorem widePSF_draws_halos
    (res : ndarray) (cat : list wide_obj) (new_psf : ndarray) (pfit : list Q)
    (model : ndarray) :
  rows new_psf = 501%nat -> cols new_psf = 501%nat ->
  rows model = rows res -> cols model = cols res ->
  ~ magnify_factor == 0 ->
  (forall o, o ∈ cat ->
     (0 <= int (wide_y o) < nrows res)%Z /\ (0 <= int (wide_x o) < ncols res)%Z) ->
  exists r im_halos,
    draw_wide_halos shift_image pow10 magnify_factor res cat new_psf pfit model = inr r /\
    lowres_model_star r
      = shift_image im_halos (- (1 / magnify_factor)) (- (1 / magnify_factor)) /\
    rows im_halos = rows res /\ cols im_halos = cols res /\
    forall i j, (0 <= i < nrows res)%Z -> (0 <= j < ncols res)%Z ->
      px im_halos i j ==
        sum_Q (List.map
                 (fun o => stamp shift_image wide_x wide_y
                             (fun o => Halo.norm pow10 pfit (wide_star o)) 250 new_psf o
                             (i + 250) (j + 250)) cat) /\
      px (lowres_final_unmask r) i j == px res i j - px (lowres_model_star r) i j /\
      px (lowres_model r) i j == px model i j + px (lowres_model_star r) i j /\
      px (lowres_final_unmask r) i j + px (lowres_model r) i j == px res i j + px model i j.
Proof.
  intros Hpr Hpc Hmr Hmc Hmag Hin.
  unfold draw_wide_halos.
  change (int (psf_size / 2)) with 250%Z.
  change psf_size with (inject_Z 501).
  rewrite <- !inject_Z_plus, !int_of_inject_Z.
  assert (Hres_r : (0 <= nrows res)%Z) by (unfold nrows; lia).
  assert (Hres_c : (0 <= ncols res)%Z) by (unfold ncols; lia).
  destruct (padded_canvas res 250 501 ltac:(lia)) as (p & Rp & Cp & Ep).
  rewrite Ep.
  set (canvas := zeros_like _).
  destruct (draw_stars_on_canvas shift_image wide_x wide_y
              (fun o => Halo.norm pow10 pfit (wide_star o)) 250 new_psf ltac:(lia)
              cat canvas) as (c & E & R & C & P).
  { intros o _. unfold shifted, nrows, ncols.
    destruct (shift_keeps_shape new_psf
                (- (-1 * (wide_x o - inject_Z (int (wide_x o)))))
                (- (-1 * (wide_y o - inject_Z (int (wide_y o)))))) as [-> ->].
    rewrite Hpr, Hpc. split; reflexivity. }
  { intros o Ho. destruct (Hin o Ho) as [[? ?] [? ?]].
    unfold canvas, zeros_like, nrows, ncols in *. cbn [rows cols]. rewrite Rp, Cp. lia. }
  rewrite E. cbn [bind].
  assert (Hnr : nrows c = (nrows res + 501)%Z).
  { unfold nrows. rewrite R. unfold canvas, zeros_like. cbn [rows]. rewrite Rp.
    unfold nrows. lia. }
  assert (Hnc : ncols c = (ncols res + 501)%Z).
  { unfold ncols. rewrite C. unfold canvas, zeros_like. cbn [cols]. rewrite Cp.
    unfold ncols. lia. }
  destruct (Qeq_bool magnify_factor 0) eqn:Em; [apply Qeq_bool_eq in Em; contradiction|].
  set (im_halos := get_slice c 250 (nrows res + 250) 250 (ncols res + 250)).
  assert (Hir : rows im_halos = rows res).
  { unfold im_halos, get_slice. cbn [rows]. rewrite Hnr, !clip_in_range by lia.
    unfold nrows. lia. }
  assert (Hic : cols im_halos = cols res).
  { unfold im_halos, get_slice. cbn [cols]. rewrite Hnc, !clip_in_range by lia.
    unfold ncols. lia. }
  set (model_star := shift_image im_halos (- (1 / magnify_factor)) (- (1 / magnify_factor))).
  destruct (shift_keeps_shape im_halos (- (1 / magnify_factor)) (- (1 / magnify_factor)))
    as [Hsr Hsc].
  fold model_star in Hsr, Hsc. rewrite Hir in Hsr. rewrite Hic in Hsc.
  unfold np_sub. rewrite Hsr, Hsc, !broadcast_axis_refl. cbn [bind].
  unfold iadd, nrows, ncols. rewrite Hsr, Hsc, Hmr, Hmc, !broadcastable_refl.
  cbn [andb bind].
  eexists. exists im_halos. split; [reflexivity|].
  cbn [lowres_model_star lowres_final_unmask lowres_model rows cols px].
  split; [reflexivity|]. split; [exact Hir|]. split; [exact Hic|].
  intros i j Hi Hj. unfold nrows, ncols in Hi, Hj.
  rewrite !pick_in_range by lia.
  split; [|split; [reflexivity|split; [reflexivity|ring]]].
  unfold im_halos, get_slice. cbn [px]. rewrite Hnr, Hnc, !clip_in_range by lia.
  rewrite P. unfold canvas, zeros_like. cbn [px]. ring.
Qed.

End WideFacts.

Lemma widePSF_draws_halos_witness :
  exists r,
    draw_wide_halos no_shift (fun _ => 1) 3 sample_res sample_wide_stars sample_wide_psf
      [0; 0; 0] sample_model = inr r /\
    px (lowres_final_unmask r) 0 1 + px (lowres_model r) 0 1 == 2.
Proof.
  destruct (widePSF_draws_halos no_shift (fun _ => 1) 3 (fun a dx dy => conj eq_refl eq_refl)
              sample_res sample_wide_stars sample_wide_psf [0; 0; 0] sample_model)
    as (r & im & E & _ & _ & _ & P).
  - reflexivity.
  - reflexivity.
  - reflexivity.
  - reflexivity.
  - intros H. vm_compute in H. discriminate.
  - intros o Ho. unfold sample_wide_stars in Ho.
    repeat (apply elem_of_cons in Ho; destruct Ho as [-> | Ho]);
      [vm_compute; intuition discriminate ..|].
    apply elem_of_nil in Ho. destruct Ho.
  - exists r. split; [exact E|].
    destruct (P 0%Z 1%Z) as (_ & _ & _ & P4); [vm_compute; intuition discriminate ..|].
    rewrite P4. vm_compute. reflexivity.
Defined.

End HaloDrawFacts.

Module BackgroundFacts.

Import Py Cfg Background.

Local Open Scope Q_scope.

Section SubtractFacts.

Variable float_of_string : string -> exn + Q.

(** X15: the background value of the wide-PSF mode. When background
    subtraction is on and [wide_psf] is true, the header keyword BACKVAL is
    read before [config.wide_psf.bkgval] is looked at: a header without
    BACKVAL raises KeyError even if the configuration gives a value; with
    BACKVAL in the header, a configured value that converts to a number is
    the one subtracted from every pixel, whatever the header holds, and
    without a configured value the header's is subtracted. *)
Theorem wide_bkgval_reads_header_first
    (config_wide_psf header : gmap string value) (image : list Q) :
  let run := subtract_background float_of_string true true config_wide_psf header image in
  (header !! "BACKVAL"%string = None -> run = inl (OtherError "KeyError")) /\
  (forall d v q, header !! "BACKVAL"%string = Some d ->
     config_wide_psf !! "bkgval"%string = Some v -> float float_of_string v = inr q ->
     run = inr (List.map (fun p => p - q) image)) /\
  (forall d q, header !! "BACKVAL"%string = Some d ->
     config_wide_psf !! "bkgval"%string = None -> float float_of_string d = inr q ->
     run = inr (List.map (fun p => p - q) image)).
Proof.
  intros run. unfold run, subtract_background, header_get, getattr.
  split; [|split].
  - intros ->. reflexivity.
  - intros d v q -> -> Hq. cbn [bind]. rewrite Hq. reflexivity.
  - intros d q -> -> Hq. cbn [bind]. rewrite Hq. reflexivity.
Qed.

End SubtractFacts.

Lemma wide_bkgval_reads_header_first_witness :
  subtract_background no_strings true true {[ "bkgval"%string := VFloat 3 ]} ∅ [10; 20]
  = inl (OtherError "KeyError").
Proof.
  apply (proj1 (wide_bkgval_reads_header_first no_strings
                  {[ "bkgval"%string := VFloat 3 ]} ∅ [10; 20])).
  reflexivity.
Defined.

End BackgroundFacts.

Module MastFacts.

Import Py Mast.

Lemma HTTPError_unbound :
  bool_decide ("HTTPError"%string ∈ module_globals ++ widePSF_locals) = false.
Proof. vm_compute. reflexivity. Qed.

(** X16: the query to MAST is never retried. Where [_subtract_widePSF]
    runs the name [HTTPError] is not bound, so for any behaviour of
    [ps1cone] the loop calls it exactly once: a successful call gives its
    result, and a call that raises anything makes the [except] clause raise
    NameError. The second and third attempts and the exit with
    '504 Server Error' are never reached. *)
Theorem mast_query_single_attempt {result : Type} (ps1cone : nat -> exn + result) :
  mast_query ps1cone =
    (1%nat, match ps1cone 0%nat with
            | inr ps1result => inr ps1result
            | inl _ => inl (OtherError "NameError: name 'HTTPError' is not defined")
            end).
Proof.
  unfold mast_query. cbn [attempts]. unfold except_clause.
  rewrite HTTPError_unbound.
  destruct (ps1cone 0%nat) as [e | r]; reflexivity.
Qed.

(** With the name bound the loop does what it was written for: a gateway
    time-out is retried, and three of them end in the exit. *)
Lemma attempts_with_name_bound :
  attempts string flaky_server ("HTTPError"%string :: module_globals ++ widePSF_locals) 3 0
    = (3%nat, inr "objID,raMean"%string) /\
  attempts string (fun _ => inl HTTPError)
           ("HTTPError"%string :: module_globals ++ widePSF_locals) 3 0
    = (3%nat, inl (OtherError "SystemExit: 504 Server Error: Failed Attempts. Exit.")) /\
  mast_query flaky_server
    = (1%nat, inl (OtherError "NameError: name 'HTTPError' is not defined")).
Proof. vm_compute. repeat split; reflexivity. Qed.

End MastFacts.

Module CleanFacts.

Import Py Clean.

Section CleanStageFacts.

Variable img mask : Type.
Variable model_mask_of : img -> mask.
Variable bright_star_mask : mask -> mask.
Variable box_smooth : mask -> mask.
Variable img_replace_with_noise : img -> mask -> img.
Variable void : img -> mask -> img.

(** X17: cleaning cannot be switched off. With [config.clean.clean_img]
    false, [final_image] and [totmask] are never assigned, and the depth
    measurement of step 13 raises UnboundLocalError: no final image or mask
    is saved and the contrast is not measured; the temporary files are
    removed first when [clean_file] is set. With [clean_img] true the stage
    saves both files and measures the contrast of the cleaned image. *)
Theorem clean_img_false_raises (cfg : clean_cfg) (img_sub lowres_model : img) :
  let run := clean_and_measure img mask model_mask_of bright_star_mask box_smooth
               img_replace_with_noise void cfg img_sub lowres_model in
  (clean_img cfg = false ->
     snd run = inl (OtherError "UnboundLocalError") /\
     fst run = (if clean_file cfg then [RemovedTemporaryFiles] else []) /\
     ~ In MeasuredContrast (fst run) /\
     forall suffix, ~ In (Saved suffix) (fst run)) /\
  (clean_img cfg = true ->
     exists final m, snd run = inr (final, m) /\
       m = box_smooth (bright_star_mask (model_mask_of lowres_model)) /\
       final = (if replace_with_noise cfg then img_replace_with_noise img_sub m
                else void img_sub m) /\
       In (Saved "_final.fits") (fst run) /\ In (Saved "_mask.fits") (fst run) /\
       In MeasuredContrast (fst run)).
Proof.
  intros run. unfold run, clean_and_measure, clean_step, remove_step, contrast_step.
  split; intros ->.
  - cbn. split; [reflexivity|]. split; [rewrite app_nil_r; reflexivity|].
    rewrite app_nil_r.
    split; [|intros suffix]; destruct (clean_file cfg); cbn; intuition discriminate.
  - cbn. eexists. eexists. split; [reflexivity|]. split; [reflexivity|].
    split; [reflexivity|].
    split; [left; reflexivity|]. split; [right; left; reflexivity|].
    right. right. apply in_or_app. right. left. reflexivity.
Qed.

End CleanStageFacts.

Lemma clean_img_false_raises_witness :
  snd (clean_and_measure Z bool (fun _ => true) negb negb (fun i _ => i) (fun i _ => i)
         (MkClean false false true) 5%Z 7%Z)
  = inl (OtherError "UnboundLocalError").
Proof.
  apply (proj1 (proj1 (clean_img_false_raises Z bool (fun _ => true) negb negb
                         (fun i _ => i) (fun i _ => i) (MkClean false false true) 5%Z 7%Z)
                      eq_refl)).
Defined.

End CleanFacts.

Module Ps1JoinFacts.

Import Py FVal Ps1Join.

Local Open Scope Q_scope.

Lemma select_map {A B : Type} (f : A -> bool) (g : A -> B) (l : list A) :
  select (List.map f l) (List.map g l) = List.map g (List.filter f l).
Proof.
  induction l as [|a l IH]; [reflexivity|]. cbn [List.map select List.filter].
  destruct (f a); cbn [List.map]; rewrite IH; reflexivity.
Qed.

Lemma select_filter {A : Type} (f : A -> bool) (l : list A) :
  select (List.map f l) l = List.filter f l.
Proof.
  rewrite <- (map_id l) at 2. rewrite select_map, map_id. reflexivity.
Qed.

Lemma take_rows_map {A B : Type} (table : list B) (g : A -> nat) (l : list A) :
  (forall a, In a l -> (g a < length table)%nat) ->
  exists bs, take_rows table (List.map g l) = inr bs /\
    List.map Some bs = List.map (fun a => table !! g a) l.
Proof.
  induction l as [|a l IH]; intros Hin.
  - exists []. split; reflexivity.
  - destruct IH as (bs & E & M); [intros a' Ha'; apply Hin; right; exact Ha'|].
    destruct (lookup_lt_is_Some_2 table (g a)) as [b Hb]; [apply Hin; left; reflexivity|].
    exists (b :: bs). cbn [List.map take_rows]. rewrite Hb, E.
    split; [reflexivity|]. cbn [List.map]. rewrite M. reflexivity.
Qed.

Lemma hstack_outer_left {A B : Type} (l : list A) :
  hstack_outer l (@nil B) = List.map (fun a => (Some a, None)) l.
Proof. induction l as [|a l IH]; [reflexivity|]. cbn. rewrite IH. reflexivity. Qed.

Lemma hstack_outer_matched {A B : Type} (h : A -> option B) (l rest : list A) :
  forall bs, List.map Some bs = List.map h l ->
  hstack_outer (l ++ rest) bs
  = List.map (fun a => (Some a, h a)) l ++ List.map (fun a => (Some a, None)) rest.
Proof.
  induction l as [|a l IH]; intros bs M.
  - destruct bs; [|discriminate]. cbn [app List.map]. apply hstack_outer_left.
  - destruct bs as [|b bs]; [discriminate|]. cbn [List.map] in M.
    injection M as Hb M. cbn [app hstack_outer List.map]. rewrite <- Hb, (IH bs M).
    reflexivity.
Qed.

Lemma filter_partition_perm {A : Type} (f : A -> bool) (l : list A) :
  List.filter f l ++ List.filter (fun a => negb (f a)) l ≡ₚ l.
Proof.
  induction l as [|a l IH]; [reflexivity|]. cbn [List.filter].
  destruct (f a); cbn [negb app].
  - rewrite IH. reflexivity.
  - rewrite <- Permutation_middle, IH. reflexivity.
Qed.

Section JoinFacts.

Variable starrow ps1row : Type.
Variable nearest : starrow -> nat * Q.

(** X18: the join of the bright stars with the Pan-STARRS catalog keeps
    every star with its own match. When each row number returned by the
    matching is a row of the Pan-STARRS table, the join raises nothing; the
    stars of the joined table are those of the catalog, reordered; no row
    lacks its star; a row with a Pan-STARRS entry pairs a star whose
    separation is below 5 arcsec with the row nearest to that star; and a
    row with a masked entry holds a star whose separation is 5 arcsec or
    more. *)
Theorem join_pairs_each_star_with_its_match
    (bright_star_cat : list starrow) (ps1_cat : list ps1row) :
  (forall s, In s bright_star_cat -> (fst (nearest s) < length ps1_cat)%nat) ->
  exists rows,
    join starrow ps1row nearest bright_star_cat ps1_cat = inr rows /\
    List.map fst rows ≡ₚ List.map Some bright_star_cat /\
    (forall s p, In (Some s, Some p) rows ->
       In s bright_star_cat /\ snd (nearest s) < 5 /\
       ps1_cat !! fst (nearest s) = Some p) /\
    (forall s, In (Some s, None) rows ->
       In s bright_star_cat /\ ~ snd (nearest s) < 5) /\
    (forall s, In s bright_star_cat ->
       In (Some s, if near starrow nearest s then ps1_cat !! fst (nearest s) else None) rows).
Proof.
  intros Hidx. unfold join.
  set (f := near starrow nearest).
  assert (Hflag : List.map (fun d => Qlt_bool d 5)
                    (List.map (fun s => snd (nearest s)) bright_star_cat)
                  = List.map f bright_star_cat).
  { rewrite List.map_map. reflexivity. }
  rewrite Hflag, (List.map_map f negb), select_map, select_filter.
  assert (Hneg : select (List.map (fun s => negb (f s)) bright_star_cat) bright_star_cat
                 = List.filter (fun s => negb (f s)) bright_star_cat).
  { apply (select_filter (fun s => negb (f s))). }
  rewrite Hneg.
  destruct (take_rows_map ps1_cat (fun s => fst (nearest s)) (List.filter f bright_star_cat))
    as (bs & E & M).
  { intros s Hs. apply filter_In in Hs. apply Hidx. tauto. }
  rewrite E.
  rewrite (hstack_outer_matched (fun s => ps1_cat !! fst (nearest s)) _ _ bs M).
  eexists. split; [reflexivity|].
  assert (Hlt : forall s, f s = true <-> snd (nearest s) < 5).
  { intros s. unfold f, near, Qlt_bool. rewrite negb_true_iff. split.
    - intros Hf. apply Qnot_le_lt. intros Hle. apply Qle_bool_iff in Hle. congruence.
    - intros Hl. apply not_true_is_false. intros Hle. apply Qle_bool_iff in Hle.
      exact (Qlt_not_le _ _ Hl Hle). }
  split; [|split; [|split]].
  - rewrite List.map_app, !List.map_map. cbn [fst].
    rewrite <- List.map_app.
    apply (Permutation_map (fun s => Some s)). apply filter_partition_perm.
  - intros s p Hin. apply in_app_or in Hin. destruct Hin as [Hin | Hin].
    + apply in_map_iff in Hin. destruct Hin as (s' & Heq & Hs').
      injection Heq as -> Hp. apply filter_In in Hs'. destruct Hs' as [Hs' Hf].
      split; [exact Hs'|]. split; [apply Hlt; exact Hf|exact Hp].
    + apply in_map_iff in Hin. destruct Hin as (s' & Heq & _). discriminate.
  - intros s Hin. apply in_app_or in Hin. destruct Hin as [Hin | Hin].
    + apply in_map_iff in Hin. destruct Hin as (s' & Heq & Hs').
      injection Heq as -> Hp. apply filter_In in Hs'. destruct Hs' as [Hs' Hf].
      exfalso. pose proof (Hidx s Hs') as Hi.
      apply lookup_lt_is_Some_2 in Hi. destruct Hi as [b Hb]. congruence.
    + apply in_map_iff in Hin. destruct Hin as (s' & Heq & Hs').
      injection Heq as ->. apply filter_In in Hs'. destruct Hs' as [Hs' Hf].
      split; [exact Hs'|]. intros Hlt'. apply Hlt in Hlt'.
      rewrite Hlt' in Hf. discriminate.
  - intros s Hs. apply in_or_app. fold f. destruct (f s) eqn:Ef.
    + left. apply in_map_iff. exists s. split; [reflexivity|].
      apply filter_In. split; assumption.
    + right. apply in_map_iff. exists s. split; [reflexivity|].
      apply filter_In. split; [assumption|]. rewrite Ef. reflexivity.
Qed.

End JoinFacts.

Lemma join_pairs_each_star_with_its_match_witness :
  exists rows,
    join string Z sample_nearest sample_bright_stars sample_ps1 = inr rows /\
    rows = [ (Some "a", Some 102%Z); (Some "c", Some 100%Z);
             (Some "b", None); (Some "d", None) ]%string.
Proof.
  destruct (join_pairs_each_star_with_its_match string Z sample_nearest
              sample_bright_stars sample_ps1) as (rows & E & _).
  - intros s Hs. unfold sample_bright_stars in Hs. cbn [In] in Hs.
    destruct Hs as [<- | [<- | [<- | [<- | []]]]]; vm_compute; lia.
  - exists rows. split; [exact E|].
    vm_compute in E. injection E as <-. reflexivity.
Defined.

End Ps1JoinFacts.
